(** * k8s-causal-memory: the operational memory store

    A shallow embedding of [storage/ingest.py], [storage/query.py] and the
    read paths of [storage/api.py], and the properties of the ingestion
    pipeline, the causal linker and the query engine.

    Layout: Python values and exceptions, SQLite values and the three tables,
    the functions of the three source files, a concrete runtime (a JSON
    decoder and SQLite's [datetime]) for running the model, then the
    theorems. *)

From Stdlib Require Import ZArith List String Ascii Bool Lia QArith_base.
From Stdlib Require Import DecimalString Permutation Sorted.
From Equations Require Import Equations.
Import ListNotations.
Local Open Scope string_scope.
Local Open Scope list_scope.
Local Open Scope Z_scope.

(* ################################################################# *)
(** * Python values *)

(** What [json.loads] returns. Numbers are the integer ones; a Python dict is
    the list of its items in insertion order. *)
#[warnings="-register-all"]
Inductive json : Type :=
| JNull
| JBool (b : bool)
| JNum (n : Z)
| JStr (s : string)
| JArr (items : list json)
| JObj (items : list (string * json)).

(** The exceptions the three files can meet. [InterfaceError] stands for the
    error [sqlite3] raises when a parameter has a type it cannot bind
    (a list or a dict); it is not an [IntegrityError]. *)
Inductive exn : Type :=
| JSONDecodeError
| IntegrityError
| KeyError (key : string)
| TypeError
| AttributeError
| InterfaceError
| OverflowError.

Definition exn_eqb (a b : exn) : bool :=
  match a, b with
  | JSONDecodeError, JSONDecodeError => true
  | IntegrityError, IntegrityError => true
  | KeyError k, KeyError k' => String.eqb k k'
  | TypeError, TypeError => true
  | AttributeError, AttributeError => true
  | InterfaceError, InterfaceError => true
  | OverflowError, OverflowError => true
  | _, _ => false
  end.

Inductive res (A : Type) : Type :=
| Ok (a : A)
| Raise (e : exn).
Arguments Ok {A} a.
Arguments Raise {A} e.

Definition and_then {A B} (r : res A) (k : A -> res B) : res B :=
  match r with
  | Ok a => k a
  | Raise e => Raise e
  end.

Notation "x <~ r ;; k" := (and_then r (fun x => k))
  (at level 61, r at next level, right associativity).

(** [d[k]] on the items of a dict: the last binding of [k] is the live one. *)
Fixpoint dict_get (items : list (string * json)) (k : string) : option json :=
  match items with
  | [] => None
  | (k', v) :: rest =>
      match dict_get rest k with
      | Some w => Some w
      | None => if String.eqb k' k then Some v else None
      end
  end.

(** [e[k]]: a [KeyError] on a dict without [k], a [TypeError] on anything
    that is not a dict. *)
Definition subscript (e : json) (k : string) : res json :=
  match e with
  | JObj items =>
      match dict_get items k with
      | Some v => Ok v
      | None => Raise (KeyError k)
      end
  | _ => Raise TypeError
  end.

(** [e.get(k, default)]. *)
Definition get (e : json) (k : string) (default : json) : res json :=
  match e with
  | JObj items =>
      match dict_get items k with
      | Some v => Ok v
      | None => Ok default
      end
  | _ => Raise AttributeError
  end.

Definition itoa (n : Z) : string := NilZero.string_of_int (Z.to_int n).

(** [str.strip()] with no argument, on ASCII text. *)
Definition is_space (c : ascii) : bool :=
  let n := nat_of_ascii c in
  ((9 <=? n) && (n <=? 13) || (28 <=? n) && (n <=? 32))%nat.

Fixpoint lstrip (s : string) : string :=
  match s with
  | String c s' => if is_space c then lstrip s' else s
  | EmptyString => EmptyString
  end.

Fixpoint rstrip (s : string) : string :=
  match s with
  | EmptyString => EmptyString
  | String c s' =>
      match rstrip s' with
      | EmptyString => if is_space c then EmptyString else String c EmptyString
      | t => String c t
      end
  end.

Definition strip (s : string) : string := rstrip (lstrip s).

(** A text file read line by line ([for line in f], [f.readlines()]): every
    line keeps its newline, the last one has none when the file does not end
    with one. Files are ASCII text with newline as the line end, so that an
    offset counts characters. *)
Definition newline : ascii := "010"%char.

Fixpoint readlines (s : string) : list string :=
  match s with
  | EmptyString => []
  | String c s' =>
      if Ascii.eqb c newline then String c EmptyString :: readlines s'
      else match readlines s' with
           | [] => [String c EmptyString]
           | l :: ls => String c l :: ls
           end
  end.

Fixpoint drop (n : nat) (s : string) : string :=
  match n, s with
  | O, _ => s
  | S n', String _ s' => drop n' s'
  | S _, EmptyString => EmptyString
  end.

(* ################################################################# *)
(** * SQLite values *)

(** Storage classes NULL, INTEGER and TEXT; the columns keep a value as it
    was bound. *)
Inductive sqlval : Type :=
| VNull
| VInt (n : Z)
| VText (s : string).

Definition sqlval_eqb (a b : sqlval) : bool :=
  match a, b with
  | VNull, VNull => true
  | VInt x, VInt y => Z.eqb x y
  | VText s, VText t => String.eqb s t
  | _, _ => false
  end.

(** How [sqlite3] binds a Python value to a [?]. *)
Definition adapt (v : json) : res sqlval :=
  match v with
  | JNull => Ok VNull
  | JBool b => Ok (VInt (if b then 1 else 0))
  | JNum n => if (- 2 ^ 63 <=? n) && (n <? 2 ^ 63) then Ok (VInt n) else Raise OverflowError
  | JStr s => Ok (VText s)
  | JArr _ | JObj _ => Raise InterfaceError
  end.

(** A column value read back into Python and formatted by an f-string. *)
Definition format_sql (v : sqlval) : string :=
  match v with
  | VNull => "None"
  | VInt n => itoa n
  | VText s => s
  end.

(** A comparison operator of a WHERE clause: NULL on either side gives NULL,
    an INTEGER is below any TEXT, two TEXT values compare byte by byte. *)
Definition sql_compare (a b : sqlval) : option comparison :=
  match a, b with
  | VNull, _ | _, VNull => None
  | VInt x, VInt y => Some (x ?= y)
  | VInt _, VText _ => Some Lt
  | VText _, VInt _ => Some Gt
  | VText s, VText t => Some (String.compare s t)
  end.

Definition sql_eq (a b : sqlval) : bool :=
  match sql_compare a b with Some Eq => true | _ => false end.

Definition sql_le (a b : sqlval) : bool :=
  match sql_compare a b with Some Lt | Some Eq => true | _ => false end.

Definition sql_ge (a b : sqlval) : bool := sql_le b a.

(** The order of ORDER BY: NULL first, then the comparison above. *)
Definition key_le (a b : sqlval) : bool :=
  match a, b with
  | VNull, _ => true
  | _, VNull => false
  | _, _ => sql_le a b
  end.

Section OrderBy.
Context {A : Type}.
Variable key : A -> sqlval.

Fixpoint insert_asc (x : A) (l : list A) : list A :=
  match l with
  | [] => [x]
  | y :: l' => if key_le (key y) (key x) then y :: insert_asc x l' else x :: l
  end.

Fixpoint insert_desc (x : A) (l : list A) : list A :=
  match l with
  | [] => [x]
  | y :: l' => if key_le (key x) (key y) then y :: insert_desc x l' else x :: l
  end.

(** ORDER BY key ASC and ORDER BY key DESC; rows with equal keys stay in
    table order. *)
Definition order_by_asc (l : list A) : list A :=
  fold_left (fun acc x => insert_asc x acc) l [].

Definition order_by_desc (l : list A) : list A :=
  fold_left (fun acc x => insert_desc x acc) l [].
End OrderBy.

(* ################################################################# *)
(** * The store *)

(** Modelled from the spec: [schema.sql], which declares the tables, is not
    among the sources. Section 3 gives the columns; every table is keyed by
    a unique [id] with insert-if-absent semantics, and an edge's
    [cause_event_id] and [effect_event_id] reference existing events (the
    connection runs with [PRAGMA foreign_keys=ON]). The [payload] and [state]
    columns hold the text [json.dumps] wrote, kept here as the document it
    denotes. *)
Record event_row : Type := mk_event {
  ev_id : sqlval;
  ev_timestamp : sqlval;
  ev_event_type : sqlval;
  ev_pattern_id : sqlval;
  ev_pod_name : sqlval;
  ev_namespace : sqlval;
  ev_node_name : sqlval;
  ev_pod_uid : sqlval;
  ev_payload : json
}.

Record snapshot_row : Type := mk_snapshot {
  sn_id : sqlval;
  sn_timestamp : sqlval;
  sn_object_kind : sqlval;
  sn_object_name : sqlval;
  sn_namespace : sqlval;
  sn_trigger_event : sqlval;
  sn_state : json
}.

Record edge_row : Type := mk_edge {
  ce_id : sqlval;
  ce_cause_event_id : sqlval;
  ce_effect_event_id : sqlval;
  ce_pattern_id : string;
  ce_confidence : Q;
  ce_edge_type : string
}.

(** What a connection sees: the three tables, rows in insertion order. *)
Record db : Type := mk_db {
  events : list event_row;
  snapshots : list snapshot_row;
  causal_edges : list edge_row
}.

Definition empty_db : db := mk_db [] [] [].

Definition has_event (evs : list event_row) (id : sqlval) : bool :=
  existsb (fun r => sqlval_eqb (ev_id r) id) evs.

Definition has_snapshot (sns : list snapshot_row) (id : sqlval) : bool :=
  existsb (fun r => sqlval_eqb (sn_id r) id) sns.

Definition has_edge (ces : list edge_row) (id : sqlval) : bool :=
  existsb (fun r => sqlval_eqb (ce_id r) id) ces.

(** A foreign key into [events(id)]; a NULL child key is not checked. *)
Definition fk_ok (evs : list event_row) (v : sqlval) : bool :=
  match v with
  | VNull => true
  | _ => has_event evs v
  end.

(* ################################################################# *)
(** * Statements on a connection *)

(** A computation on a connection: it returns or raises, and leaves the
    connection in the state it reached. The tables are those the connection
    sees; [conn.commit()] is not represented. *)
Definition M (A : Type) : Type := db -> res A * db.

Definition ret {A} (a : A) : M A := fun s => (Ok a, s).

Definition raise {A} (e : exn) : M A := fun s => (Raise e, s).

Definition bind {A B} (m : M A) (k : A -> M B) : M B :=
  fun s =>
    match m s with
    | (Ok a, s') => k a s'
    | (Raise e, s') => (Raise e, s')
    end.

Definition lift {A} (r : res A) : M A := fun s => (r, s).

Notation "x <- m ;; k" := (bind m (fun x => k))
  (at level 61, m at next level, right associativity).
Notation "m ;;; k" := (bind m (fun _ => k))
  (at level 61, right associativity).

(** [try: body  except (E1, ...): handler]. *)
Definition try_except {A} (body : M A) (caught : exn -> bool) (handler : M A) : M A :=
  fun s =>
    match body s with
    | (Raise e, s') => if caught e then handler s' else (Raise e, s')
    | r => r
    end.

Fixpoint for_each {A} (l : list A) (body : A -> M unit) : M unit :=
  match l with
  | [] => ret tt
  | x :: l' => body x ;;; for_each l' body
  end.

(** Modelled from the spec: the primary key that [schema.sql] declares on
    [events.id] and [snapshots.id] ("id is unique; re-ingesting the same id is
    a no-op"). INSERT OR IGNORE INTO events / snapshots: the row is added
    unless a row with its id, whatever value that is, is there. *)
Definition insert_or_ignore_event (r : event_row) : M unit :=
  fun s =>
    if has_event (events s) (ev_id r) then (Ok tt, s)
    else (Ok tt, mk_db (events s ++ [r]) (snapshots s) (causal_edges s)).

Definition insert_or_ignore_snapshot (r : snapshot_row) : M unit :=
  fun s =>
    if has_snapshot (snapshots s) (sn_id r) then (Ok tt, s)
    else (Ok tt, mk_db (events s) (snapshots s ++ [r]) (causal_edges s)).

(** Modelled from the spec: the primary key on [causal_edges.id] and the
    references of [cause_event_id] and [effect_event_id] to events, which
    [schema.sql] declares. INSERT INTO causal_edges: a duplicate [id] or a
    dangling reference is an [IntegrityError], and the table is left as it
    was. *)
Definition insert_edge (r : edge_row) : M unit :=
  fun s =>
    if has_edge (causal_edges s) (ce_id r) then (Raise IntegrityError, s)
    else if fk_ok (events s) (ce_cause_event_id r) && fk_ok (events s) (ce_effect_event_id r)
    then (Ok tt, mk_db (events s) (snapshots s) (causal_edges s ++ [r]))
    else (Raise IntegrityError, s).

Definition select_events {A} (q : list event_row -> A) : M A :=
  fun s => (Ok (q (events s)), s).

(* ################################################################# *)
(** * The runtime the code calls into *)

(** [json_loads] is Python's [json.loads] ([None] for a [JSONDecodeError]);
    [sql_datetime v n] is SQLite's [datetime(v, 'n seconds')]. The functions
    below are written against this interface. *)
Class Runtime : Type := {
  json_loads : string -> option json;
  sql_datetime : sqlval -> Z -> sqlval
}.

Definition loads `{Runtime} (line : string) : M json :=
  match json_loads line with
  | Some v => ret v
  | None => raise JSONDecodeError
  end.

(** [str(v)] inside an f-string. A list or a dict is given no text: the
    statement that would store it binds the same value and is refused. *)
Definition format_py (v : json) : string :=
  match v with
  | JNull => "None"
  | JBool true => "True"
  | JBool false => "False"
  | JNum n => itoa n
  | JStr s => s
  | JArr _ | JObj _ => ""
  end.

(** [t == "..."] for a decoded value [t]. *)
Definition str_eq (t : json) (s : string) : bool :=
  match t with
  | JStr s' => String.eqb s' s
  | _ => false
  end.

(* ################################################################# *)
(** * storage/ingest.py *)

(** The parameters of the INSERT of [_insert_event]: the tuple is built
    first (a missing key raises there), then [execute] binds its items. *)
Definition event_row_of (e : json) : res event_row :=
  id <~ subscript e "id" ;;
  timestamp <~ subscript e "timestamp" ;;
  event_type <~ subscript e "event_type" ;;
  pattern_id <~ get e "pattern_id" (JStr "") ;;
  pod_name <~ get e "pod_name" (JStr "") ;;
  namespace <~ get e "namespace" (JStr "") ;;
  node_name <~ get e "node_name" (JStr "") ;;
  pod_uid <~ get e "pod_uid" (JStr "") ;;
  payload <~ get e "payload" (JObj []) ;;
  v1 <~ adapt id ;;
  v2 <~ adapt timestamp ;;
  v3 <~ adapt event_type ;;
  v4 <~ adapt pattern_id ;;
  v5 <~ adapt pod_name ;;
  v6 <~ adapt namespace ;;
  v7 <~ adapt node_name ;;
  v8 <~ adapt pod_uid ;;
  Ok (mk_event v1 v2 v3 v4 v5 v6 v7 v8 payload).

Definition _insert_event (e : json) : M unit :=
  row <- lift (event_row_of e) ;;
  insert_or_ignore_event row.

Definition snapshot_row_of (s : json) : res snapshot_row :=
  id <~ subscript s "id" ;;
  timestamp <~ subscript s "timestamp" ;;
  object_kind <~ subscript s "object_kind" ;;
  object_name <~ subscript s "object_name" ;;
  namespace <~ get s "namespace" (JStr "") ;;
  trigger_event <~ get s "trigger_event" (JStr "") ;;
  state <~ get s "state" (JObj []) ;;
  v1 <~ adapt id ;;
  v2 <~ adapt timestamp ;;
  v3 <~ adapt object_kind ;;
  v4 <~ adapt object_name ;;
  v5 <~ adapt namespace ;;
  v6 <~ adapt trigger_event ;;
  Ok (mk_snapshot v1 v2 v3 v4 v5 v6 state).

Definition _insert_snapshot (s : json) : M unit :=
  row <- lift (snapshot_row_of s) ;;
  insert_or_ignore_snapshot row.

Definition is_integrity_error (e : exn) : bool := exn_eqb e IntegrityError.

Definition decode_or_integrity_error (e : exn) : bool :=
  exn_eqb e JSONDecodeError || exn_eqb e IntegrityError.

(** The body of both linking loops: the edge [r -> event] with pattern P001,
    [eid] first, then the INSERT under its own [try]. *)
Definition link (event : json) (confidence : Q) (r : sqlval) : M unit :=
  id <- lift (subscript event "id") ;;
  let eid := (format_sql r ++ "->" ++ format_py id)%string in
  try_except
    (effect <- lift (id' <~ subscript event "id" ;; adapt id') ;;
     insert_edge (mk_edge (VText eid) r effect "P001" confidence "direct"))
    is_integrity_error
    (ret tt).

(** The parameters of the two SELECTs of [_build_edges]. *)
Definition pressure_params (event : json) : res (sqlval * sqlval) :=
  node_name <~ get event "node_name" (JStr "") ;;
  timestamp <~ subscript event "timestamp" ;;
  p1 <~ adapt node_name ;;
  p2 <~ adapt timestamp ;;
  Ok (p1, p2).

Definition evidence_params (event : json) : res (sqlval * sqlval * sqlval) :=
  pod_name <~ get event "pod_name" (JStr "") ;;
  namespace <~ get event "namespace" (JStr "") ;;
  timestamp <~ subscript event "timestamp" ;;
  p1 <~ adapt pod_name ;;
  p2 <~ adapt namespace ;;
  p3 <~ adapt timestamp ;;
  Ok (p1, p2, p3).

Section Ingest.
Context `{Runtime}.

(** The SELECT of the memory-pressure rule. *)
Definition pressure_causes (node_name timestamp : sqlval) (evs : list event_row)
  : list event_row :=
  firstn 3
    (order_by_desc ev_timestamp
       (filter (fun r =>
                  sql_eq (ev_event_type r) (VText "NodeMemoryPressure")
                  && sql_eq (ev_node_name r) node_name
                  && sql_le (ev_timestamp r) timestamp
                  && sql_ge (ev_timestamp r) (sql_datetime timestamp (-300)))
          evs)).

(** The SELECT of the OOM-evidence rule. *)
Definition evidence_cause (pod_name namespace timestamp : sqlval) (evs : list event_row)
  : list event_row :=
  firstn 1
    (order_by_desc ev_timestamp
       (filter (fun r =>
                  sql_eq (ev_event_type r) (VText "OOMKill")
                  && sql_eq (ev_pod_name r) pod_name
                  && sql_eq (ev_namespace r) namespace
                  && sql_le (ev_timestamp r) timestamp
                  && sql_ge (ev_timestamp r) (sql_datetime timestamp (-90)))
          evs)).

(** The first [if] of [_build_edges], on the event type [t]: the
    memory-pressure rule. *)
Definition pressure_rule (event t : json) : M unit :=
  if str_eq t "OOMKill" then
    p <- lift (pressure_params event) ;;
    rows <- select_events (pressure_causes (fst p) (snd p)) ;;
    for_each rows (fun r => link event (9 # 10) (ev_id r))
  else ret tt.

(** The second [if]: the OOM-evidence rule. *)
Definition evidence_rule (event t : json) : M unit :=
  if str_eq t "OOMKillEvidence" then
    p <- lift (evidence_params event) ;;
    rows <- select_events (evidence_cause (fst (fst p)) (snd (fst p)) (snd p)) ;;
    for_each rows (fun r => link event 1 (ev_id r))
  else ret tt.

Definition _build_edges (event : json) : M unit :=
  t <- lift (get event "event_type" (JStr "")) ;;
  pressure_rule event t ;;;
  evidence_rule event t.

(** One turn of the loop of [ingest_events]; [n] counts the records that
    went through. *)
Definition ingest_event_line (line : string) (n : nat) : M nat :=
  let line := strip line in
  if String.eqb line "" then ret n
  else try_except
         (event <- loads line ;;
          _insert_event event ;;;
          _build_edges event ;;;
          ret (S n))
         decode_or_integrity_error
         (ret n).

Definition ingest_snapshot_line (line : string) (n : nat) : M nat :=
  let line := strip line in
  if String.eqb line "" then ret n
  else try_except
         (snap <- loads line ;;
          _insert_snapshot snap ;;;
          ret (S n))
         decode_or_integrity_error
         (ret n).

Fixpoint ingest_lines (step : string -> nat -> M nat) (lines : list string) (n : nat)
  : M nat :=
  match lines with
  | [] => ret n
  | line :: rest => n' <- step line n ;; ingest_lines step rest n'
  end.

(** [ingest_events(conn, path)] on the text of the file at [path], [None]
    when there is no such file. *)
Definition ingest_events (file : option string) : M nat :=
  match file with
  | None => ret O
  | Some text => ingest_lines ingest_event_line (readlines text) O
  end.

Definition ingest_snapshots (file : option string) : M nat :=
  match file with
  | None => ret O
  | Some text => ingest_lines ingest_snapshot_line (readlines text) O
  end.

(** The offsets [epos] and [spos] of [watch_and_ingest]. *)
Record offsets : Type := mk_offsets { epos : nat; spos : nat }.

(** [f.seek(pos); lines = f.readlines(); pos = f.tell()]. *)
Definition read_from (pos : nat) (text : string) : list string * nat :=
  (readlines (drop pos text), Nat.max pos (String.length text)).

Definition watch_event_line (line : string) : M unit :=
  let line := strip line in
  if String.eqb line "" then ret tt
  else try_except
         (ev <- loads line ;;
          _insert_event ev ;;;
          _build_edges ev)
         decode_or_integrity_error
         (ret tt).

Definition watch_snapshot_line (line : string) : M unit :=
  let line := strip line in
  if String.eqb line "" then ret tt
  else try_except
         (snap <- loads line ;; _insert_snapshot snap)
         decode_or_integrity_error
         (ret tt).

(** One turn of [while True], with the text of [events.jsonl] and of
    [snapshots.jsonl] as they are at that moment. *)
Definition watch_cycle (ep sp : option string) (o : offsets) : M offsets :=
  epos' <- match ep with
           | Some text =>
               let (lines, pos) := read_from (epos o) text in
               for_each lines watch_event_line ;;; ret pos
           | None => ret (epos o)
           end ;;
  spos' <- match sp with
           | Some text =>
               let (lines, pos) := read_from (spos o) text in
               for_each lines watch_snapshot_line ;;; ret pos
           | None => ret (spos o)
           end ;;
  ret (mk_offsets epos' spos').

(** [watch_and_ingest] through the turns for which the files are given. *)
Fixpoint watch_and_ingest_from (o : offsets) (turns : list (option string * option string))
  : M offsets :=
  match turns with
  | [] => ret o
  | (ep, sp) :: rest => o' <- watch_cycle ep sp o ;; watch_and_ingest_from o' rest
  end.

Definition watch_and_ingest (turns : list (option string * option string)) : M offsets :=
  watch_and_ingest_from (mk_offsets O O) turns.
End Ingest.

(* ################################################################# *)
(** * storage/query.py *)

(** A cause in the tree [_walk_chain] returns: the row of the event, the
    [confidence] and [edge_type] of its edge, and its own causes under
    ["children"]. *)
#[warnings="-register-all"]
Inductive chain_node : Type :=
| Cause (row : event_row) (confidence : Q) (edge_type : string)
        (children : list chain_node).

(** [events e JOIN causal_edges ce ON e.id = ce.cause_event_id
     WHERE ce.effect_event_id = ? ORDER BY e.timestamp ASC]. *)
Definition causes_of (s : db) (id : sqlval) : list (event_row * edge_row) :=
  order_by_asc (fun c => ev_timestamp (fst c))
    (flat_map (fun e =>
                 map (fun ce => (e, ce))
                   (filter (fun ce =>
                              sql_eq (ev_id e) (ce_cause_event_id ce)
                              && sql_eq (ce_effect_event_id ce) id)
                      (causal_edges s)))
       (events s)).

Equations _walk_chain (s : db) (event : event_row) (depth max_depth : nat)
  : list chain_node by wf (max_depth - depth)%nat lt :=
  _walk_chain s event depth max_depth with le_lt_dec max_depth depth := {
    | left _ => [];
    | right _ =>
        map (fun c => Cause (fst c) (ce_confidence (snd c)) (ce_edge_type (snd c))
                        (_walk_chain s (fst c) (S depth) max_depth))
          (causes_of s (ev_id event))
  }.
Next Obligation. lia. Qed.

(** The anchor of Q1 when no event id is given. *)
Definition significant (v : sqlval) : bool :=
  sql_eq v (VText "OOMKill") || sql_eq v (VText "CrashLoopBackOff")
  || sql_eq v (VText "ContainerTerminated").

Definition last_significant_event (s : db) (pod_name namespace : string)
  : option event_row :=
  hd_error
    (firstn 1
       (order_by_desc ev_timestamp
          (filter (fun r =>
                     sql_eq (ev_pod_name r) (VText pod_name)
                     && sql_eq (ev_namespace r) (VText namespace)
                     && significant (ev_event_type r))
             (events s)))).

Definition event_by_id (s : db) (event_id : string) : option event_row :=
  hd_error (filter (fun r => sql_eq (ev_id r) (VText event_id)) (events s)).

(** Truth value of an optional string argument. *)
Definition truthy (a : option string) : bool :=
  match a with
  | Some s => negb (String.eqb s "")
  | None => false
  end.

Definition or_empty (a : option string) : string :=
  match a with
  | Some s => s
  | None => ""
  end.

(** What [query_causal_chain] shows: the "No significant events found" line,
    or the anchor with its chain. *)
Inductive chain_report : Type :=
| NoSignificantEvents
| ChainOf (anchor : event_row) (chain : list chain_node).

Definition query_causal_chain (s : db) (pod_name namespace : string)
  (event_id : option string) : chain_report :=
  let anchor :=
    if truthy event_id then event_by_id s (or_empty event_id)
    else last_significant_event s pod_name namespace in
  match anchor with
  | None => NoSignificantEvents
  | Some a => ChainOf a (_walk_chain s a 0 5)
  end.

(** What [query_state_at] shows: the "No snapshot found" line, or the
    snapshot. *)
Inductive state_report : Type :=
| NoSnapshot
| StateOf (snap : snapshot_row).

Definition query_state_at (s : db) (object_kind object_name : string)
  (namespace : option string) (query_time : string) : state_report :=
  let snap :=
    hd_error
      (firstn 1
         (order_by_desc sn_timestamp
            (filter (fun r =>
                       sql_eq (sn_object_kind r) (VText object_kind)
                       && sql_eq (sn_object_name r) (VText object_name)
                       && (sql_eq (sn_namespace r) (VText (or_empty namespace))
                           || sql_eq (sn_namespace r) (VText "")
                           || sqlval_eqb (sn_namespace r) VNull)
                       && sql_le (sn_timestamp r) (VText query_time))
               (snapshots s)))) in
  match snap with
  | None => NoSnapshot
  | Some r => StateOf r
  end.

(* ################################################################# *)
(** * storage/api.py *)

(** The query parameters of a request, first value of each. *)
Definition param (params : list (string * string)) (k default : string) : string :=
  match find (fun kv => String.eqb (fst kv) k) params with
  | Some kv => snd kv
  | None => default
  end.

Inductive response : Type :=
| ErrorBody (code : nat) (message : string)
| ChainEmpty (pod namespace : string) (message : string)
| ChainBody (anchor : event_row) (causal_chain : list chain_node)
| StateMissing (object : string) (query_time : string)
| StateBody (snapshot : snapshot_row).

(** [GET /causal-chain]. *)
Definition get_causal_chain (s : db) (params : list (string * string)) : response :=
  let pod := param params "pod" "" in
  let ns := param params "namespace" "default" in
  if String.eqb pod "" then ErrorBody 400 "pod parameter required"
  else match last_significant_event s pod ns with
       | None => ChainEmpty pod ns "no events found"
       | Some anchor => ChainBody anchor (_walk_chain s anchor 0 5)
       end.

(** [GET /state-at]. *)
Definition get_state_at (s : db) (params : list (string * string)) : response :=
  let obj_kind := param params "object" "Pod" in
  let obj_name := param params "name" "" in
  let ns := param params "namespace" "default" in
  let ts := param params "time" "" in
  if String.eqb obj_name "" || String.eqb ts "" then
    ErrorBody 400 "name and time parameters required"
  else
    match hd_error
            (firstn 1
               (order_by_desc sn_timestamp
                  (filter (fun r =>
                             sql_eq (sn_object_kind r) (VText obj_kind)
                             && sql_eq (sn_object_name r) (VText obj_name)
                             && (sql_eq (sn_namespace r) (VText ns)
                                 || sql_eq (sn_namespace r) (VText ""))
                             && sql_le (sn_timestamp r) (VText ts))
                     (snapshots s)))) with
    | None => StateMissing (obj_kind ++ "/" ++ obj_name)%string ts
    | Some snap => StateBody snap
    end.

(* ################################################################# *)
(** * storage/query.py: the summary and the pattern history *)

(** [a != b] in a WHERE clause: NULL on either side gives NULL, which does
    not select the row. *)
Definition sql_ne (a b : sqlval) : bool :=
  match sql_compare a b with
  | Some Eq | None => false
  | Some _ => true
  end.

Section GroupBy.
Context {A K : Type}.
Variable key : A -> K.
Variable key_eqb : K -> K -> bool.

Fixpoint add_to_group (x : A) (groups : list (K * list A)) : list (K * list A) :=
  match groups with
  | [] => [(key x, [x])]
  | (k, members) :: rest =>
      if key_eqb k (key x) then (k, members ++ [x]) :: rest
      else (k, members) :: add_to_group x rest
  end.

(** GROUP BY key: every group with its rows in table order, the groups in
    the order in which their first row comes. *)
Definition group_by (l : list A) : list (K * list A) :=
  fold_left (fun groups x => add_to_group x groups) l [].
End GroupBy.

(** MAX(column) over the rows of a group: the greatest of the values that
    are not NULL in the order of ORDER BY, NULL when there is none. *)
Definition sql_max2 (a b : sqlval) : sqlval :=
  match a, b with
  | VNull, _ => b
  | _, VNull => a
  | _, _ => if sql_le a b then b else a
  end.

Definition sql_max (l : list sqlval) : sqlval := fold_left sql_max2 l VNull.

(** COUNT( * ) as the key of an ORDER BY. *)
Definition count_key (n : nat) : sqlval := VInt (Z.of_nat n).

(** A row of [patterns] and a row of [pods] in [query_summary]. *)
Record pattern_count : Type := mk_pattern_count {
  pc_pattern_id : sqlval;
  pc_cnt : nat
}.

Record pod_count : Type := mk_pod_count {
  pd_pod_name : sqlval;
  pd_namespace : sqlval;
  pd_events : nat;
  pd_last_seen : sqlval
}.

(** [SELECT pattern_id, COUNT( * ) cnt FROM events WHERE pattern_id != ''
     GROUP BY pattern_id ORDER BY cnt DESC]. *)
Definition pattern_distribution (s : db) : list pattern_count :=
  order_by_desc (fun p => count_key (pc_cnt p))
    (map (fun g => mk_pattern_count (fst g) (List.length (snd g)))
       (group_by ev_pattern_id sqlval_eqb
          (filter (fun r => sql_ne (ev_pattern_id r) (VText "")) (events s)))).

Definition same_pod (a b : sqlval * sqlval) : bool :=
  sqlval_eqb (fst a) (fst b) && sqlval_eqb (snd a) (snd b).

(** [SELECT pod_name, namespace, COUNT( * ) events, MAX(timestamp) last_seen
     FROM events WHERE pod_name != '' GROUP BY pod_name, namespace
     ORDER BY events DESC LIMIT 10]. *)
Definition top_pods (s : db) : list pod_count :=
  firstn 10
    (order_by_desc (fun p => count_key (pd_events p))
       (map (fun g => mk_pod_count (fst (fst g)) (snd (fst g)) (List.length (snd g))
                        (sql_max (map ev_timestamp (snd g))))
          (group_by (fun r => (ev_pod_name r, ev_namespace r)) same_pod
             (filter (fun r => sql_ne (ev_pod_name r) (VText "")) (events s))))).

(** What [query_summary] reads from the store before it prints: the three
    counts, the pattern distribution and the top pods. The names of the
    patterns, which the rich output looks up in the patterns table, are not
    among them. *)
Record summary : Type := mk_summary {
  ec : nat;
  cc : nat;
  sc : nat;
  patterns : list pattern_count;
  pods : list pod_count
}.

Definition query_summary (s : db) : summary :=
  mk_summary (List.length (events s)) (List.length (causal_edges s))
    (List.length (snapshots s)) (pattern_distribution s) (top_pods s).

(** The six columns the pattern history selects. *)
Record history_row : Type := mk_history {
  hr_id : sqlval;
  hr_timestamp : sqlval;
  hr_event_type : sqlval;
  hr_pod_name : sqlval;
  hr_namespace : sqlval;
  hr_node_name : sqlval
}.

Definition history_row_of (r : event_row) : history_row :=
  mk_history (ev_id r) (ev_timestamp r) (ev_event_type r) (ev_pod_name r)
    (ev_namespace r) (ev_node_name r).

Section PatternHistory.
Context `{Runtime}.

(** [datetime('now', '-N days')] when the call is made at the time [now]
    prints as: N days are 86400 N seconds, and a negative N makes the
    modifier ["--N days"], which SQLite refuses, so that the value is NULL. *)
Definition days_ago (now : sqlval) (days : Z) : sqlval :=
  if days <? 0 then VNull else sql_datetime now (- (86400 * days)).

(** The WHERE clause [query_pattern_history] builds: the pod and the
    namespace are conditions only when the argument is given and not
    empty. *)
Definition history_where (now : sqlval) (pattern_id : string)
  (pod_name namespace : option string) (days : Z) (r : event_row) : bool :=
  sql_eq (ev_pattern_id r) (VText pattern_id)
  && (if truthy pod_name then sql_eq (ev_pod_name r) (VText (or_empty pod_name)) else true)
  && (if truthy namespace then sql_eq (ev_namespace r) (VText (or_empty namespace))
      else true)
  && sql_ge (ev_timestamp r) (days_ago now days).

(** The rows [query_pattern_history] prints, called at the time [now]; the
    total it prints is their number. The title, which reads the name of the
    pattern from the patterns table, is not part of it. *)
Definition query_pattern_history (now : sqlval) (s : db) (pattern_id : string)
  (pod_name namespace : option string) (days : Z) : list history_row :=
  map history_row_of
    (order_by_desc ev_timestamp
       (filter (history_where now pattern_id pod_name namespace days) (events s))).

End PatternHistory.

(* ################################################################# *)
(** * storage/api.py: the summary and the pattern history *)

(** The body of [GET /summary]. *)
Record summary_body : Type := mk_summary_body {
  sb_events : nat;
  sb_causal_edges : nat;
  sb_snapshots : nat
}.

Definition get_summary (s : db) : summary_body :=
  mk_summary_body (List.length (events s)) (List.length (causal_edges s))
    (List.length (snapshots s)).

Inductive history_response : Type :=
| HistoryError (code : nat) (message : string)
| HistoryBody (pattern : string) (days : Z) (count : nat) (events : list history_row).

Section GetPatternHistory.
Context `{Runtime}.

(** Python's [int] on a string: the number, or the text of the
    [ValueError] it raises. *)
Variable int_of_str : string -> Z + string.

(** [GET /pattern-history], called at the time [now]; a [days] that is not
    a number is answered by the handler of [do_GET] with a 500. *)
Definition get_pattern_history (now : sqlval) (s : db) (params : list (string * string))
  : history_response :=
  let pattern := param params "pattern" "" in
  if String.eqb pattern "" then HistoryError 400 "pattern parameter required"
  else
    match
      match find (fun kv => String.eqb (fst kv) "days") params with
      | Some kv => int_of_str (snd kv)
      | None => inl 30
      end
    with
    | inr message => HistoryError 500 message
    | inl days =>
        let rows :=
          map history_row_of
            (order_by_desc ev_timestamp
               (filter (fun r =>
                          sql_eq (ev_pattern_id r) (VText pattern)
                          && sql_ge (ev_timestamp r) (days_ago now days))
                  (events s))) in
        HistoryBody pattern days (List.length rows) rows
    end.

End GetPatternHistory.

(* ################################################################# *)
(** * A concrete runtime *)

(** ** A JSON decoder

    The decoder covers the documents the collector writes: objects, arrays,
    strings with the two-character escapes, integers, [true], [false] and
    [null]. Numbers with a fraction or an exponent and [\u] escapes are
    outside it. *)
Module Decoder.

Definition quote : ascii := "034"%char.

Definition is_ws (c : ascii) : bool :=
  let n := nat_of_ascii c in
  (Nat.eqb n 32 || Nat.eqb n 9 || Nat.eqb n 10 || Nat.eqb n 13)%nat.

Fixpoint skip_ws (l : list ascii) : list ascii :=
  match l with
  | c :: l' => if is_ws c then skip_ws l' else l
  | [] => []
  end.

Definition digit (c : ascii) : option Z :=
  let n := nat_of_ascii c in
  if ((48 <=? n) && (n <=? 57))%nat then Some (Z.of_nat n - 48) else None.

Fixpoint digits (acc : Z) (l : list ascii) : Z * list ascii :=
  match l with
  | c :: l' =>
      match digit c with
      | Some d => digits (10 * acc + d) l'
      | None => (acc, l)
      end
  | [] => (acc, [])
  end.

Definition starts_fraction (l : list ascii) : bool :=
  match l with
  | c :: _ => Ascii.eqb c "." || Ascii.eqb c "e" || Ascii.eqb c "E"
  | [] => false
  end.

(** An integer literal: no leading zero before another digit. *)
Definition natural (l : list ascii) : option (Z * list ascii) :=
  match l with
  | c :: l' =>
      match digit c with
      | Some 0 =>
          match l' with
          | c' :: _ => match digit c' with
                       | Some _ => None
                       | None => if starts_fraction l' then None else Some (0, l')
                       end
          | [] => Some (0, [])
          end
      | Some d => let (n, r) := digits d l' in
                  if starts_fraction r then None else Some (n, r)
      | None => None
      end
  | [] => None
  end.

(** The character after a backslash: quote, backslash, slash, b, f, n, r, t. *)
Definition unescape (c : ascii) : option ascii :=
  let n := nat_of_ascii c in
  if Nat.eqb n 34 then Some c
  else if Nat.eqb n 92 then Some c
  else if Nat.eqb n 47 then Some c
  else if Nat.eqb n 98 then Some (ascii_of_nat 8)
  else if Nat.eqb n 102 then Some (ascii_of_nat 12)
  else if Nat.eqb n 110 then Some (ascii_of_nat 10)
  else if Nat.eqb n 114 then Some (ascii_of_nat 13)
  else if Nat.eqb n 116 then Some (ascii_of_nat 9)
  else None.

(** The characters of a string literal, after its opening quote. *)
Fixpoint chars (l : list ascii) : option (string * list ascii) :=
  match l with
  | [] => None
  | c :: l' =>
      let n := nat_of_ascii c in
      if Nat.eqb n 34 then Some (EmptyString, l')
      else if Nat.eqb n 92 then
        match l' with
        | e :: l'' =>
            match unescape e, chars l'' with
            | Some c', Some (s, r) => Some (String c' s, r)
            | _, _ => None
            end
        | [] => None
        end
      else if (n <? 32)%nat then None
      else match chars l' with
           | Some (s, r) => Some (String c s, r)
           | None => None
           end
  end.

Section Value.
Variable value : list ascii -> option (json * list ascii).

(** [value (, value)* ]], after the opening bracket and a first check
    for the empty array. *)
Fixpoint elements (n : nat) (l : list ascii) : option (list json * list ascii) :=
  match n with
  | O => None
  | S n' =>
      match value l with
      | Some (v, r) =>
          match skip_ws r with
          | c :: r' =>
              if Ascii.eqb c "," then
                match elements n' r' with
                | Some (vs, r'') => Some (v :: vs, r'')
                | None => None
                end
              else if Ascii.eqb c "]" then Some ([v], r')
              else None
          | [] => None
          end
      | None => None
      end
  end.

Definition member (l : list ascii) : option (string * json * list ascii) :=
  match skip_ws l with
  | q :: r =>
      if Ascii.eqb q quote then
        match chars r with
        | Some (k, r1) =>
            match skip_ws r1 with
            | c :: r2 =>
                if Ascii.eqb c ":" then
                  match value r2 with
                  | Some (v, r3) => Some (k, v, r3)
                  | None => None
                  end
                else None
            | [] => None
            end
        | None => None
        end
      else None
  | [] => None
  end.

Fixpoint members (n : nat) (l : list ascii)
  : option (list (string * json) * list ascii) :=
  match n with
  | O => None
  | S n' =>
      match member l with
      | Some (k, v, r) =>
          match skip_ws r with
          | c :: r' =>
              if Ascii.eqb c "," then
                match members n' r' with
                | Some (kvs, r'') => Some ((k, v) :: kvs, r'')
                | None => None
                end
              else if Ascii.eqb c "}" then Some ([(k, v)], r')
              else None
          | [] => None
          end
      | None => None
      end
  end.
End Value.

Definition keyword (w : string) (l : list ascii) : option (list ascii) :=
  let k := list_ascii_of_string w in
  if list_eq_dec ascii_dec (firstn (List.length k) l) k
  then Some (skipn (List.length k) l) else None.

Fixpoint value (fuel : nat) (l : list ascii) : option (json * list ascii) :=
  match fuel with
  | O => None
  | S fuel' =>
      match skip_ws l with
      | [] => None
      | c :: r =>
          if Ascii.eqb c "{" then
            match skip_ws r with
            | c' :: r' =>
                if Ascii.eqb c' "}" then Some (JObj [], r')
                else match members (value fuel') fuel' r with
                     | Some (kvs, r'') => Some (JObj kvs, r'')
                     | None => None
                     end
            | [] => None
            end
          else if Ascii.eqb c "[" then
            match skip_ws r with
            | c' :: r' =>
                if Ascii.eqb c' "]" then Some (JArr [], r')
                else match elements (value fuel') fuel' r with
                     | Some (vs, r'') => Some (JArr vs, r'')
                     | None => None
                     end
            | [] => None
            end
          else if Ascii.eqb c quote then
            match chars r with
            | Some (s, r') => Some (JStr s, r')
            | None => None
            end
          else if Ascii.eqb c "-" then
            match natural r with
            | Some (n, r') => Some (JNum (- n), r')
            | None => None
            end
          else if Ascii.eqb c "n" then
            match keyword "null" (c :: r) with
            | Some r' => Some (JNull, r')
            | None => None
            end
          else if Ascii.eqb c "t" then
            match keyword "true" (c :: r) with
            | Some r' => Some (JBool true, r')
            | None => None
            end
          else if Ascii.eqb c "f" then
            match keyword "false" (c :: r) with
            | Some r' => Some (JBool false, r')
            | None => None
            end
          else match natural (c :: r) with
               | Some (n, r') => Some (JNum n, r')
               | None => None
               end
      end
  end.

(** A whole document: one value and nothing after it but white space. *)
Definition decode (s : string) : option json :=
  let l := list_ascii_of_string s in
  match value (S (List.length l)) l with
  | Some (v, r) => match skip_ws r with
                   | [] => Some v
                   | _ :: _ => None
                   end
  | None => None
  end.

End Decoder.

(** ** SQLite's [datetime(v, 'n seconds')]

    After [date.c]: a time value [YYYY-MM-DD], then any run of white space
    and [T], then [HH:MM], [HH:MM:SS] or [HH:MM:SS.SSS], then an optional
    [Z] or [+HH:MM] / [-HH:MM]; the moment as milliseconds of the Julian day
    count; the shift; and the text [YYYY-MM-DD HH:MM:SS] of the result. Time
    values of other shapes (a bare time, [now], a Julian day number, a year
    before 0000) are outside it and give NULL here. *)
Module Datetime.

Definition digit (c : ascii) : option Z := Decoder.digit c.

Definition two_digits (lo hi : Z) (l : list ascii) : option (Z * list ascii) :=
  match l with
  | a :: b :: r =>
      match digit a, digit b with
      | Some x, Some y =>
          let v := 10 * x + y in
          if (lo <=? v) && (v <=? hi) then Some (v, r) else None
      | _, _ => None
      end
  | _ => None
  end.

Definition four_digits (l : list ascii) : option (Z * list ascii) :=
  match l with
  | a :: b :: c :: d :: r =>
      match digit a, digit b, digit c, digit d with
      | Some x, Some y, Some z, Some w => Some (1000 * x + 100 * y + 10 * z + w, r)
      | _, _, _, _ => None
      end
  | _ => None
  end.

Definition expect (c : ascii) (l : list ascii) : option (list ascii) :=
  match l with
  | c' :: r => if Ascii.eqb c c' then Some r else None
  | [] => None
  end.

(** [sqlite3Isspace]. *)
Definition isspace (c : ascii) : bool :=
  let n := nat_of_ascii c in
  ((9 <=? n) && (n <=? 13) || Nat.eqb n 32)%nat.

Fixpoint skip_spaces (l : list ascii) : list ascii :=
  match l with
  | c :: l' => if isspace c then skip_spaces l' else l
  | [] => []
  end.

Fixpoint skip_spaces_and_T (l : list ascii) : list ascii :=
  match l with
  | c :: l' => if isspace c || Ascii.eqb c "T" then skip_spaces_and_T l' else l
  | [] => []
  end.

Fixpoint skip_digits (l : list ascii) : list ascii :=
  match l with
  | c :: l' => match digit c with Some _ => skip_digits l' | None => l end
  | [] => []
  end.

(** [parseTimezone]: the offset in minutes. *)
Definition parse_timezone (l : list ascii) : option Z :=
  match skip_spaces l with
  | [] => Some 0
  | c :: r =>
      if Ascii.eqb c "Z" || Ascii.eqb c "z" then
        match skip_spaces r with [] => Some 0 | _ :: _ => None end
      else if Ascii.eqb c "-" || Ascii.eqb c "+" then
        match two_digits 0 14 r with
        | Some (hr, r1) =>
            match expect ":" r1 with
            | Some r2 =>
                match two_digits 0 59 r2 with
                | Some (mn, r3) =>
                    match skip_spaces r3 with
                    | [] => Some ((if Ascii.eqb c "-" then -1 else 1) * (mn + hr * 60))
                    | _ :: _ => None
                    end
                | None => None
                end
            | None => None
            end
        | None => None
        end
      else None
  end.

(** [parseHhMmSs]: hour, minute, second and the offset in minutes. The
    fraction of a second stays below a second and never reaches the text
    [datetime] prints; its digits are read and dropped. *)
Definition parse_hhmmss (l : list ascii) : option (Z * Z * Z * Z) :=
  match two_digits 0 24 l with
  | Some (h, r1) =>
      match expect ":" r1 with
      | Some r2 =>
          match two_digits 0 59 r2 with
          | Some (m, r3) =>
              match r3 with
              | c :: r4 =>
                  if Ascii.eqb c ":" then
                    match two_digits 0 59 r4 with
                    | Some (s, r5) =>
                        let r6 :=
                          match r5 with
                          | p :: d :: r' =>
                              if Ascii.eqb p "." then
                                match digit d with
                                | Some _ => skip_digits r'
                                | None => r5
                                end
                              else r5
                          | _ => r5
                          end in
                        match parse_timezone r6 with
                        | Some tz => Some (h, m, s, tz)
                        | None => None
                        end
                    | None => None
                    end
                  else match parse_timezone r3 with
                       | Some tz => Some (h, m, 0, tz)
                       | None => None
                       end
              | [] => Some (h, m, 0, 0)
              end
          | None => None
          end
      | None => None
      end
  | None => None
  end.

(** [computeJD]: milliseconds since noon of the first Julian day, in C's
    integer arithmetic. *)
Definition julian_ms (Y M D h m s tz : Z) : Z :=
  let Y' := if M <=? 2 then Y - 1 else Y in
  let M' := if M <=? 2 then M + 12 else M in
  let A := Z.quot Y' 100 in
  let B := 2 - A + Z.quot A 4 in
  let X1 := Z.quot (36525 * (Y' + 4716)) 100 in
  let X2 := Z.quot (306001 * (M' + 1)) 10000 in
  (X1 + X2 + D + B) * 86400000 - 131716800000
  + h * 3600000 + m * 60000 + s * 1000 - tz * 60000.

(** [parseYyyyMmDd]. *)
Definition parse (s : string) : option Z :=
  match four_digits (list_ascii_of_string s) with
  | Some (Y, r1) =>
      match expect "-" r1 with
      | Some r2 =>
          match two_digits 1 12 r2 with
          | Some (M, r3) =>
              match expect "-" r3 with
              | Some r4 =>
                  match two_digits 1 31 r4 with
                  | Some (D, r5) =>
                      let r6 := skip_spaces_and_T r5 in
                      match parse_hhmmss r6 with
                      | Some (h, m, sec, tz) => Some (julian_ms Y M D h m sec tz)
                      | None =>
                          match r6 with
                          | [] => Some (julian_ms Y M D 0 0 0 0)
                          | _ :: _ => None
                          end
                      end
                  | None => None
                  end
              | None => None
              end
          | None => None
          end
      | None => None
      end
  | None => None
  end.

Definition valid_julian_ms (jd : Z) : bool :=
  (0 <=? jd) && (jd <=? 464269060799999).

Definition pad2 (n : Z) : string :=
  if n <? 10 then ("0" ++ itoa n)%string else itoa n.

Definition pad4 (n : Z) : string :=
  if n <? 0 then
    (if -10 <? n then ("-00" ++ itoa (- n))%string
     else if -100 <? n then ("-0" ++ itoa (- n))%string
     else ("-" ++ itoa (- n))%string)
  else if n <? 10 then ("000" ++ itoa n)%string
  else if n <? 100 then ("00" ++ itoa n)%string
  else if n <? 1000 then ("0" ++ itoa n)%string
  else itoa n.

(** [computeYMD] and [computeHMS], then ["%04d-%02d-%02d %02d:%02d:%02d"]. *)
Definition print (jd : Z) : string :=
  let Zd := Z.quot (jd + 43200000) 86400000 in
  let A0 := Z.quot (4 * Zd - 7468865) 146097 in
  let A := Zd + 1 + A0 - Z.quot A0 4 in
  let B := A + 1524 in
  let C := Z.quot (100 * B - 12210) 36525 in
  let D0 := Z.quot (36525 * C) 100 in
  let E := Z.quot ((B - D0) * 10000) 306001 in
  let X1 := Z.quot (306001 * E) 10000 in
  let D := B - D0 - X1 in
  let M := if E <? 14 then E - 1 else E - 13 in
  let Y := if 2 <? M then C - 4716 else C - 4715 in
  let day_ms := Z.rem (jd + 43200000) 86400000 in
  let sec := Z.quot (Z.rem day_ms 60000) 1000 in
  let day_min := Z.quot day_ms 60000 in
  (pad4 Y ++ "-" ++ pad2 M ++ "-" ++ pad2 D ++ " "
   ++ pad2 (Z.quot day_min 60) ++ ":" ++ pad2 (Z.rem day_min 60) ++ ":" ++ pad2 sec)%string.

Definition datetime (v : sqlval) (seconds : Z) : sqlval :=
  match v with
  | VText s =>
      match parse s with
      | Some jd =>
          let jd' := jd + seconds * 1000 in
          if valid_julian_ms jd' then VText (print jd') else VNull
      | None => VNull
      end
  | _ => VNull
  end.

End Datetime.

(** The runtime of the examples. *)
#[export] Instance python_sqlite : Runtime := {
  json_loads := Decoder.decode;
  sql_datetime := Datetime.datetime
}.

(* ################################################################# *)
(** * Records and stores of the examples *)

(** The lines of the examples are written with an apostrophe where the file
    has a double quote. *)
Fixpoint jsonl (s : string) : string :=
  match s with
  | EmptyString => EmptyString
  | String c s' => String (if Ascii.eqb c "'" then Decoder.quote else c) (jsonl s')
  end.

Definition pressure_morning : string :=
  jsonl "{'id': 'e1', 'timestamp': '2026-01-10T10:00:00Z', 'event_type': 'NodeMemoryPressure', 'node_name': 'n1'}".

Definition pressure_late : string :=
  jsonl "{'id': 'e0', 'timestamp': '2026-01-10T23:18:00Z', 'event_type': 'NodeMemoryPressure', 'node_name': 'n1'}".

Definition oomkill_morning : string :=
  jsonl "{'id': 'k1', 'timestamp': '2026-01-10T10:00:00Z', 'event_type': 'OOMKill', 'pod_name': 'web-0', 'namespace': 'default', 'node_name': 'n1'}".

Definition oomkill_night : string :=
  jsonl "{'id': 'e2', 'timestamp': '2026-01-10T23:19:42Z', 'event_type': 'OOMKill', 'pod_name': 'web-0', 'namespace': 'default', 'node_name': 'n1'}".

Definition evidence_night : string :=
  jsonl "{'id': 'e3', 'timestamp': '2026-01-10T23:19:42Z', 'event_type': 'OOMKillEvidence', 'pod_name': 'web-0', 'namespace': 'default'}".

Definition snapshot_line : string :=
  jsonl "{'id': 's1', 'timestamp': '2026-01-10T10:00:00Z', 'object_kind': 'Pod', 'object_name': 'web-0', 'namespace': 'default', 'state': {'phase': 'Running'}}".

Definition nl : string := String newline EmptyString.

(** A decoded record, for the examples that start after [json.loads]. *)
Definition record_of (line : string) : json :=
  match Decoder.decode line with
  | Some v => v
  | None => JNull
  end.

(* ################################################################# *)
(** * The vocabulary of the properties *)

Section Rows.
Context {A : Type}.
Variable key : A -> sqlval.

(** [x] comes before [y] in a descending result. *)
Definition before_desc (x y : A) : Prop := key_le (key y) (key x) = true.

(** [WHERE p ORDER BY key DESC LIMIT k]. *)
Definition top (k : nat) (p : A -> bool) (l : list A) : list A :=
  firstn k (order_by_desc key (filter p l)).

End Rows.

(** How many levels of causes a chain nests. *)
Fixpoint levels (n : chain_node) : nat :=
  match n with
  | Cause _ _ _ children => S (fold_right Nat.max O (map levels children))
  end.

Definition chain_levels (chain : list chain_node) : nat :=
  fold_right Nat.max O (map levels chain).

(** A snapshot that answers a state-at query on the command line. *)
Definition answers_state_at (object_kind object_name : string) (namespace : option string)
  (query_time : string) (r : snapshot_row) : Prop :=
  sn_object_kind r = VText object_kind
  /\ sn_object_name r = VText object_name
  /\ (sn_namespace r = VText (or_empty namespace)
      \/ sn_namespace r = VText "" \/ sn_namespace r = VNull)
  /\ sql_le (sn_timestamp r) (VText query_time) = true.

(** A snapshot that answers [GET /state-at]. *)
Definition answers_get_state_at (params : list (string * string)) (r : snapshot_row) : Prop :=
  sn_object_kind r = VText (param params "object" "Pod")
  /\ sn_object_name r = VText (param params "name" "")
  /\ (sn_namespace r = VText (param params "namespace" "default")
      \/ sn_namespace r = VText "")
  /\ sql_le (sn_timestamp r) (VText (param params "time" "")) = true.

(** An event a causal-chain query may start from. *)
Definition significant_for (pod_name namespace : string) (r : event_row) : Prop :=
  ev_pod_name r = VText pod_name
  /\ ev_namespace r = VText namespace
  /\ (ev_event_type r = VText "OOMKill"
      \/ ev_event_type r = VText "CrashLoopBackOff"
      \/ ev_event_type r = VText "ContainerTerminated").

(** A store whose only edge makes event [x] its own cause. *)
Definition looping_store : db :=
  let x := mk_event (VText "x") (VText "2026-01-10T10:00:00Z") (VText "OOMKill")
             (VText "") (VText "web-0") (VText "default") (VText "n1") (VText "")
             (JObj []) in
  mk_db [x] [] [mk_edge (VText "x->x") (VText "x") (VText "x") "P001" 1 "direct"].

(** The edge a linking rule writes for cause [r] and the decoded record
    [event]. *)
Definition edge_for (event : json) (confidence : Q) (r : sqlval) (ed : edge_row) : Prop :=
  exists id effect,
    subscript event "id" = Ok id /\ adapt id = Ok effect
    /\ ed = mk_edge (VText (format_sql r ++ "->" ++ format_py id)) r effect
              "P001" confidence "direct".

(** Every edge id of [s] is an edge id of [s']. *)
Definition edge_ids_within (s s' : db) : Prop :=
  forall id, has_edge (causal_edges s) id = true -> has_edge (causal_edges s') id = true.

(** What a run of the linker does to a store: the events and snapshots stay,
    the edges in [new] are appended. *)
Definition appends (s s' : db) (new : list edge_row) : Prop :=
  events s' = events s /\ snapshots s' = snapshots s
  /\ causal_edges s' = causal_edges s ++ new.

(** A text that stops on a line boundary: empty, or ended by a newline. *)
Definition on_line_boundary (a : string) : Prop :=
  a = EmptyString \/ exists a', a = (a' ++ nl)%string.

(** Records that carry the same id carry the same timestamp: what the
    uniqueness of an event's id asks of the input. *)
Definition ids_fix_timestamps (records : list json) : Prop :=
  forall e1 e2 r1 r2,
    In e1 records -> In e2 records ->
    event_row_of e1 = Ok r1 -> event_row_of e2 = Ok r2 ->
    ev_id r1 = ev_id r2 -> ev_timestamp r1 = ev_timestamp r2.

(** The direction of an edge when it is written: its cause is a stored
    event, its effect is the id of an ingested record, and the timestamp of
    the cause is not after the timestamp of that record. *)
Definition cause_not_after_trigger (records : list json) (s : db) (ed : edge_row) : Prop :=
  exists c e row,
    In c (events s) /\ In e records /\ event_row_of e = Ok row
    /\ ev_id c = ce_cause_event_id ed /\ ev_id row = ce_effect_event_id ed
    /\ sql_le (ev_timestamp c) (ev_timestamp row) = true.

(** The direction of an edge in a store: cause and effect are stored events,
    and the timestamp of the cause is not after the timestamp of the
    effect. *)
Definition cause_not_after_effect (s : db) (ed : edge_row) : Prop :=
  exists c e,
    In c (events s) /\ In e (events s)
    /\ ev_id c = ce_cause_event_id ed /\ ev_id e = ce_effect_event_id ed
    /\ sql_le (ev_timestamp c) (ev_timestamp e) = true.

(** What holds of every reached store. *)
Definition store_invariant (records : list json) (s : db) : Prop :=
  (forall row, In row (events s) ->
               exists e, In e records /\ event_row_of e = Ok row)
  /\ (forall e row0, In e records -> event_row_of e = Ok row0 ->
                     exists row, In row (events s) /\ ev_id row = ev_id row0)
  /\ (forall ed, In ed (causal_edges s) -> cause_not_after_trigger records s ed).

Section Vocabulary.
Context `{Runtime}.

(** What the SELECT of the memory-pressure rule asks of a row. *)
Definition pressure_candidate (node_name timestamp : sqlval) (r : event_row) : Prop :=
  ev_event_type r = VText "NodeMemoryPressure"
  /\ sql_eq (ev_node_name r) node_name = true
  /\ sql_le (ev_timestamp r) timestamp = true
  /\ sql_ge (ev_timestamp r) (sql_datetime timestamp (-300)) = true.

(** What the SELECT of the OOM-evidence rule asks of a row. *)
Definition evidence_candidate (pod_name namespace timestamp : sqlval) (r : event_row)
  : Prop :=
  ev_event_type r = VText "OOMKill"
  /\ sql_eq (ev_pod_name r) pod_name = true
  /\ sql_eq (ev_namespace r) namespace = true
  /\ sql_le (ev_timestamp r) timestamp = true
  /\ sql_ge (ev_timestamp r) (sql_datetime timestamp (-90)) = true.

(** An edge of the memory-pressure rule for the decoded record [event] over
    the events [evs]. *)
Definition pressure_edge (event : json) (evs : list event_row) (ed : edge_row) : Prop :=
  exists t p r,
    get event "event_type" (JStr "") = Ok t /\ str_eq t "OOMKill" = true
    /\ pressure_params event = Ok p
    /\ In r (pressure_causes (fst p) (snd p) evs)
    /\ edge_for event (9 # 10) (ev_id r) ed.

(** An edge of the OOM-evidence rule. *)
Definition evidence_edge (event : json) (evs : list event_row) (ed : edge_row) : Prop :=
  exists t p r,
    get event "event_type" (JStr "") = Ok t /\ str_eq t "OOMKillEvidence" = true
    /\ evidence_params event = Ok p
    /\ In r (evidence_cause (fst (fst p)) (snd (fst p)) (snd p) evs)
    /\ edge_for event 1 (ev_id r) ed.

Definition linked (event : json) (evs : list event_row) (ed : edge_row) : Prop :=
  pressure_edge event evs ed \/ evidence_edge event evs ed.

(** The stores the pipeline reaches from the empty one, with the decoded
    event records that were inserted on the way: an event is inserted, the
    linker runs on an inserted event, a snapshot is inserted. Batch and tail
    mode both go through these steps and no other. *)
Inductive reached : list json -> db -> Prop :=
| reached_empty : reached [] empty_db
| reached_insert_event (records : list json) (s s' : db) (e : json) :
    reached records s ->
    _insert_event e s = (Ok tt, s') ->
    reached (e :: records) s'
| reached_build_edges (records : list json) (s s' : db) (e : json) (out : res unit) :
    reached records s ->
    In e records ->
    _build_edges e s = (out, s') ->
    reached records s'
| reached_insert_snapshot (records : list json) (s s' : db) (r : json) :
    reached records s ->
    _insert_snapshot r s = (Ok tt, s') ->
    reached records s'.

(** The records behind a reached store after some lines were read: those
    before, and records decoded from the lines. *)
Definition decoded_from (lines : list string) (before after : list json) : Prop :=
  forall e, In e after ->
            In e before \/ exists line, In line lines /\ json_loads (strip line) = Some e.

(** A line the batch can take: blank, not decodable, or decoding to a
    record whose fields the INSERT can bind. *)
Definition acceptable (line : string) : Prop :=
  match json_loads (strip line) with
  | Some e => exists row, event_row_of e = Ok row
  | None => True
  end.

End Vocabulary.

(** The same two events with the timestamps written the way SQLite writes
    them. *)
Definition pressure_morning_sqlite : string :=
  jsonl "{'id': 'e1', 'timestamp': '2026-01-10 10:00:00', 'event_type': 'NodeMemoryPressure', 'node_name': 'n1'}".

Definition pressure_late_sqlite : string :=
  jsonl "{'id': 'e0', 'timestamp': '2026-01-10 23:18:00', 'event_type': 'NodeMemoryPressure', 'node_name': 'n1'}".

Definition oomkill_night_sqlite : string :=
  jsonl "{'id': 'e2', 'timestamp': '2026-01-10 23:19:42', 'event_type': 'OOMKill', 'pod_name': 'web-0', 'namespace': 'default', 'node_name': 'n1'}".

(** The stores of the examples. *)
Definition store_same_day : db :=
  Eval vm_compute in
    snd (ingest_events (Some (pressure_morning ++ nl ++ oomkill_night ++ nl)%string) empty_db).

Definition store_evidence : db :=
  Eval vm_compute in
    snd (ingest_events (Some (oomkill_morning ++ nl ++ evidence_night ++ nl)%string) empty_db).

Definition store_out_of_order : db :=
  Eval vm_compute in
    snd (ingest_events (Some (oomkill_night ++ nl ++ pressure_late ++ nl)%string) empty_db).

Definition store_with_pressure : db :=
  Eval vm_compute in snd (ingest_events (Some (pressure_late ++ nl)%string) empty_db).

Definition store_in_order : db :=
  Eval vm_compute in
    snd (ingest_events (Some (pressure_late ++ nl ++ oomkill_night ++ nl)%string) empty_db).

Definition store_before_linking : db :=
  Eval vm_compute in snd (_insert_event (record_of oomkill_night) store_with_pressure).

Definition store_with_snapshot : db :=
  Eval vm_compute in snd (ingest_snapshots (Some (snapshot_line ++ nl)%string) empty_db).

Definition edge_late : edge_row :=
  mk_edge (VText "e0->e2") (VText "e0") (VText "e2") "P001" (9 # 10) "direct".

(** The first 40 characters of a record: what a reader sees while the
    collector is still writing the line. *)
Definition partial_line : string := substring 0 40 oomkill_night.

(** What the collector writes after it. *)
Definition rest_of_line : string := substring 40 98 oomkill_night.

Definition oomkill_early : string :=
  jsonl "{'id': 'e2', 'timestamp': '2026-01-10T09:00:00Z', 'event_type': 'OOMKill', 'node_name': 'n1'}".

Definition oomkill_same_id : string :=
  jsonl "{'id': 'e2', 'timestamp': '2026-01-10T10:00:30Z', 'event_type': 'OOMKill', 'node_name': 'n1'}".

Definition store_shared_id : db :=
  Eval vm_compute in
    snd (ingest_events (Some (oomkill_early ++ nl ++ pressure_morning ++ nl
                              ++ oomkill_same_id ++ nl)%string) empty_db).

(** A text with no newline in it. *)
Definition unterminated (text : string) : Prop :=
  existsb (Ascii.eqb newline) (list_ascii_of_string text) = false.

(** Tail mode as section 4.1 of the specification words it: a turn that
    finds an unfinished record at the end of the source leaves it unread, the
    offset staying at the last line boundary, and the record goes through on
    a later turn, once the rest of its line has arrived, as a batch over the
    finished source would take it. *)
Definition partial_record_left_for_later : Prop :=
  forall (complete partial rest : string) (o1 o2 : offsets) (s s1 s2 : db),
    on_line_boundary complete ->
    unterminated partial ->
    unterminated rest ->
    watch_cycle (Some (complete ++ partial)%string) None (mk_offsets 0 0) s = (Ok o1, s1) ->
    watch_cycle (Some (complete ++ partial ++ rest ++ nl)%string) None o1 s1 = (Ok o2, s2) ->
    epos o1 = String.length complete
    /\ s2 = snd (ingest_events (Some (complete ++ partial ++ rest ++ nl)%string) s).

(** The store after the first, and after the first two, of the three lines
    of [store_shared_id]. *)
Definition store_early : db :=
  Eval vm_compute in snd (ingest_events (Some (oomkill_early ++ nl)%string) empty_db).

Definition store_early_and_pressure : db :=
  Eval vm_compute in
    snd (ingest_events (Some (oomkill_early ++ nl ++ pressure_morning ++ nl)%string)
           empty_db).

(** The edge direction invariant as section 3 of the specification words
    it: in every store the pipeline reaches, whatever records it was given,
    the cause and the effect of every edge are stored events and the
    timestamp of the cause is not after the timestamp of the effect. *)
Definition direction_in_every_reached_store : Prop :=
  forall (records : list json) (s : db) (ed : edge_row),
    reached records s -> In ed (causal_edges s) -> cause_not_after_effect s ed.

(* ################################################################# *)
(** * The vocabulary of the further properties *)

(** What the pipeline may do to a store: rows are added at the end of a
    table, no row is removed or rewritten. *)
Definition grows (s s' : db) : Prop :=
  (exists ev, events s' = events s ++ ev)
  /\ (exists sn, snapshots s' = snapshots s ++ sn)
  /\ (exists ce, causal_edges s' = causal_edges s ++ ce).

(** No two rows of a table share an id. *)
Definition unique_ids (s : db) : Prop :=
  NoDup (map ev_id (events s))
  /\ NoDup (map sn_id (snapshots s))
  /\ NoDup (map ce_id (causal_edges s)).

(** An edge as one of the two linking rules writes it: pattern P001, type
    direct, both ends stored events, and the confidence of the rule whose
    SELECT found the cause. *)
Definition written_by_rule (s : db) (ed : edge_row) : Prop :=
  ce_pattern_id ed = "P001" /\ ce_edge_type ed = "direct"
  /\ exists c e,
       In c (events s) /\ In e (events s)
       /\ ev_id c = ce_cause_event_id ed /\ ev_id e = ce_effect_event_id ed
       /\ (ce_confidence ed = (9 # 10)%Q /\ ev_event_type c = VText "NodeMemoryPressure"
           \/ ce_confidence ed = 1%Q /\ ev_event_type c = VText "OOMKill").

(** The part of [written_by_rule] that is about the cause. *)
Definition cause_by_rule (s : db) (ed : edge_row) : Prop :=
  ce_pattern_id ed = "P001" /\ ce_edge_type ed = "direct"
  /\ exists c,
       In c (events s) /\ ev_id c = ce_cause_event_id ed
       /\ (ce_confidence ed = (9 # 10)%Q /\ ev_event_type c = VText "NodeMemoryPressure"
           \/ ce_confidence ed = 1%Q /\ ev_event_type c = VText "OOMKill").

(** Two runs that leave the same store and end the same way: both return,
    or both raise the same exception. *)
Definition same_outcome {A B : Type} (a : res A * db) (b : res B * db) : Prop :=
  snd a = snd b
  /\ match fst a, fst b with
     | Ok _, Ok _ => True
     | Raise x, Raise y => x = y
     | _, _ => False
     end.

(** The turns of tail mode over an events file that grows by [chunks], one
    chunk between two turns, from the text [prefix]. *)
Fixpoint growing (prefix : string) (chunks : list string)
  : list (option string * option string) :=
  match chunks with
  | [] => []
  | c :: rest => (Some (prefix ++ c)%string, None) :: growing (prefix ++ c)%string rest
  end.

Definition concat_text (chunks : list string) : string :=
  fold_right String.append EmptyString chunks.

(** The store [s] with another snapshots table, and with other events and
    edges. *)
Definition with_snapshots (s : db) (sn : list snapshot_row) : db :=
  mk_db (events s) sn (causal_edges s).

Definition with_events (s : db) (ev : list event_row) (ce : list edge_row) : db :=
  mk_db ev (snapshots s) ce.

(** A computation that neither reads nor writes the snapshots. *)
Definition snapshot_blind {A : Type} (m : M A) : Prop :=
  forall s sn, m (with_snapshots s sn) = (fst (m s), with_snapshots (snd (m s)) sn).

(** A computation that neither reads nor writes the events and the edges. *)
Definition event_blind {A : Type} (m : M A) : Prop :=
  forall s ev ce, m (with_events s ev ce) = (fst (m s), with_events (snd (m s)) ev ce).

Section LineKinds.
Context `{Runtime}.

(** A line that holds a record whose fields the INSERT can bind. *)
Definition record_line (line : string) (e : json) (row : event_row) : Prop :=
  String.eqb (strip line) "" = false
  /\ json_loads (strip line) = Some e
  /\ event_row_of e = Ok row.

(** A line the loop passes over in every store: blank, not decodable, or
    refused with an exception the loop catches before anything is written. *)
Definition skipped (line : string) : Prop :=
  strip line = ""
  \/ json_loads (strip line) = None
  \/ exists e x,
       json_loads (strip line) = Some e /\ event_row_of e = Raise x
       /\ decode_or_integrity_error x = true.

End LineKinds.

(** The events a chain shows, every cause before its own causes. *)
Fixpoint rows_of (n : chain_node) : list event_row :=
  match n with
  | Cause row _ _ children => row :: flat_map rows_of children
  end.

(** [c] is a stored event that a stored edge makes a cause of [a]: the join
    of [_walk_chain]. *)
Definition is_cause (s : db) (c a : event_row) : Prop :=
  In c (events s)
  /\ exists ed,
       In ed (causal_edges s)
       /\ sql_eq (ev_id c) (ce_cause_event_id ed) = true
       /\ sql_eq (ce_effect_event_id ed) (ev_id a) = true.

(** A path of [n] edges leads from [c] to [a]. *)
Fixpoint leads_to (s : db) (n : nat) (c a : event_row) : Prop :=
  match n with
  | O => c = a
  | S n' => exists m, is_cause s m a /\ leads_to s n' c m
  end.

(** Records that carry the same id carry the same event type. *)
Definition ids_fix_types (records : list json) : Prop :=
  forall e1 e2 r1 r2,
    In e1 records -> In e2 records ->
    event_row_of e1 = Ok r1 -> event_row_of e2 = Ok r2 ->
    ev_id r1 = ev_id r2 -> ev_event_type r1 = ev_event_type r2.

(** The two shapes of an edge: memory pressure before an OOM kill, an OOM
    kill before its evidence. *)
Definition rule_types (cause effect : sqlval) : Prop :=
  cause = VText "NodeMemoryPressure" /\ effect = VText "OOMKill"
  \/ cause = VText "OOMKill" /\ effect = VText "OOMKillEvidence".

(** The types at the two ends of an edge when it is written: those of the
    stored cause and of the record the rule ran on. *)
Definition edge_typed (records : list json) (s : db) (ed : edge_row) : Prop :=
  exists c e row,
    In c (events s) /\ In e records /\ event_row_of e = Ok row
    /\ ev_id c = ce_cause_event_id ed /\ ev_id row = ce_effect_event_id ed
    /\ rule_types (ev_event_type c) (ev_event_type row).

Section Counted.
Context `{Runtime}.

(** A line that [ingest_events] counts: not blank, decodable, and holding a
    record whose fields the INSERT can bind. *)
Definition counted_line (line : string) : bool :=
  negb (String.eqb (strip line) "")
  && match json_loads (strip line) with
     | Some e => match event_row_of e with Ok _ => true | Raise _ => false end
     | None => false
     end.

End Counted.

(** The answer of [GET /state-at] that shows what [query_state_at] shows. *)
Definition state_response (object_kind object_name query_time : string)
  (r : state_report) : response :=
  match r with
  | NoSnapshot => StateMissing (object_kind ++ "/" ++ object_name)%string query_time
  | StateOf snap => StateBody snap
  end.

(** The answer of [GET /causal-chain] that shows what [query_causal_chain]
    shows. *)
Definition chain_response (pod_name namespace : string) (r : chain_report) : response :=
  match r with
  | NoSignificantEvents => ChainEmpty pod_name namespace "no events found"
  | ChainOf anchor chain => ChainBody anchor chain
  end.

(** The store without the snapshots whose namespace is NULL. *)
Definition without_null_namespaces (s : db) : db :=
  mk_db (events s)
    (filter (fun r => negb (sqlval_eqb (sn_namespace r) VNull)) (snapshots s))
    (causal_edges s).

Section GroupedRows.
Context {A K : Type}.
Variable key : A -> K.
Variable key_eqb : K -> K -> bool.

(** What GROUP BY makes of the rows [done]: one group for each key that
    occurs, no key twice, every group holding the rows of its key in table
    order. *)
Definition grouped (done : list A) (groups : list (K * list A)) : Prop :=
  NoDup (map fst groups)
  /\ (forall k members, In (k, members) groups ->
        members <> [] /\ members = filter (fun x => key_eqb k (key x)) done)
  /\ (forall x, In x done -> In (key x) (map fst groups)).

End GroupedRows.

(** An event of the pod and namespace of a row of the top pods. *)
Definition of_pod (p : pod_count) (r : event_row) : bool :=
  sqlval_eqb (pd_pod_name p) (ev_pod_name r)
  && sqlval_eqb (pd_namespace p) (ev_namespace r).

(** An event of the same pod and namespace as [r]. *)
Definition beside (r r' : event_row) : bool :=
  same_pod (ev_pod_name r, ev_namespace r) (ev_pod_name r', ev_namespace r').

(** The event of a node of a chain. *)
Definition node_row (n : chain_node) : event_row :=
  match n with
  | Cause row _ _ _ => row
  end.

(** [x] does not come after [y] in an ascending result. *)
Definition before_asc {A : Type} (key : A -> sqlval) (x y : A) : Prop :=
  key_le (key x) (key y) = true.

(* ################################################################# *)
(** * The order of the store *)

Lemma string_compare_refl (s : string) : String.compare s s = Eq.
Proof.
  induction s as [|c s IH]; simpl; [reflexivity|].
  unfold Ascii.compare. now rewrite N.compare_refl.
Qed.

Lemma string_compare_trans (a b c : string) :
  String.compare a b <> Gt -> String.compare b c <> Gt -> String.compare a c <> Gt.
Proof.
  revert b c; induction a as [|x a IH]; intros [|y b] [|z c]; simpl; try congruence.
  unfold Ascii.compare.
  destruct (N.compare_spec (N_of_ascii x) (N_of_ascii y)) as [E1|E1|E1];
    destruct (N.compare_spec (N_of_ascii y) (N_of_ascii z)) as [E2|E2|E2];
    try congruence; intros H1 H2.
  - rewrite E1, E2, N.compare_refl. now apply IH with b.
  - rewrite E1. apply N.compare_lt_iff in E2. now rewrite E2.
  - rewrite <- E2. apply N.compare_lt_iff in E1. now rewrite E1.
  - assert (E : (N_of_ascii x < N_of_ascii z)%N) by lia.
    apply N.compare_lt_iff in E. now rewrite E.
Qed.

Lemma sql_le_trans (a b c : sqlval) :
  sql_le a b = true -> sql_le b c = true -> sql_le a c = true.
Proof.
  unfold sql_le; destruct a as [|x|s], b as [|y|t], c as [|z|u]; simpl;
    try congruence; try reflexivity.
  - destruct (Z.compare_spec x y), (Z.compare_spec y z); try congruence; intros _ _;
      destruct (Z.compare_spec x z); try reflexivity; lia.
  - intros H1 H2.
    assert (N1 : String.compare s t <> Gt) by (destruct (String.compare s t); congruence).
    assert (N2 : String.compare t u <> Gt) by (destruct (String.compare t u); congruence).
    pose proof (string_compare_trans _ _ _ N1 N2).
    destruct (String.compare s u); congruence.
Qed.

Lemma sql_le_total (a b : sqlval) :
  a <> VNull -> b <> VNull -> sql_le a b = true \/ sql_le b a = true.
Proof.
  unfold sql_le; destruct a as [|x|s], b as [|y|t]; simpl; try congruence; auto.
  - intros _ _. rewrite (Z.compare_antisym x y). destruct (x ?= y); simpl; auto.
  - intros _ _. rewrite (String.compare_antisym s t).
    destruct (String.compare t s); simpl; auto.
Qed.

Lemma sql_le_not_null (a b : sqlval) :
  sql_le a b = true -> a <> VNull /\ b <> VNull.
Proof. destruct a, b; simpl; try discriminate; split; discriminate. Qed.

Lemma sql_eq_not_null (a b : sqlval) :
  sql_eq a b = true -> a <> VNull /\ b <> VNull.
Proof. destruct a, b; simpl; try discriminate; split; discriminate. Qed.

(** On text, the [=] of a WHERE clause is equality of the strings. *)
Lemma sql_eq_text (a : sqlval) (s : string) :
  sql_eq a (VText s) = true <-> a = VText s.
Proof.
  destruct a as [| |t]; unfold sql_eq; simpl; try (split; discriminate).
  destruct (String.compare t s) eqn:E; split; try discriminate.
  - intros _. apply String.compare_eq_iff in E. now subst.
  - reflexivity.
  - intros [= ->]. now rewrite string_compare_refl in E.
  - intros [= ->]. now rewrite string_compare_refl in E.
Qed.

Lemma key_le_sql_le (a b : sqlval) :
  a <> VNull -> key_le a b = sql_le a b.
Proof. destruct a, b; simpl; intros; try reflexivity; congruence. Qed.

Lemma key_le_total (a b : sqlval) : key_le a b = true \/ key_le b a = true.
Proof.
  destruct a as [|x|s] eqn:Ea, b as [|y|t] eqn:Eb; simpl; auto;
    apply sql_le_total; discriminate.
Qed.

Lemma key_le_trans (a b c : sqlval) :
  key_le a b = true -> key_le b c = true -> key_le a c = true.
Proof.
  destruct a as [|x|s], b as [|y|t], c as [|z|u]; simpl; try congruence;
    try reflexivity; apply sql_le_trans.
Qed.

Lemma in_firstn {A : Type} (k : nat) (l : list A) (x : A) :
  In x (firstn k l) -> In x l.
Proof.
  intros Hx. rewrite <- (firstn_skipn k l). apply in_or_app. now left.
Qed.

Section OrderByFacts.
Context {A : Type}.
Variable key : A -> sqlval.

Lemma insert_desc_perm (x : A) (l : list A) :
  Permutation (insert_desc key x l) (x :: l).
Proof.
  induction l as [|y l IH]; simpl; [reflexivity|].
  destruct (key_le (key x) (key y)); [|reflexivity].
  rewrite IH. apply perm_swap.
Qed.

Lemma insert_asc_perm (x : A) (l : list A) :
  Permutation (insert_asc key x l) (x :: l).
Proof.
  induction l as [|y l IH]; simpl; [reflexivity|].
  destruct (key_le (key y) (key x)); [|reflexivity].
  rewrite IH. apply perm_swap.
Qed.

Lemma fold_insert_perm (ins : A -> list A -> list A) :
  (forall x l, Permutation (ins x l) (x :: l)) ->
  forall l acc, Permutation (fold_left (fun acc x => ins x acc) l acc) (acc ++ l).
Proof.
  intros Hins; induction l as [|x l IH]; intros acc; simpl.
  - now rewrite app_nil_r.
  - rewrite IH, Hins. simpl. apply Permutation_middle.
Qed.

Lemma order_by_desc_perm (l : list A) : Permutation (order_by_desc key l) l.
Proof. unfold order_by_desc. now rewrite (fold_insert_perm _ insert_desc_perm). Qed.

Lemma order_by_asc_perm (l : list A) : Permutation (order_by_asc key l) l.
Proof. unfold order_by_asc. now rewrite (fold_insert_perm _ insert_asc_perm). Qed.

Lemma insert_desc_sorted (x : A) (l : list A) :
  StronglySorted (before_desc key) l -> StronglySorted (before_desc key) (insert_desc key x l).
Proof.
  induction 1 as [|y l Hs IH Hy]; simpl.
  - constructor; constructor.
  - destruct (key_le (key x) (key y)) eqn:E.
    + constructor; [exact IH|].
      apply Forall_forall. intros z Hz.
      apply (Permutation_in _ (insert_desc_perm x l)) in Hz.
      destruct Hz as [<-|Hz]; [exact E|].
      rewrite Forall_forall in Hy. now apply Hy.
    + assert (Hxy : before_desc key x y).
      { unfold before_desc. destruct (key_le_total (key x) (key y)); congruence. }
      constructor; [now constructor|].
      constructor; [exact Hxy|].
      apply Forall_forall. intros z Hz. rewrite Forall_forall in Hy.
      unfold before_desc in *. eapply key_le_trans; [now apply Hy | exact Hxy].
Qed.

Lemma fold_insert_desc_sorted (l acc : list A) :
  StronglySorted (before_desc key) acc ->
  StronglySorted (before_desc key) (fold_left (fun acc x => insert_desc key x acc) l acc).
Proof.
  revert acc; induction l as [|x l IH]; intros acc Hacc; simpl; [exact Hacc|].
  apply IH. now apply insert_desc_sorted.
Qed.

Lemma order_by_desc_sorted (l : list A) :
  StronglySorted (before_desc key) (order_by_desc key l).
Proof. apply fold_insert_desc_sorted. constructor. Qed.

Lemma sorted_app_inv (R : A -> A -> Prop) (l1 l2 : list A) :
  StronglySorted R (l1 ++ l2) ->
  forall x y, In x l1 -> In y l2 -> R x y.
Proof.
  induction l1 as [|a l1 IH]; simpl; intros Hs x y Hx Hy; [contradiction|].
  inversion Hs as [|? ? Hs' Ha]; subst.
  destruct Hx as [<-|Hx].
  - rewrite Forall_forall in Ha. apply Ha. apply in_or_app. now right.
  - now apply IH.
Qed.

Lemma top_in (k : nat) (p : A -> bool) (l : list A) (x : A) :
  In x (top key k p l) -> In x l /\ p x = true.
Proof.
  unfold top. intros Hx. apply in_firstn in Hx.
  apply (Permutation_in _ (order_by_desc_perm _)) in Hx.
  now apply filter_In in Hx.
Qed.

Lemma top_length (k : nat) (p : A -> bool) (l : list A) :
  List.length (top key k p l) = Nat.min k (List.length (filter p l)).
Proof.
  unfold top. rewrite length_firstn.
  now rewrite (Permutation_length (order_by_desc_perm (filter p l))).
Qed.

(** A row that satisfies [p] and is left out is not above any row kept. *)
Lemma top_most_recent (k : nat) (p : A -> bool) (l : list A) (y : A) :
  In y l -> p y = true ->
  In y (top key k p l) \/ forall x, In x (top key k p l) -> key_le (key y) (key x) = true.
Proof.
  intros Hy Hp. unfold top.
  set (sorted := order_by_desc key (filter p l)).
  assert (Hin : In y sorted).
  { apply (Permutation_in _ (Permutation_sym (order_by_desc_perm _))).
    now apply filter_In. }
  rewrite <- (firstn_skipn k sorted) in Hin.
  apply in_app_or in Hin. destruct Hin as [Hin|Hin]; [now left|right].
  intros x Hx.
  pose proof (order_by_desc_sorted (filter p l)) as Hs. fold sorted in Hs.
  rewrite <- (firstn_skipn k sorted) in Hs.
  change (before_desc key x y).
  eapply sorted_app_inv; [exact Hs | exact Hx | exact Hin].
Qed.

Lemma top_nil (k : nat) (p : A -> bool) (l : list A) :
  top key (S k) p l = [] <-> forall x, In x l -> p x = false.
Proof.
  split.
  - intros Hnil x Hx. destruct (p x) eqn:Hp; [|reflexivity].
    pose proof (top_length (S k) p l) as Hlen. rewrite Hnil in Hlen. simpl in Hlen.
    assert (Hf : In x (filter p l)) by now apply filter_In.
    destruct (filter p l); [contradiction|simpl in Hlen; lia].
  - intros Hall. unfold top.
    assert (Hf : filter p l = []).
    { destruct (filter p l) as [|z f] eqn:E; [reflexivity|].
      assert (Hz : In z (filter p l)) by (rewrite E; now left).
      apply filter_In in Hz. destruct Hz as [Hz Hpz]. rewrite (Hall z Hz) in Hpz.
      discriminate. }
    now rewrite Hf.
Qed.

End OrderByFacts.

(* ################################################################# *)
(** * The query engine *)

Lemma key_le_refl (a : sqlval) : key_le a a = true.
Proof. now destruct (key_le_total a a). Qed.

Lemma top_one {A : Type} (key : A -> sqlval) (p : A -> bool) (l : list A) :
  match hd_error (top key 1 p l) with
  | Some x =>
      In x l /\ p x = true
      /\ forall y, In y l -> p y = true -> key_le (key y) (key x) = true
  | None => forall y, In y l -> p y = false
  end.
Proof.
  destruct (top key 1 p l) as [|x rest] eqn:E; simpl.
  - now apply (top_nil key 0 p l).
  - assert (Hx : In x (top key 1 p l)) by (rewrite E; now left).
    destruct (top_in _ _ _ _ _ Hx) as [Hin Hp]. repeat split; trivial.
    assert (Hrest : rest = []).
    { pose proof (top_length key 1 p l) as Hlen. rewrite E in Hlen.
      destruct rest; [reflexivity|]. cbn [List.length] in Hlen. lia. }
    subst rest. intros y Hy Hpy.
    destruct (top_most_recent key 1 p l y Hy Hpy) as [Hsel|Hle].
    + rewrite E in Hsel. destruct Hsel as [->|[]]. apply key_le_refl.
    + apply Hle. exact Hx.
Qed.

Lemma walk_chain_unfold (s : db) (event : event_row) (depth max_depth : nat) :
  _walk_chain s event depth max_depth =
  if le_lt_dec max_depth depth then []
  else map (fun c => Cause (fst c) (ce_confidence (snd c)) (ce_edge_type (snd c))
                       (_walk_chain s (fst c) (S depth) max_depth))
         (causes_of s (ev_id event)).
Proof. simp _walk_chain. destruct (le_lt_dec max_depth depth); reflexivity. Qed.

Lemma chain_levels_map {A : Type} (f : A -> chain_node) (l : list A) (n : nat) :
  (forall x, In x l -> levels (f x) <= n)%nat -> (chain_levels (map f l) <= n)%nat.
Proof.
  unfold chain_levels. induction l as [|x l IH]; simpl; intros H; [lia|].
  apply Nat.max_lub; [apply H; now left|apply IH; intros y Hy; apply H; now right].
Qed.

Lemma walk_chain_levels (s : db) (event : event_row) (depth max_depth : nat) :
  (chain_levels (_walk_chain s event depth max_depth) <= max_depth - depth)%nat.
Proof.
  funelim (_walk_chain s event depth max_depth).
  - unfold chain_levels. simpl. lia.
  - apply chain_levels_map. intros c _. simpl.
    specialize (H c). fold (chain_levels (_walk_chain s (fst c) (S depth) max_depth)).
    lia.
Qed.

(** C5. Whatever the events and edges of the store, cycles included, the
    walk from an anchor returns, and the chain it returns nests at most five
    levels of causes below the anchor; at depth five nothing is fetched. *)
Theorem walk_chain_depth_bound (s : db) (anchor : event_row) :
  (chain_levels (_walk_chain s anchor 0 5) <= 5)%nat
  /\ _walk_chain s anchor 5 5 = []
  /\ forall pod_name namespace event_id,
       match query_causal_chain s pod_name namespace event_id with
       | ChainOf _ chain => (chain_levels chain <= 5)%nat
       | NoSignificantEvents => True
       end.
Proof.
  split; [apply (walk_chain_levels s anchor 0 5)|].
  split; [now rewrite walk_chain_unfold|].
  intros pod_name namespace event_id. unfold query_causal_chain.
  destruct (if truthy event_id then _ else _); [|exact I].
  apply (walk_chain_levels s _ 0 5).
Qed.

(** The bound is reached: on a cycle the walk goes down all five levels. *)
Lemma walk_chain_cycle :
  match events looping_store with
  | x :: _ => chain_levels (_walk_chain looping_store x 0 5) = 5%nat
  | [] => False
  end.
Proof. simpl. repeat (rewrite walk_chain_unfold; simpl). reflexivity. Qed.

Lemma state_filter_spec (object_kind object_name : string) (namespace : option string)
  (query_time : string) (r : snapshot_row) :
  sql_eq (sn_object_kind r) (VText object_kind)
  && sql_eq (sn_object_name r) (VText object_name)
  && (sql_eq (sn_namespace r) (VText (or_empty namespace))
      || sql_eq (sn_namespace r) (VText "")
      || sqlval_eqb (sn_namespace r) VNull)
  && sql_le (sn_timestamp r) (VText query_time) = true
  <-> answers_state_at object_kind object_name namespace query_time r.
Proof.
  unfold answers_state_at.
  rewrite !andb_true_iff, !orb_true_iff, !sql_eq_text.
  assert (Hnull : sqlval_eqb (sn_namespace r) VNull = true <-> sn_namespace r = VNull).
  { destruct (sn_namespace r); simpl; split; congruence. }
  rewrite Hnull. tauto.
Qed.

Lemma get_state_filter_spec (params : list (string * string)) (r : snapshot_row) :
  sql_eq (sn_object_kind r) (VText (param params "object" "Pod"))
  && sql_eq (sn_object_name r) (VText (param params "name" ""))
  && (sql_eq (sn_namespace r) (VText (param params "namespace" "default"))
      || sql_eq (sn_namespace r) (VText ""))
  && sql_le (sn_timestamp r) (VText (param params "time" "")) = true
  <-> answers_get_state_at params r.
Proof.
  unfold answers_get_state_at.
  rewrite !andb_true_iff, !orb_true_iff, !sql_eq_text. tauto.
Qed.

Lemma significant_filter_spec (pod_name namespace : string) (r : event_row) :
  sql_eq (ev_pod_name r) (VText pod_name)
  && sql_eq (ev_namespace r) (VText namespace)
  && significant (ev_event_type r) = true
  <-> significant_for pod_name namespace r.
Proof.
  unfold significant_for, significant.
  rewrite !andb_true_iff, !orb_true_iff, !sql_eq_text. tauto.
Qed.

Lemma not_true_iff (b : bool) (P : Prop) : (b = true <-> P) -> b = false -> ~ P.
Proof. intros H Hb HP. apply H in HP. congruence. Qed.

(** C6. A state-at query returns the most recent snapshot of the object at
    or before the query time whose namespace is the requested one or empty,
    and the "no snapshot" answer exactly when the store has none; on the
    command line and over HTTP. *)
Theorem query_state_at_most_recent (s : db) (object_kind object_name : string)
  (namespace : option string) (query_time : string) (params : list (string * string)) :
  match query_state_at s object_kind object_name namespace query_time with
  | StateOf r =>
      In r (snapshots s)
      /\ answers_state_at object_kind object_name namespace query_time r
      /\ forall r', In r' (snapshots s) ->
                    answers_state_at object_kind object_name namespace query_time r' ->
                    sql_le (sn_timestamp r') (sn_timestamp r) = true
  | NoSnapshot =>
      forall r', In r' (snapshots s) ->
                 ~ answers_state_at object_kind object_name namespace query_time r'
  end
  /\ match get_state_at s params with
     | StateBody r =>
         In r (snapshots s)
         /\ answers_get_state_at params r
         /\ forall r', In r' (snapshots s) -> answers_get_state_at params r' ->
                       sql_le (sn_timestamp r') (sn_timestamp r) = true
     | StateMissing _ _ =>
         forall r', In r' (snapshots s) -> ~ answers_get_state_at params r'
     | ErrorBody code _ =>
         code = 400%nat /\ (param params "name" "" = "" \/ param params "time" "" = "")
     | _ => False
     end.
Proof.
  split.
  - unfold query_state_at.
    match goal with
    | |- context [hd_error (firstn _ (order_by_desc ?k (filter ?p ?l)))] =>
        pose proof (top_one k p l) as H; unfold top in H;
        destruct (hd_error (firstn 1%nat (order_by_desc k (filter p l)))) as [r|]
    end.
    + destruct H as (Hin & Hp & Hmax). apply state_filter_spec in Hp.
      repeat split; try apply Hp; trivial.
      intros r' Hin' Hr'. pose proof Hr' as Hq. apply state_filter_spec in Hq.
      specialize (Hmax r' Hin' Hq).
      destruct Hr' as (_ & _ & _ & Hle). apply sql_le_not_null in Hle.
      now rewrite key_le_sql_le in Hmax.
    + intros r' Hin'. eapply not_true_iff; [apply state_filter_spec|]. now apply H.
  - unfold get_state_at.
    destruct (String.eqb (param params "name" "") "") eqn:En; cbn [orb].
    { split; [reflexivity|left]. now apply String.eqb_eq. }
    destruct (String.eqb (param params "time" "") "") eqn:Et; cbn [orb].
    { split; [reflexivity|right]. now apply String.eqb_eq. }
    match goal with
    | |- context [hd_error (firstn _ (order_by_desc ?k (filter ?p ?l)))] =>
        pose proof (top_one k p l) as H; unfold top in H;
        destruct (hd_error (firstn 1%nat (order_by_desc k (filter p l)))) as [r|]
    end.
    + destruct H as (Hin & Hp & Hmax). apply get_state_filter_spec in Hp.
      repeat split; try apply Hp; trivial.
      intros r' Hin' Hr'. pose proof Hr' as Hq. apply get_state_filter_spec in Hq.
      specialize (Hmax r' Hin' Hq).
      destruct Hr' as (_ & _ & _ & Hle). apply sql_le_not_null in Hle.
      now rewrite key_le_sql_le in Hmax.
    + intros r' Hin'. eapply not_true_iff; [apply get_state_filter_spec|]. now apply H.
Qed.

(** C8. With a pod and no event id, the anchor of a causal chain is the most
    recent event of that pod and namespace among OOMKill, CrashLoopBackOff and
    ContainerTerminated, and the chain is the walk from it; with no such
    event the answer is the "no events found" one; on the command line and
    over HTTP. *)
Theorem causal_chain_anchor (s : db) (pod_name namespace : string)
  (params : list (string * string)) :
  match query_causal_chain s pod_name namespace None with
  | ChainOf a chain =>
      In a (events s)
      /\ significant_for pod_name namespace a
      /\ (forall r, In r (events s) -> significant_for pod_name namespace r ->
                    key_le (ev_timestamp r) (ev_timestamp a) = true)
      /\ chain = _walk_chain s a 0 5
  | NoSignificantEvents =>
      forall r, In r (events s) -> ~ significant_for pod_name namespace r
  end
  /\ let pod := param params "pod" "" in
     let ns := param params "namespace" "default" in
     match get_causal_chain s params with
     | ChainBody a chain =>
         In a (events s)
         /\ significant_for pod ns a
         /\ (forall r, In r (events s) -> significant_for pod ns r ->
                       key_le (ev_timestamp r) (ev_timestamp a) = true)
         /\ chain = _walk_chain s a 0 5
     | ChainEmpty pod' ns' message =>
         pod' = pod /\ ns' = ns /\ message = "no events found"
         /\ forall r, In r (events s) -> ~ significant_for pod ns r
     | ErrorBody code _ => code = 400%nat /\ pod = ""
     | _ => False
     end.
Proof.
  assert (Hanchor : forall pod ns,
    match last_significant_event s pod ns with
    | Some a =>
        In a (events s) /\ significant_for pod ns a
        /\ (forall r, In r (events s) -> significant_for pod ns r ->
                      key_le (ev_timestamp r) (ev_timestamp a) = true)
    | None => forall r, In r (events s) -> ~ significant_for pod ns r
    end).
  { intros pod ns. unfold last_significant_event.
    match goal with
    | |- context [hd_error (firstn _ (order_by_desc ?k (filter ?p ?l)))] =>
        pose proof (top_one k p l) as H; unfold top in H;
        destruct (hd_error (firstn 1%nat (order_by_desc k (filter p l)))) as [a|]
    end.
    - destruct H as (Hin & Hp & Hmax). apply significant_filter_spec in Hp.
      repeat split; try apply Hp; trivial.
      intros r Hr Hsig. apply Hmax; [exact Hr|]. now apply significant_filter_spec.
    - intros r Hr. eapply not_true_iff; [apply significant_filter_spec|]. now apply H. }
  split.
  - unfold query_causal_chain. simpl.
    specialize (Hanchor pod_name namespace).
    destruct (last_significant_event s pod_name namespace) as [a|]; [|exact Hanchor].
    destruct Hanchor as (H1 & H2 & H3). auto.
  - cbv zeta. unfold get_causal_chain.
    destruct (String.eqb (param params "pod" "") "") eqn:Ep.
    { split; [reflexivity|]. now apply String.eqb_eq. }
    specialize (Hanchor (param params "pod" "") (param params "namespace" "default")).
    destruct (last_significant_event s _ _) as [a|].
    + destruct Hanchor as (H1 & H2 & H3). auto.
    + auto.
Qed.

(* ################################################################# *)
(** * The ingestion pipeline *)

Lemma has_edge_app (l1 l2 : list edge_row) (id : sqlval) :
  has_edge (l1 ++ l2) id = has_edge l1 id || has_edge l2 id.
Proof. unfold has_edge. apply existsb_app. Qed.

Lemma sqlval_eqb_refl (v : sqlval) : sqlval_eqb v v = true.
Proof. destruct v; simpl; auto using Z.eqb_refl, String.eqb_refl. Qed.

Lemma sqlval_eqb_eq (a b : sqlval) : sqlval_eqb a b = true <-> a = b.
Proof.
  destruct a, b; simpl; split; try congruence; try discriminate.
  - intros H. apply Z.eqb_eq in H. now subst.
  - intros [= ->]. apply Z.eqb_refl.
  - intros H. apply String.eqb_eq in H. now subst.
  - intros [= ->]. apply String.eqb_refl.
Qed.

Lemma link_spec (event : json) (confidence : Q) (r : sqlval) (s s' : db) (out : res unit) :
  link event confidence r s = (out, s') ->
  events s' = events s /\ snapshots s' = snapshots s
  /\ (causal_edges s' = causal_edges s
      \/ exists ed, edge_for event confidence r ed
                    /\ causal_edges s' = causal_edges s ++ [ed]).
Proof.
  unfold link, bind, lift, try_except, insert_edge, edge_for, ret.
  destruct (subscript event "id") as [id|x] eqn:Eid; simpl.
  2:{ intros [= _ <-]. auto. }
  destruct (adapt id) as [effect|x] eqn:Ead; simpl.
  2:{ destruct (is_integrity_error x); intros [= _ <-]; auto. }
  destruct (has_edge (causal_edges s) _); simpl.
  { intros [= _ <-]. auto. }
  destruct (fk_ok (events s) r && fk_ok (events s) effect); simpl.
  - intros [= _ <-]. simpl. repeat split. right. eexists. split; [|reflexivity].
    exists id, effect. auto.
  - intros [= _ <-]. auto.
Qed.

(** Running a link again where its edge id is taken gives the same outcome
    and leaves the store as it is. *)
Lemma link_stable (event : json) (confidence : Q) (r : sqlval) (s s' s'' : db)
  (out : res unit) :
  link event confidence r s = (out, s') ->
  events s'' = events s ->
  edge_ids_within s' s'' ->
  link event confidence r s'' = (out, s'').
Proof.
  unfold link, bind, lift, try_except, insert_edge, ret, edge_ids_within.
  destruct (subscript event "id") as [id|x] eqn:Eid; simpl.
  2:{ now intros [= <- _]. }
  destruct (adapt id) as [effect|x] eqn:Ead; simpl.
  2:{ destruct (is_integrity_error x); now intros [= <- _]. }
  intros H Hev Hids. rewrite Hev.
  destruct (has_edge (causal_edges s) _) eqn:Hhas; simpl in H.
  { injection H as <- <-. now rewrite (Hids _ Hhas). }
  destruct (fk_ok (events s) r && fk_ok (events s) effect); simpl in *.
  - injection H as <- <-. simpl in Hids. rewrite Hids; [reflexivity|].
    rewrite has_edge_app. simpl. rewrite String.eqb_refl. apply orb_true_r.
  - injection H as <- <-. now destruct (has_edge (causal_edges s'') _).
Qed.

Lemma link_grows (event : json) (confidence : Q) (r : sqlval) (s s' : db) (out : res unit) :
  link event confidence r s = (out, s') -> edge_ids_within s s'.
Proof.
  intros H id Hid. apply link_spec in H. destruct H as (_ & _ & [->|(ed & _ & ->)]).
  - exact Hid.
  - rewrite has_edge_app, Hid. reflexivity.
Qed.

Lemma edge_ids_within_refl (s : db) : edge_ids_within s s.
Proof. now intros id. Qed.

Lemma edge_ids_within_trans (s1 s2 s3 : db) :
  edge_ids_within s1 s2 -> edge_ids_within s2 s3 -> edge_ids_within s1 s3.
Proof. intros H1 H2 id Hid. auto. Qed.

Lemma for_each_link_spec (event : json) (confidence : Q) (rows : list event_row)
  (s s' : db) (out : res unit) :
  for_each rows (fun r => link event confidence (ev_id r)) s = (out, s') ->
  events s' = events s /\ snapshots s' = snapshots s
  /\ exists new,
       causal_edges s' = causal_edges s ++ new
       /\ Forall (fun ed => exists r, In r rows /\ edge_for event confidence (ev_id r) ed) new.
Proof.
  revert s; induction rows as [|r rows IH]; intros s; simpl.
  - unfold ret. intros [= _ <-]. repeat split. exists []. now rewrite app_nil_r.
  - unfold bind at 1.
    destruct (link event confidence (ev_id r) s) as [[[]|x] sm] eqn:El.
    + intros Hrest. apply IH in Hrest. apply link_spec in El.
      destruct Hrest as (He & Hs & new & Hnew & Hall).
      destruct El as (He' & Hs' & Hed).
      split; [congruence|]. split; [congruence|].
      assert (Hall' : Forall (fun ed => exists r0, In r0 (r :: rows)
                                 /\ edge_for event confidence (ev_id r0) ed) new).
      { eapply Forall_impl; [|exact Hall]. intros ed (r0 & Hr0 & Hf).
        exists r0. split; [now right|exact Hf]. }
      destruct Hed as [Heq|(ed & Hf & Heq)].
      * exists new. split; [congruence|exact Hall'].
      * exists (ed :: new). split.
        { rewrite Hnew, Heq, <- app_assoc. reflexivity. }
        constructor; [|exact Hall']. exists r. split; [now left|exact Hf].
    + intros [= _ <-]. apply link_spec in El. destruct El as (He' & Hs' & Hed).
      repeat split; trivial.
      destruct Hed as [Heq|(ed & Hf & Heq)].
      * exists []. rewrite app_nil_r. split; [exact Heq|constructor].
      * exists [ed]. split; [exact Heq|]. constructor; [|constructor].
        exists r. split; [now left|exact Hf].
Qed.

Lemma for_each_link_grows (event : json) (confidence : Q) (rows : list event_row)
  (s s' : db) (out : res unit) :
  for_each rows (fun r => link event confidence (ev_id r)) s = (out, s') ->
  edge_ids_within s s'.
Proof.
  intros H id Hid. apply for_each_link_spec in H.
  destruct H as (_ & _ & new & -> & _). now rewrite has_edge_app, Hid.
Qed.

Lemma for_each_link_stable (event : json) (confidence : Q) (rows : list event_row)
  (s s' s'' : db) (out : res unit) :
  for_each rows (fun r => link event confidence (ev_id r)) s = (out, s') ->
  events s'' = events s ->
  edge_ids_within s' s'' ->
  for_each rows (fun r => link event confidence (ev_id r)) s'' = (out, s'').
Proof.
  revert s; induction rows as [|r rows IH]; intros s; simpl.
  - unfold ret. now intros [= <- _].
  - unfold bind at 1 2.
    destruct (link event confidence (ev_id r) s) as [[[]|x] sm] eqn:El.
    + intros Hrest Hev Hids.
      pose proof (for_each_link_grows _ _ _ _ _ _ Hrest) as Hgrow.
      rewrite (link_stable _ _ _ _ _ _ _ El Hev (edge_ids_within_trans _ _ _ Hgrow Hids)).
      apply (IH sm); trivial.
      apply link_spec in El. destruct El as (He & _). congruence.
    + intros [= <- <-] Hev Hids.
      now rewrite (link_stable _ _ _ _ _ _ _ El Hev Hids).
Qed.

Section Linker.
Context `{Runtime}.

Lemma appends_nil (s : db) : appends s s [].
Proof. unfold appends. now rewrite app_nil_r. Qed.

Lemma appends_trans (s1 s2 s3 : db) (n1 n2 : list edge_row) :
  appends s1 s2 n1 -> appends s2 s3 n2 -> appends s1 s3 (n1 ++ n2).
Proof.
  unfold appends. intros (E1 & S1 & C1) (E2 & S2 & C2).
  repeat split; try congruence. now rewrite C2, C1, app_assoc.
Qed.

Lemma pressure_rule_spec (event : json) (t : json) (s s' : db) (out : res unit) :
  get event "event_type" (JStr "") = Ok t ->
  pressure_rule event t s = (out, s') ->
  exists new, appends s s' new /\ Forall (pressure_edge event (events s)) new.
Proof.
  intros Ht. unfold pressure_rule. destruct (str_eq t "OOMKill") eqn:Et.
  2:{ intros [= _ <-]. exists []. split; [apply appends_nil|constructor]. }
  unfold bind, lift, select_events.
  destruct (pressure_params event) as [p|x] eqn:Ep.
  2:{ intros [= _ <-]. exists []. split; [apply appends_nil|constructor]. }
  intros Hloop.
  apply for_each_link_spec in Hloop. destruct Hloop as (He & Hs & new & Hnew & Hall).
  exists new. split; [now repeat split|].
  eapply Forall_impl; [|exact Hall]. intros ed (r & Hr & Hf).
  exists t, p, r. auto.
Qed.

Lemma evidence_rule_spec (event : json) (t : json) (s s' : db) (out : res unit) :
  get event "event_type" (JStr "") = Ok t ->
  evidence_rule event t s = (out, s') ->
  exists new, appends s s' new /\ Forall (evidence_edge event (events s)) new.
Proof.
  intros Ht. unfold evidence_rule. destruct (str_eq t "OOMKillEvidence") eqn:Et.
  2:{ intros [= _ <-]. exists []. split; [apply appends_nil|constructor]. }
  unfold bind, lift, select_events.
  destruct (evidence_params event) as [p|x] eqn:Ep.
  2:{ intros [= _ <-]. exists []. split; [apply appends_nil|constructor]. }
  intros Hloop.
  apply for_each_link_spec in Hloop. destruct Hloop as (He & Hs & new & Hnew & Hall).
  exists new. split; [now repeat split|].
  eapply Forall_impl; [|exact Hall]. intros ed (r & Hr & Hf).
  exists t, p, r. auto.
Qed.

(** The linker only appends edges, each one written by one of its two
    rules over the events of the store. *)
Lemma build_edges_spec (event : json) (s s' : db) (out : res unit) :
  _build_edges event s = (out, s') ->
  exists new, appends s s' new /\ Forall (linked event (events s)) new.
Proof.
  unfold _build_edges, bind, lift.
  destruct (get event "event_type" (JStr "")) as [t|x] eqn:Ht.
  2:{ intros [= _ <-]. exists []. split; [apply appends_nil|constructor]. }
  destruct (pressure_rule event t s) as [[[]|x] sm] eqn:E1.
  - intros E2.
    apply (pressure_rule_spec _ _ _ _ _ Ht) in E1. destruct E1 as (n1 & A1 & F1).
    apply (evidence_rule_spec _ _ _ _ _ Ht) in E2. destruct E2 as (n2 & A2 & F2).
    exists (n1 ++ n2). split; [eapply appends_trans; eauto|].
    apply Forall_app. split.
    + eapply Forall_impl; [|exact F1]. now left.
    + destruct A1 as (He & _). rewrite He in F2.
      eapply Forall_impl; [|exact F2]. now right.
  - intros [= <- <-].
    apply (pressure_rule_spec _ _ _ _ _ Ht) in E1. destruct E1 as (n1 & A1 & F1).
    exists n1. split; [exact A1|]. eapply Forall_impl; [|exact F1]. now left.
Qed.

Lemma appends_grows (s s' : db) (new : list edge_row) :
  appends s s' new -> edge_ids_within s s'.
Proof. intros (_ & _ & Hc) id Hid. now rewrite Hc, has_edge_app, Hid. Qed.

Lemma pressure_rule_stable (event t : json) (s s' s'' : db) (out : res unit) :
  pressure_rule event t s = (out, s') ->
  events s'' = events s ->
  edge_ids_within s' s'' ->
  pressure_rule event t s'' = (out, s'').
Proof.
  unfold pressure_rule. destruct (str_eq t "OOMKill").
  2:{ now intros [= <- _]. }
  unfold bind, lift, select_events.
  destruct (pressure_params event) as [p|x]; [|now intros [= <- _]].
  intros Hloop Hev Hids. rewrite Hev.
  eapply for_each_link_stable; eauto.
Qed.

Lemma evidence_rule_stable (event t : json) (s s' s'' : db) (out : res unit) :
  evidence_rule event t s = (out, s') ->
  events s'' = events s ->
  edge_ids_within s' s'' ->
  evidence_rule event t s'' = (out, s'').
Proof.
  unfold evidence_rule. destruct (str_eq t "OOMKillEvidence").
  2:{ now intros [= <- _]. }
  unfold bind, lift, select_events.
  destruct (evidence_params event) as [p|x]; [|now intros [= <- _]].
  intros Hloop Hev Hids. rewrite Hev.
  eapply for_each_link_stable; eauto.
Qed.

(** Running the linker again on the same record, where the edge ids it
    wrote are taken, gives the same outcome and changes nothing. *)
Lemma build_edges_stable (event : json) (s s' s'' : db) (out : res unit) :
  _build_edges event s = (out, s') ->
  events s'' = events s ->
  edge_ids_within s' s'' ->
  _build_edges event s'' = (out, s'').
Proof.
  unfold _build_edges, bind, lift.
  destruct (get event "event_type" (JStr "")) as [t|x] eqn:Ht.
  2:{ now intros [= <- _]. }
  destruct (pressure_rule event t s) as [[[]|x] sm] eqn:E1.
  - intros E2 Hev Hids.
    destruct (pressure_rule_spec _ _ _ _ _ Ht E1) as (n1 & A1 & _).
    destruct (evidence_rule_spec _ _ _ _ _ Ht E2) as (n2 & A2 & _).
    assert (Hsm : edge_ids_within sm s'')
      by (eapply edge_ids_within_trans; [eapply appends_grows; exact A2|exact Hids]).
    rewrite (pressure_rule_stable _ _ _ _ _ _ E1 Hev Hsm).
    apply (evidence_rule_stable _ _ _ _ _ _ E2); [|exact Hids].
    destruct A1 as (He & _). congruence.
  - intros [= <- <-] Hev Hids.
    now rewrite (pressure_rule_stable _ _ _ _ _ _ E1 Hev Hids).
Qed.

End Linker.

Lemma has_event_app (l1 l2 : list event_row) (id : sqlval) :
  has_event (l1 ++ l2) id = has_event l1 id || has_event l2 id.
Proof. unfold has_event. apply existsb_app. Qed.

Lemma has_snapshot_app (l1 l2 : list snapshot_row) (id : sqlval) :
  has_snapshot (l1 ++ l2) id = has_snapshot l1 id || has_snapshot l2 id.
Proof. unfold has_snapshot. apply existsb_app. Qed.

(** INSERT OR IGNORE always returns, touches the events only, and leaves a
    row with the given id in the table. *)
Lemma insert_or_ignore_event_spec (r : event_row) (s : db) :
  exists s',
    insert_or_ignore_event r s = (Ok tt, s')
    /\ snapshots s' = snapshots s /\ causal_edges s' = causal_edges s
    /\ has_event (events s') (ev_id r) = true
    /\ (has_event (events s) (ev_id r) = true /\ s' = s
        \/ has_event (events s) (ev_id r) = false /\ events s' = events s ++ [r]).
Proof.
  unfold insert_or_ignore_event.
  destruct (has_event (events s) (ev_id r)) eqn:E.
  - exists s. auto 10.
  - eexists. split; [reflexivity|]. simpl. repeat split.
    + rewrite has_event_app. simpl. rewrite sqlval_eqb_refl. apply orb_true_r.
    + now right.
Qed.

Lemma insert_or_ignore_snapshot_spec (r : snapshot_row) (s : db) :
  exists s',
    insert_or_ignore_snapshot r s = (Ok tt, s')
    /\ events s' = events s /\ causal_edges s' = causal_edges s
    /\ has_snapshot (snapshots s') (sn_id r) = true
    /\ (has_snapshot (snapshots s) (sn_id r) = true /\ s' = s
        \/ has_snapshot (snapshots s) (sn_id r) = false
           /\ snapshots s' = snapshots s ++ [r]).
Proof.
  unfold insert_or_ignore_snapshot.
  destruct (has_snapshot (snapshots s) (sn_id r)) eqn:E.
  - exists s. auto 10.
  - eexists. split; [reflexivity|]. simpl. repeat split.
    + rewrite has_snapshot_app. simpl. rewrite sqlval_eqb_refl. apply orb_true_r.
    + now right.
Qed.

Lemma insert_event_present (e : json) (row : event_row) (s : db) :
  event_row_of e = Ok row ->
  has_event (events s) (ev_id row) = true ->
  _insert_event e s = (Ok tt, s).
Proof.
  intros Hrow Hhas. unfold _insert_event, bind, lift. rewrite Hrow.
  unfold insert_or_ignore_event. now rewrite Hhas.
Qed.

Lemma insert_snapshot_present (e : json) (row : snapshot_row) (s : db) :
  snapshot_row_of e = Ok row ->
  has_snapshot (snapshots s) (sn_id row) = true ->
  _insert_snapshot e s = (Ok tt, s).
Proof.
  intros Hrow Hhas. unfold _insert_snapshot, bind, lift. rewrite Hrow.
  unfold insert_or_ignore_snapshot. now rewrite Hhas.
Qed.

Section Replay.
Context `{Runtime}.

Lemma ingest_event_line_replay (line : string) (n n1 : nat) (s s1 : db) :
  ingest_event_line line n s = (Ok n1, s1) ->
  exists n2, ingest_event_line line n1 s1 = (Ok n2, s1).
Proof.
  unfold ingest_event_line. cbv zeta.
  destruct (String.eqb (strip line) "").
  { intros [= <- <-]. now exists n. }
  unfold try_except, bind at 1 4, loads.
  destruct (json_loads (strip line)) as [e|].
  2:{ simpl. intros [= <- <-]. now exists n. }
  unfold ret at 1 4. unfold bind at 1 3.
  unfold _insert_event at 1, bind at 1, lift at 1.
  destruct (event_row_of e) as [row|x] eqn:Erow.
  2:{ destruct (decode_or_integrity_error x) eqn:Ex; [|discriminate].
      intros [= <- <-]. exists n.
      unfold _insert_event, bind, lift. rewrite Erow. now rewrite Ex. }
  destruct (insert_or_ignore_event_spec row s) as (sa & -> & _ & _ & Hhas & _).
  unfold bind at 1.
  destruct (_build_edges e sa) as [[[]|x] sb] eqn:Eb.
  - unfold ret. intros [= <- <-].
    destruct (build_edges_spec _ _ _ _ Eb) as (new & (He & _) & _).
    rewrite (insert_event_present e row sb Erow) by congruence.
    unfold bind.
    rewrite (build_edges_stable _ _ _ _ _ Eb He (edge_ids_within_refl sb)).
    now eexists.
  - destruct (decode_or_integrity_error x) eqn:Ex; [|discriminate].
    unfold ret. intros [= <- <-].
    destruct (build_edges_spec _ _ _ _ Eb) as (new & (He & _) & _).
    rewrite (insert_event_present e row sb Erow) by congruence.
    unfold bind.
    rewrite (build_edges_stable _ _ _ _ _ Eb He (edge_ids_within_refl sb)).
    rewrite Ex. now eexists.
Qed.

Lemma ingest_snapshot_line_replay (line : string) (n n1 : nat) (s s1 : db) :
  ingest_snapshot_line line n s = (Ok n1, s1) ->
  exists n2, ingest_snapshot_line line n1 s1 = (Ok n2, s1).
Proof.
  unfold ingest_snapshot_line, try_except, loads, _insert_snapshot.
  unfold bind, lift, ret, raise. cbv zeta.
  destruct (String.eqb (strip line) "").
  { intros [= <- <-]. now exists n. }
  destruct (json_loads (strip line)) as [e|].
  2:{ simpl. intros [= <- <-]. now exists n. }
  destruct (snapshot_row_of e) as [row|x] eqn:Erow; cbn beta iota.
  2:{ destruct (decode_or_integrity_error x) eqn:Ex; [|discriminate].
      intros [= <- <-]. now exists n. }
  destruct (insert_or_ignore_snapshot_spec row s) as (sa & -> & _ & _ & Hhas & _).
  intros [= <- <-].
  unfold insert_or_ignore_snapshot. rewrite Hhas. now eexists.
Qed.

End Replay.

(** C1. A line that was ingested, whether it holds an event or a snapshot,
    can be ingested again at once: the second pass returns as well, and the
    events, snapshots and causal edges it leaves are those the first pass
    left. *)
Theorem replay_idempotent `{Runtime} (line : string) (n n1 : nat) (s s1 : db) :
  (ingest_event_line line n s = (Ok n1, s1) ->
   exists n2, ingest_event_line line n1 s1 = (Ok n2, s1))
  /\ (ingest_snapshot_line line n s = (Ok n1, s1) ->
      exists n2, ingest_snapshot_line line n1 s1 = (Ok n2, s1)).
Proof.
  split; [apply ingest_event_line_replay|apply ingest_snapshot_line_replay].
Qed.

(* ################################################################# *)
(** * Reachable stores *)

Lemma and_then_ok {A B : Type} (r : res A) (k : A -> res B) (b : B) :
  and_then r k = Ok b -> exists a, r = Ok a /\ k a = Ok b.
Proof. destruct r as [a|x]; simpl; [|discriminate]. intros Hk. now exists a. Qed.

Ltac and_then_inv H :=
  repeat match type of H with
         | and_then _ _ = Ok _ =>
             let a := fresh "a" in
             let E := fresh "E" in
             apply and_then_ok in H; destruct H as (a & E & H)
         end.

Lemma event_row_of_id (e : json) (row : event_row) (id : json) (v : sqlval) :
  event_row_of e = Ok row -> subscript e "id" = Ok id -> adapt id = Ok v ->
  v = ev_id row.
Proof.
  unfold event_row_of. intros Hrow Hid Had. and_then_inv Hrow.
  injection Hrow as <-. simpl. congruence.
Qed.

Lemma event_row_of_timestamp (e : json) (row : event_row) (ts : json) (v : sqlval) :
  event_row_of e = Ok row -> subscript e "timestamp" = Ok ts -> adapt ts = Ok v ->
  v = ev_timestamp row.
Proof.
  unfold event_row_of. intros Hrow Hid Had. and_then_inv Hrow.
  injection Hrow as <-. simpl. congruence.
Qed.

Lemma pressure_params_timestamp (e : json) (p : sqlval * sqlval) :
  pressure_params e = Ok p ->
  exists ts, subscript e "timestamp" = Ok ts /\ adapt ts = Ok (snd p).
Proof.
  unfold pressure_params. intros Hp. and_then_inv Hp. injection Hp as <-.
  eexists. split; eassumption.
Qed.

Lemma evidence_params_timestamp (e : json) (p : sqlval * sqlval * sqlval) :
  evidence_params e = Ok p ->
  exists ts, subscript e "timestamp" = Ok ts /\ adapt ts = Ok (snd p).
Proof.
  unfold evidence_params. intros Hp. and_then_inv Hp. injection Hp as <-.
  eexists. split; eassumption.
Qed.

Section Direction.
Context `{Runtime}.

Lemma pressure_causes_in (node_name timestamp : sqlval) (evs : list event_row)
  (r : event_row) :
  In r (pressure_causes node_name timestamp evs) ->
  In r evs /\ sql_le (ev_timestamp r) timestamp = true.
Proof.
  intros Hr. apply (top_in ev_timestamp) in Hr. destruct Hr as (Hin & Hp).
  split; [exact Hin|]. rewrite !andb_true_iff in Hp. tauto.
Qed.

Lemma evidence_cause_in (pod_name namespace timestamp : sqlval) (evs : list event_row)
  (r : event_row) :
  In r (evidence_cause pod_name namespace timestamp evs) ->
  In r evs /\ sql_le (ev_timestamp r) timestamp = true.
Proof.
  intros Hr. apply (top_in ev_timestamp) in Hr. destruct Hr as (Hin & Hp).
  split; [exact Hin|]. rewrite !andb_true_iff in Hp. tauto.
Qed.

(** At the time an edge is written, its cause is a stored event whose
    timestamp is not after the timestamp of the record that triggered the
    rule. *)
Lemma linked_direction (event : json) (evs : list event_row) (ed : edge_row) :
  linked event evs ed ->
  exists c id effect ts bound,
    In c evs /\ ev_id c = ce_cause_event_id ed
    /\ subscript event "id" = Ok id /\ adapt id = Ok effect
    /\ effect = ce_effect_event_id ed
    /\ subscript event "timestamp" = Ok ts /\ adapt ts = Ok bound
    /\ sql_le (ev_timestamp c) bound = true.
Proof.
  intros [(t & p & r & _ & _ & Hp & Hr & (id & effect & Hid & Had & ->))
         |(t & p & r & _ & _ & Hp & Hr & (id & effect & Hid & Had & ->))].
  - apply pressure_causes_in in Hr. destruct Hr as (Hin & Hle).
    apply pressure_params_timestamp in Hp. destruct Hp as (ts & Hts & Hbound).
    exists r, id, effect, ts, (snd p). simpl. auto 10.
  - apply evidence_cause_in in Hr. destruct Hr as (Hin & Hle).
    apply evidence_params_timestamp in Hp. destruct Hp as (ts & Hts & Hbound).
    exists r, id, effect, ts, (snd p). simpl. auto 10.
Qed.

Lemma insert_event_spec (e : json) (s s' : db) :
  _insert_event e s = (Ok tt, s') ->
  exists row,
    event_row_of e = Ok row
    /\ snapshots s' = snapshots s /\ causal_edges s' = causal_edges s
    /\ has_event (events s') (ev_id row) = true
    /\ (s' = s \/ events s' = events s ++ [row]).
Proof.
  unfold _insert_event, bind, lift.
  destruct (event_row_of e) as [row|x]; [|discriminate].
  destruct (insert_or_ignore_event_spec row s) as (s1 & -> & Hs & Hc & Hhas & Hev).
  intros [= <-]. exists row. repeat split; trivial.
  destruct Hev as [(_ & ->)|(_ & Hev)]; auto.
Qed.

Lemma insert_snapshot_spec (r : json) (s s' : db) (out : res unit) :
  _insert_snapshot r s = (out, s') ->
  events s' = events s /\ causal_edges s' = causal_edges s.
Proof.
  unfold _insert_snapshot, bind, lift.
  destruct (snapshot_row_of r) as [row|x]; [|now intros [= _ <-]].
  destruct (insert_or_ignore_snapshot_spec row s) as (s1 & -> & He & Hc & _).
  now intros [= _ <-].
Qed.

Lemma has_event_in (evs : list event_row) (id : sqlval) :
  has_event evs id = true -> exists row, In row evs /\ ev_id row = id.
Proof.
  unfold has_event. intros Hex. apply existsb_exists in Hex.
  destruct Hex as (row & Hin & Heq). apply sqlval_eqb_eq in Heq. eauto.
Qed.

Lemma cause_not_after_trigger_grows (records records' : list json) (s s' : db)
  (ed : edge_row) :
  (forall e, In e records -> In e records') ->
  (forall row, In row (events s) -> In row (events s')) ->
  cause_not_after_trigger records s ed -> cause_not_after_trigger records' s' ed.
Proof.
  intros Hrec Hsub (c & e & row & Hc & He & Hrest). exists c, e, row. auto.
Qed.

Lemma reached_records_have_rows (records : list json) (s : db) :
  reached records s ->
  forall e, In e records -> exists row, event_row_of e = Ok row.
Proof.
  induction 1 as [|records s s' e Hreach IH Hins| |]; simpl; try assumption.
  - contradiction.
  - intros e0 [<-|He0]; [|now apply IH].
    apply insert_event_spec in Hins. destruct Hins as (row & Hrow & _). eauto.
Qed.

Lemma reached_invariant (records : list json) (s : db) :
  reached records s -> store_invariant records s.
Proof.
  induction 1 as [|records s s' e Hreach (I1 & I2 & I3) Hins
                 |records s s' e out Hreach (I1 & I2 & I3) Hin Hbuild
                 |records s s' r Hreach (I1 & I2 & I3) Hins].
  - repeat split; simpl; intros; contradiction.
  - apply insert_event_spec in Hins.
    destruct Hins as (row & Hrow & Hs & Hc & Hhas & Hev).
    assert (Hsub : forall x, In x (events s) -> In x (events s')).
    { destruct Hev as [-> | ->]; [auto|]. intros x Hx. apply in_or_app. now left. }
    repeat split.
    + intros x Hx. destruct Hev as [->|Hev].
      * destruct (I1 x Hx) as (e0 & He0 & Hr0). exists e0. split; [now right|exact Hr0].
      * rewrite Hev in Hx. apply in_app_or in Hx. destruct Hx as [Hx | [<- | []]].
        -- destruct (I1 x Hx) as (e0 & He0 & Hr0). exists e0. split; [now right|exact Hr0].
        -- exists e. split; [now left|exact Hrow].
    + intros e0 row0 [<-|He0] Hr0.
      * assert (row0 = row) by congruence. subst row0. now apply has_event_in.
      * destruct (I2 e0 row0 He0 Hr0) as (x & Hx & Hid). exists x. auto.
    + intros ed Hed. rewrite Hc in Hed.
      eapply cause_not_after_trigger_grows; [|exact Hsub|apply I3; exact Hed].
      intros e0 He0. now right.
  - apply build_edges_spec in Hbuild.
    destruct Hbuild as (new & (He & Hs & Hc) & Hnew).
    repeat split.
    + intros x Hx. rewrite He in Hx. now apply I1.
    + intros e0 row0 He0 Hr0. rewrite He. exact (I2 e0 row0 He0 Hr0).
    + intros ed Hed. rewrite Hc in Hed. apply in_app_or in Hed.
      destruct Hed as [Hed|Hed].
      * eapply cause_not_after_trigger_grows; [| |apply I3; exact Hed]; [auto|].
        intros x Hx. now rewrite He.
      * rewrite Forall_forall in Hnew. apply Hnew, linked_direction in Hed.
        destruct Hed as (c & id & effect & ts & bound & Hc1 & Hcid & Hid & Had
                         & Heff & Hts & Hb & Hle).
        destruct (reached_records_have_rows _ _ Hreach e Hin) as (row0 & Hrow0).
        exists c, e, row0. rewrite He. repeat split; trivial.
        -- rewrite <- Heff. symmetry. eapply event_row_of_id; eauto.
        -- now rewrite <- (event_row_of_timestamp _ _ _ _ Hrow0 Hts Hb).
  - apply insert_snapshot_spec in Hins. destruct Hins as (He & Hc).
    repeat split.
    + intros x Hx. rewrite He in Hx. now apply I1.
    + intros e0 row0 He0 Hr0. rewrite He. exact (I2 e0 row0 He0 Hr0).
    + intros ed Hed. rewrite Hc in Hed.
      eapply cause_not_after_trigger_grows; [| |apply I3; exact Hed]; [auto|].
      intros x Hx. now rewrite He.
Qed.

(** Where ids fix timestamps, the stored effect carries the timestamp of the
    record that triggered the rule. *)
Lemma trigger_is_stored_effect (records : list json) (s : db) (ed : edge_row) :
  reached records s ->
  ids_fix_timestamps records ->
  cause_not_after_trigger records s ed ->
  cause_not_after_effect s ed.
Proof.
  intros Hreach Hfix (c & e & row & Hc & He & Hrow & Hcid & Heid & Hle).
  destruct (reached_invariant records s Hreach) as (I1 & I2 & _).
  destruct (I2 e row He Hrow) as (x & Hx & Hxid).
  destruct (I1 x Hx) as (e' & He' & Hr').
  pose proof (Hfix e' e x row He' He Hr' Hrow Hxid) as Hsame.
  exists c, x. repeat split; trivial; congruence.
Qed.

End Direction.

Section PipelineReaches.
Context `{Runtime}.

Lemma insert_event_raise (e : json) (s s' : db) (x : exn) :
  _insert_event e s = (Raise x, s') -> s' = s.
Proof.
  unfold _insert_event, bind, lift.
  destruct (event_row_of e) as [row|y]; [|now intros [= _ <-]].
  destruct (insert_or_ignore_event_spec row s) as (s1 & -> & _). discriminate.
Qed.

Lemma insert_snapshot_raise (r : json) (s s' : db) (x : exn) :
  _insert_snapshot r s = (Raise x, s') -> s' = s.
Proof.
  unfold _insert_snapshot, bind, lift.
  destruct (snapshot_row_of r) as [row|y]; [|now intros [= _ <-]].
  destruct (insert_or_ignore_snapshot_spec row s) as (s1 & -> & _). discriminate.
Qed.

(** What one line of events does to the store: nothing, or an insert that
    returned followed by a run of the linker on the same record. *)
Lemma ingest_event_line_cases (line : string) (n : nat) (s s' : db) (out : res nat) :
  ingest_event_line line n s = (out, s') ->
  s' = s
  \/ exists e sa o,
       json_loads (strip line) = Some e
       /\ _insert_event e s = (Ok tt, sa) /\ _build_edges e sa = (o, s').
Proof.
  unfold ingest_event_line. cbv zeta.
  destruct (String.eqb (strip line) ""); [intros [= _ <-]; now left|].
  unfold try_except, loads. unfold bind at 1.
  destruct (json_loads (strip line)) as [e|]; [|intros [= _ <-]; now left].
  unfold ret at 1. unfold bind at 1.
  destruct (_insert_event e s) as [[[]|x] sa] eqn:Ei.
  - unfold bind at 1. destruct (_build_edges e sa) as [[[]|x] sb] eqn:Eb.
    + unfold ret. intros [= _ <-]. right. now exists e, sa, (Ok tt).
    + destruct (decode_or_integrity_error x); intros [= _ <-];
        right; now exists e, sa, (Raise x).
  - apply insert_event_raise in Ei. subst sa.
    destruct (decode_or_integrity_error x); intros [= _ <-]; now left.
Qed.

Lemma watch_event_line_cases (line : string) (s s' : db) (out : res unit) :
  watch_event_line line s = (out, s') ->
  s' = s
  \/ exists e sa o,
       json_loads (strip line) = Some e
       /\ _insert_event e s = (Ok tt, sa) /\ _build_edges e sa = (o, s').
Proof.
  unfold watch_event_line. cbv zeta.
  destruct (String.eqb (strip line) ""); [intros [= _ <-]; now left|].
  unfold try_except, loads. unfold bind at 1.
  destruct (json_loads (strip line)) as [e|]; [|intros [= _ <-]; now left].
  unfold ret at 1. unfold bind at 1.
  destruct (_insert_event e s) as [[[]|x] sa] eqn:Ei.
  - destruct (_build_edges e sa) as [[[]|x] sb] eqn:Eb.
    + intros [= _ <-]. right. now exists e, sa, (Ok tt).
    + destruct (decode_or_integrity_error x); intros [= _ <-];
        right; now exists e, sa, (Raise x).
  - apply insert_event_raise in Ei. subst sa.
    destruct (decode_or_integrity_error x); intros [= _ <-]; now left.
Qed.

Lemma ingest_snapshot_line_cases (line : string) (n : nat) (s s' : db) (out : res nat) :
  ingest_snapshot_line line n s = (out, s') ->
  s' = s \/ exists r, _insert_snapshot r s = (Ok tt, s').
Proof.
  unfold ingest_snapshot_line. cbv zeta.
  destruct (String.eqb (strip line) ""); [intros [= _ <-]; now left|].
  unfold try_except, loads. unfold bind at 1.
  destruct (json_loads (strip line)) as [r|]; [|intros [= _ <-]; now left].
  unfold ret at 1. unfold bind at 1.
  destruct (_insert_snapshot r s) as [[[]|x] sa] eqn:Ei.
  - unfold ret. intros [= _ <-]. right. now exists r.
  - apply insert_snapshot_raise in Ei. subst sa.
    destruct (decode_or_integrity_error x); intros [= _ <-]; now left.
Qed.

Lemma watch_snapshot_line_cases (line : string) (s s' : db) (out : res unit) :
  watch_snapshot_line line s = (out, s') ->
  s' = s \/ exists r, _insert_snapshot r s = (Ok tt, s').
Proof.
  unfold watch_snapshot_line. cbv zeta.
  destruct (String.eqb (strip line) ""); [intros [= _ <-]; now left|].
  unfold try_except, loads. unfold bind at 1.
  destruct (json_loads (strip line)) as [r|]; [|intros [= _ <-]; now left].
  unfold ret at 1.
  destruct (_insert_snapshot r s) as [[[]|x] sa] eqn:Ei.
  - intros [= _ <-]. right. now exists r.
  - apply insert_snapshot_raise in Ei. subst sa.
    destruct (decode_or_integrity_error x); intros [= _ <-]; now left.
Qed.

Lemma decoded_from_refl (lines : list string) (records : list json) :
  decoded_from lines records records.
Proof. intros e He. now left. Qed.

Lemma decoded_from_step (line : string) (lines : list string) (r0 r1 r2 : list json) :
  decoded_from [line] r0 r1 -> decoded_from lines r1 r2 ->
  decoded_from (line :: lines) r0 r2.
Proof.
  intros H1 H2 e He. destruct (H2 e He) as [Hb|(l & Hl & Hd)].
  - destruct (H1 e Hb) as [Hb'|(l & [<-|[]] & Hd)]; [now left|].
    right. exists line. split; [now left|exact Hd].
  - right. exists l. split; [now right|exact Hd].
Qed.

Lemma event_step_reached (line : string) (records : list json) (s s' : db) :
  reached records s ->
  (s' = s
   \/ exists e sa o,
        json_loads (strip line) = Some e
        /\ _insert_event e s = (Ok tt, sa) /\ _build_edges e sa = (o, s')) ->
  exists records', reached records' s' /\ decoded_from [line] records records'.
Proof.
  intros Hreach [->|(e & sa & o & Hd & Hi & Hb)].
  - exists records. split; [exact Hreach|apply decoded_from_refl].
  - exists (e :: records). split.
    + eapply reached_build_edges; [eapply reached_insert_event; eauto|now left|exact Hb].
    + intros e0 [<-|He0]; [right|now left]. exists line. split; [now left|exact Hd].
Qed.

Lemma snapshot_step_reached (records : list json) (s s' : db) :
  reached records s ->
  (s' = s \/ exists r, _insert_snapshot r s = (Ok tt, s')) ->
  reached records s'.
Proof.
  intros Hreach [->|(r & Hi)]; [exact Hreach|].
  eapply reached_insert_snapshot; eauto.
Qed.

Lemma ingest_event_lines_reached (lines : list string) (n : nat) (records : list json)
  (s s' : db) (out : res nat) :
  reached records s ->
  ingest_lines ingest_event_line lines n s = (out, s') ->
  exists records', reached records' s' /\ decoded_from lines records records'.
Proof.
  revert n records s; induction lines as [|line lines IH]; intros n records s Hreach; simpl.
  - unfold ret. intros [= _ <-]. exists records. split; [exact Hreach|].
    apply decoded_from_refl.
  - unfold bind at 1.
    destruct (ingest_event_line line n s) as [[n'|x] sm] eqn:El.
    + intros Hrest. apply ingest_event_line_cases in El.
      destruct (event_step_reached line _ _ _ Hreach El) as (r1 & Hr1 & Hd1).
      destruct (IH _ _ _ Hr1 Hrest) as (r2 & Hr2 & Hd2).
      exists r2. split; [exact Hr2|]. eapply decoded_from_step; eauto.
    + intros [= _ <-]. apply ingest_event_line_cases in El.
      destruct (event_step_reached line _ _ _ Hreach El) as (r1 & Hr1 & Hd1).
      exists r1. split; [exact Hr1|].
      eapply decoded_from_step; [exact Hd1|apply decoded_from_refl].
Qed.

Lemma ingest_snapshot_lines_reached (lines : list string) (n : nat) (records : list json)
  (s s' : db) (out : res nat) :
  reached records s ->
  ingest_lines ingest_snapshot_line lines n s = (out, s') ->
  reached records s'.
Proof.
  revert n s; induction lines as [|line lines IH]; intros n s Hreach; simpl.
  - unfold ret. now intros [= _ <-].
  - unfold bind at 1.
    destruct (ingest_snapshot_line line n s) as [[n'|x] sm] eqn:El.
    + intros Hrest. apply ingest_snapshot_line_cases in El.
      eapply IH; [|exact Hrest]. now apply (snapshot_step_reached records s).
    + intros [= _ <-]. apply ingest_snapshot_line_cases in El.
      now apply (snapshot_step_reached records s).
Qed.

Lemma watch_event_lines_reached (lines : list string) (records : list json)
  (s s' : db) (out : res unit) :
  reached records s ->
  for_each lines watch_event_line s = (out, s') ->
  exists records', reached records' s' /\ decoded_from lines records records'.
Proof.
  revert records s; induction lines as [|line lines IH]; intros records s Hreach; simpl.
  - unfold ret. intros [= _ <-]. exists records. split; [exact Hreach|].
    apply decoded_from_refl.
  - unfold bind at 1.
    destruct (watch_event_line line s) as [[[]|x] sm] eqn:El.
    + intros Hrest. apply watch_event_line_cases in El.
      destruct (event_step_reached line _ _ _ Hreach El) as (r1 & Hr1 & Hd1).
      destruct (IH _ _ Hr1 Hrest) as (r2 & Hr2 & Hd2).
      exists r2. split; [exact Hr2|]. eapply decoded_from_step; eauto.
    + intros [= _ <-]. apply watch_event_line_cases in El.
      destruct (event_step_reached line _ _ _ Hreach El) as (r1 & Hr1 & Hd1).
      exists r1. split; [exact Hr1|].
      eapply decoded_from_step; [exact Hd1|apply decoded_from_refl].
Qed.

Lemma watch_snapshot_lines_reached (lines : list string) (records : list json)
  (s s' : db) (out : res unit) :
  reached records s ->
  for_each lines watch_snapshot_line s = (out, s') ->
  reached records s'.
Proof.
  revert s; induction lines as [|line lines IH]; intros s Hreach; simpl.
  - unfold ret. now intros [= _ <-].
  - unfold bind at 1.
    destruct (watch_snapshot_line line s) as [[[]|x] sm] eqn:El.
    + intros Hrest. apply watch_snapshot_line_cases in El.
      eapply IH; [|exact Hrest]. now apply (snapshot_step_reached records s).
    + intros [= _ <-]. apply watch_snapshot_line_cases in El.
      now apply (snapshot_step_reached records s).
Qed.

(** Batch mode reaches only reached stores. *)
Lemma ingest_events_reached (file : option string) (records : list json)
  (s s' : db) (out : res nat) :
  reached records s ->
  ingest_events file s = (out, s') ->
  exists records', reached records' s'.
Proof.
  intros Hreach. destruct file as [text|]; simpl.
  - intros Hrun. destruct (ingest_event_lines_reached _ _ _ _ _ _ Hreach Hrun) as (r & Hr & _).
    now exists r.
  - intros [= _ <-]. now exists records.
Qed.

Lemma ingest_snapshots_reached (file : option string) (records : list json)
  (s s' : db) (out : res nat) :
  reached records s ->
  ingest_snapshots file s = (out, s') ->
  reached records s'.
Proof.
  intros Hreach. destruct file as [text|]; simpl.
  - now apply ingest_snapshot_lines_reached.
  - now intros [= _ <-].
Qed.

(** So does every turn of tail mode. *)
Lemma watch_cycle_reached (ep sp : option string) (o : offsets) (records : list json)
  (s s' : db) (out : res offsets) :
  reached records s ->
  watch_cycle ep sp o s = (out, s') ->
  exists records', reached records' s'.
Proof.
  intros Hreach. unfold watch_cycle. unfold bind at 1.
  match goal with
  | |- context [match ?m s with _ => _ end] => destruct (m s) as [[pos|x] sm] eqn:E1
  end.
  - assert (H1 : exists r1, reached r1 sm).
    { destruct ep as [text|].
      - revert E1. unfold read_from, bind.
        destruct (for_each (readlines (drop (epos o) text)) watch_event_line s)
          as [[[]|x] s1] eqn:Ef; intros [= _ <-];
          destruct (watch_event_lines_reached _ _ _ _ _ Hreach Ef) as (r & Hr & _);
          now exists r.
      - revert E1. intros [= _ <-]. now exists records. }
    destruct H1 as (r1 & Hr1). unfold bind at 1.
    match goal with
    | |- context [match ?m sm with _ => _ end] => destruct (m sm) as [[pos'|x] sn] eqn:E2
    end.
    + unfold ret. intros [= _ <-]. exists r1.
      destruct sp as [text|].
      * revert E2. unfold read_from, bind.
        destruct (for_each (readlines (drop (spos o) text)) watch_snapshot_line sm)
          as [[[]|x] s1] eqn:Ef; intros [= _ <-];
          now apply (watch_snapshot_lines_reached _ _ _ _ _ Hr1 Ef).
      * revert E2. now intros [= _ <-].
    + intros [= _ <-]. exists r1.
      destruct sp as [text|].
      * revert E2. unfold read_from, bind.
        destruct (for_each (readlines (drop (spos o) text)) watch_snapshot_line sm)
          as [[[]|y] s1] eqn:Ef; intros [= _ <-];
          now apply (watch_snapshot_lines_reached _ _ _ _ _ Hr1 Ef).
      * revert E2. discriminate.
  - intros [= _ <-].
    destruct ep as [text|].
    + revert E1. unfold read_from, bind.
      destruct (for_each (readlines (drop (epos o) text)) watch_event_line s)
        as [[[]|y] s1] eqn:Ef; intros [= _ <-];
        destruct (watch_event_lines_reached _ _ _ _ _ Hreach Ef) as (r & Hr & _);
        now exists r.
    + revert E1. discriminate.
Qed.

End PipelineReaches.

(** C9, as the code has it. In every store the pipeline reaches from the
    empty one, every causal edge has a stored event as its cause whose
    timestamp is not after the timestamp of the ingested record that
    triggered the rule and gave the edge its effect id; and where records
    sharing an id share their timestamp, as the uniqueness of ids asks of
    the input, the effect is a stored event with that timestamp: the
    timestamp of the cause is not after the timestamp of the effect. Without
    that condition on the input the direction can fail. *)
Theorem edge_direction `{Runtime} (records : list json) (s : db) (ed : edge_row) :
  reached records s ->
  In ed (causal_edges s) ->
  cause_not_after_trigger records s ed
  /\ (ids_fix_timestamps records -> cause_not_after_effect s ed).
Proof.
  intros Hreach Hed.
  destruct (reached_invariant records s Hreach) as (_ & _ & I3).
  split; [now apply I3|].
  intros Hfix. apply (trigger_is_stored_effect records); auto.
Qed.

(* ################################################################# *)
(** * Tail mode *)

Lemma length_append (a b : string) :
  String.length (a ++ b) = (String.length a + String.length b)%nat.
Proof. induction a as [|c a IH]; simpl; [reflexivity|now rewrite IH]. Qed.

Lemma drop_append (a b : string) : drop (String.length a) (a ++ b)%string = b.
Proof. induction a as [|c a IH]; simpl; [now destruct b|exact IH]. Qed.

Lemma append_assoc (a b c : string) : ((a ++ b) ++ c = a ++ (b ++ c))%string.
Proof. induction a as [|x a IH]; simpl; [reflexivity|now rewrite IH]. Qed.

Lemma readlines_terminated (a' b : string) :
  readlines ((a' ++ nl) ++ b)%string = readlines (a' ++ nl)%string ++ readlines b.
Proof.
  induction a' as [|c a' IH]; simpl.
  - reflexivity.
  - destruct (Ascii.eqb c newline).
    + simpl. now rewrite IH.
    + rewrite IH.
      assert (Hne : readlines (a' ++ nl)%string <> []).
      { clear. induction a' as [|c a' IH]; simpl; [discriminate|].
        destruct (Ascii.eqb c newline); [discriminate|].
        destruct (readlines (a' ++ nl)%string); [contradiction|discriminate]. }
      destruct (readlines (a' ++ nl)%string) as [|l ls]; [contradiction|reflexivity].
Qed.

Lemma readlines_boundary (a b : string) :
  on_line_boundary a -> readlines (a ++ b)%string = readlines a ++ readlines b.
Proof. intros [->|(a' & ->)]; [reflexivity|apply readlines_terminated]. Qed.

Lemma for_each_app {A : Type} (l1 l2 : list A) (body : A -> M unit) (s : db) :
  for_each (l1 ++ l2) body s = (for_each l1 body ;;; for_each l2 body) s.
Proof.
  revert s; induction l1 as [|x l1 IH]; intros s; simpl.
  - reflexivity.
  - unfold bind in *. destruct (body x s) as [[[]|e] sm]; [|reflexivity].
    now rewrite IH.
Qed.

Section Tail.
Context `{Runtime}.

(** A turn of tail mode on the events file: every line of what was appended
    since the last turn is handled, the last one whether it is terminated or
    not, and the offset moves to the end of the file. *)
Lemma watch_cycle_reads_to_end (old new : string) (o : offsets) (s : db) :
  epos o = String.length old ->
  watch_cycle (Some (old ++ new)%string) None o s =
  (for_each (readlines new) watch_event_line ;;;
   ret (mk_offsets (String.length (old ++ new)%string) (spos o))) s.
Proof.
  intros Hpos. unfold watch_cycle, read_from. rewrite Hpos, drop_append.
  rewrite length_append, Nat.max_r by lia.
  unfold bind, ret.
  destruct (for_each (readlines new) watch_event_line s) as [[[]|x] sm]; reflexivity.
Qed.

(** Two turns whose first read stops on a line boundary do what one turn on
    the whole file does. *)
Lemma watch_two_turns (a b : string) (s : db) :
  on_line_boundary a ->
  watch_and_ingest [(Some a, None); (Some (a ++ b)%string, None)] s =
  watch_and_ingest [(Some (a ++ b)%string, None)] s.
Proof.
  intros Ha.
  pose proof (watch_cycle_reads_to_end EmptyString a (mk_offsets 0 0) s eq_refl) as H1.
  pose proof (watch_cycle_reads_to_end EmptyString (a ++ b)%string (mk_offsets 0 0) s eq_refl)
    as H2.
  simpl in H1, H2. unfold bind, ret in H1, H2.
  rewrite (readlines_boundary a b Ha), for_each_app in H2. unfold bind in H2.
  unfold watch_and_ingest, watch_and_ingest_from, bind, ret.
  rewrite H1, H2.
  destruct (for_each (readlines a) watch_event_line s) as [[[]|x] sm]; [|reflexivity].
  rewrite (watch_cycle_reads_to_end a b (mk_offsets (String.length a) 0) sm eq_refl).
  unfold bind, ret. simpl.
  destruct (for_each (readlines b) watch_event_line sm) as [[[]|x] sn]; reflexivity.
Qed.

End Tail.

(** C3, as the code has it. A turn of tail mode reads from the tracked
    offset to the end of the source as it is then, handles every line read,
    the last one whether its newline has arrived or not, and moves the
    offset to that end; turns whose reads stop on a line boundary do together
    what a single turn on the whole source does. *)
Theorem tail_reads_to_end `{Runtime} (old new : string) (o : offsets) (s : db) :
  (epos o = String.length old ->
   watch_cycle (Some (old ++ new)%string) None o s =
   (for_each (readlines new) watch_event_line ;;;
    ret (mk_offsets (String.length (old ++ new)%string) (spos o))) s)
  /\ (on_line_boundary old ->
      watch_and_ingest [(Some old, None); (Some (old ++ new)%string, None)] s =
      watch_and_ingest [(Some (old ++ new)%string, None)] s).
Proof.
  split; [apply watch_cycle_reads_to_end|apply watch_two_turns].
Qed.

(* ################################################################# *)
(** * Which lines a batch gets through *)

Lemma subscript_get (e : json) (k : string) (v d : json) :
  subscript e k = Ok v -> get e k d = Ok v.
Proof.
  destruct e; simpl; try discriminate.
  destruct (dict_get items k); [auto|discriminate].
Qed.

Lemma link_returns (event : json) (confidence : Q) (r : sqlval) (id : json)
  (effect : sqlval) (s : db) :
  subscript event "id" = Ok id -> adapt id = Ok effect ->
  exists s', link event confidence r s = (Ok tt, s').
Proof.
  intros Hid Had. unfold link, bind, lift, try_except, insert_edge, ret.
  rewrite Hid. simpl. rewrite Had. simpl.
  destruct (has_edge (causal_edges s) _); simpl; [eauto|].
  destruct (fk_ok (events s) r && fk_ok (events s) effect); simpl; eauto.
Qed.

Lemma for_each_link_returns (event : json) (confidence : Q) (rows : list event_row)
  (id : json) (effect : sqlval) (s : db) :
  subscript event "id" = Ok id -> adapt id = Ok effect ->
  exists s', for_each rows (fun r => link event confidence (ev_id r)) s = (Ok tt, s').
Proof.
  intros Hid Had. revert s; induction rows as [|r rows IH]; intros s; simpl.
  - now exists s.
  - unfold bind.
    destruct (link_returns event confidence (ev_id r) id effect s Hid Had) as (sm & ->).
    apply IH.
Qed.

Section Returns.
Context `{Runtime}.

(** On a record that [_insert_event] accepts, the linker returns. *)
Lemma build_edges_returns (e : json) (row : event_row) (s : db) :
  event_row_of e = Ok row -> exists s', _build_edges e s = (Ok tt, s').
Proof.
  unfold event_row_of. intros Hrow. and_then_inv Hrow.
  assert (Ht : exists t, get e "event_type" (JStr "") = Ok t)
    by (eexists; eapply subscript_get; eassumption).
  destruct Ht as (t & Ht).
  unfold _build_edges, bind, lift. rewrite Ht.
  assert (Hp : exists s1, pressure_rule e t s = (Ok tt, s1)).
  { unfold pressure_rule. destruct (str_eq t "OOMKill"); [|now exists s].
    unfold bind, lift, select_events, pressure_params.
    repeat match goal with
           | E : ?x = Ok _ |- context [and_then ?x _] => rewrite E; simpl
           end.
    eapply for_each_link_returns; eassumption. }
  destruct Hp as (s1 & ->).
  unfold evidence_rule. destruct (str_eq t "OOMKillEvidence"); [|now exists s1].
  unfold bind, lift, select_events, evidence_params.
  repeat match goal with
         | E : ?x = Ok _ |- context [and_then ?x _] => rewrite E; simpl
         end.
  eapply for_each_link_returns; eassumption.
Qed.

(** A line that does not decode is skipped. *)
Lemma undecodable_line_skipped (line : string) (n : nat) (s : db) :
  json_loads (strip line) = None -> ingest_event_line line n s = (Ok n, s).
Proof.
  intros Hd. unfold ingest_event_line. cbv zeta.
  destruct (String.eqb (strip line) ""); [reflexivity|].
  unfold try_except, bind, loads. now rewrite Hd.
Qed.

Lemma insert_event_returns (e : json) (row : event_row) (s : db) :
  event_row_of e = Ok row -> exists s', _insert_event e s = (Ok tt, s').
Proof.
  intros Hrow. unfold _insert_event, bind, lift. rewrite Hrow.
  destruct (insert_or_ignore_event_spec row s) as (sa & -> & _). eauto.
Qed.

Lemma acceptable_line_returns (line : string) (n : nat) (s : db) :
  acceptable line -> exists n' s', ingest_event_line line n s = (Ok n', s').
Proof.
  unfold acceptable, ingest_event_line. cbv zeta.
  destruct (String.eqb (strip line) ""); [intros _; unfold ret; eauto|].
  unfold try_except, loads, bind, ret, raise.
  destruct (json_loads (strip line)) as [e|]; cbn beta iota.
  2:{ intros _. now exists n, s. }
  intros (row & Hrow).
  destruct (insert_event_returns e row s Hrow) as (sa & ->).
  destruct (build_edges_returns e row sa Hrow) as (sb & ->).
  now exists (S n), sb.
Qed.

(** A batch of such lines is read to its end. *)
Lemma acceptable_lines_return (lines : list string) (n : nat) (s : db) :
  Forall acceptable lines ->
  exists n' s', ingest_lines ingest_event_line lines n s = (Ok n', s').
Proof.
  intros Hall. revert n s; induction Hall as [|line lines Hline _ IH]; intros n s; simpl.
  - unfold ret. eauto.
  - unfold bind.
    destruct (acceptable_line_returns line n s Hline) as (n1 & s1 & ->). apply IH.
Qed.

End Returns.

(* ################################################################# *)
(** * The linking rules *)

Section Rules.
Context `{Runtime}.

(** The memory-pressure rule takes its causes among the candidates, at most
    three of them, and leaves out no candidate more recent than one it
    takes. *)
Lemma pressure_causes_spec (node_name timestamp : sqlval) (evs : list event_row) :
  let causes := pressure_causes node_name timestamp evs in
  (forall r, In r causes -> In r evs /\ pressure_candidate node_name timestamp r)
  /\ (List.length causes <= 3)%nat
  /\ (forall r, In r evs -> pressure_candidate node_name timestamp r ->
                In r causes
                \/ forall c, In c causes -> sql_le (ev_timestamp r) (ev_timestamp c) = true).
Proof.
  cbv zeta. unfold pressure_causes.
  match goal with |- context [filter ?p evs] => set (q := p) end.
  assert (Hp : forall r, q r = true <-> pressure_candidate node_name timestamp r).
  { intros r. unfold q, pressure_candidate.
    rewrite !andb_true_iff, sql_eq_text. tauto. }
  split; [|split].
  - intros r Hr. apply (top_in ev_timestamp 3 q evs) in Hr. destruct Hr as (Hin & Hq).
    split; [exact Hin|now apply Hp].
  - rewrite length_firstn. apply Nat.le_min_l.
  - intros r Hr Hc.
    destruct (top_most_recent ev_timestamp 3 q evs r Hr (proj2 (Hp r) Hc)) as [Hin|Hle].
    + now left.
    + right. intros c Hcin. specialize (Hle c Hcin).
      destruct Hc as (_ & _ & Hts & _). apply sql_le_not_null in Hts.
      now rewrite key_le_sql_le in Hle.
Qed.

(** The OOM-evidence rule takes at most one cause, a candidate that no
    other candidate is more recent than, and none when there is no
    candidate. *)
Lemma evidence_cause_spec (pod_name namespace timestamp : sqlval) (evs : list event_row) :
  match evidence_cause pod_name namespace timestamp evs with
  | [] => forall r, In r evs -> ~ evidence_candidate pod_name namespace timestamp r
  | [c] =>
      In c evs /\ evidence_candidate pod_name namespace timestamp c
      /\ forall r, In r evs -> evidence_candidate pod_name namespace timestamp r ->
                   sql_le (ev_timestamp r) (ev_timestamp c) = true
  | _ :: _ :: _ => False
  end.
Proof.
  assert (Hp : forall r,
    sql_eq (ev_event_type r) (VText "OOMKill")
    && sql_eq (ev_pod_name r) pod_name
    && sql_eq (ev_namespace r) namespace
    && sql_le (ev_timestamp r) timestamp
    && sql_ge (ev_timestamp r) (sql_datetime timestamp (-90)) = true
    <-> evidence_candidate pod_name namespace timestamp r).
  { intros r. unfold evidence_candidate.
    rewrite !andb_true_iff, sql_eq_text. tauto. }
  unfold evidence_cause.
  match goal with
  | |- context [firstn _ (order_by_desc ?k (filter ?p ?l))] =>
      pose proof (top_one k p l) as H1; pose proof (top_length k 1 p l) as Hlen;
      unfold top in H1, Hlen;
      destruct (firstn 1%nat (order_by_desc k (filter p l))) as [|c [|c' rest]]
  end.
  - simpl in H1. intros r Hr. eapply not_true_iff; [apply Hp|]. now apply H1.
  - simpl in H1. destruct H1 as (Hin & Hq & Hmax). apply Hp in Hq.
    split; [exact Hin|]. split; [exact Hq|]. intros r Hr Hc. pose proof Hc as Hc'.
    apply Hp in Hc'. specialize (Hmax r Hr Hc').
    destruct Hc as (_ & _ & _ & Hts & _). apply sql_le_not_null in Hts.
    now rewrite key_le_sql_le in Hmax.
  - cbn [List.length] in Hlen. lia.
Qed.

End Rules.

(** Text with a [T] after the date is above text with a space there: within
    one calendar day every ISO-8601 timestamp passes a lower bound that
    [datetime] printed. *)
Lemma iso_text_above_datetime_text (date rest rest' : string) :
  sql_ge (VText (date ++ "T" ++ rest)) (VText (date ++ " " ++ rest')) = true.
Proof.
  unfold sql_ge, sql_le. simpl.
  induction date as [|c date IH]; simpl; [reflexivity|].
  unfold Ascii.compare. now rewrite N.compare_refl.
Qed.

(* ################################################################# *)
(** * The pipeline on the examples *)

(** C2, on the code. A memory-pressure event of 10:00:00 and an OOMKill of
    23:19:42 on the same node, the same day, both with ISO-8601 timestamps:
    the batch links them with pattern P001 and confidence 0.9, 47982 seconds
    apart, far outside the 300 seconds of the rule. The lower bound is the
    text [datetime] prints, with a space after the date, and the stored
    timestamp, with a [T] there, is above it as text. *)
Theorem pressure_window_same_day :
  ingest_events (Some (pressure_morning ++ nl ++ oomkill_night ++ nl)%string) empty_db
  = (Ok 2%nat, store_same_day)
  /\ map (fun r => (ev_id r, ev_event_type r, ev_node_name r, ev_timestamp r))
       (events store_same_day)
     = [(VText "e1", VText "NodeMemoryPressure", VText "n1", VText "2026-01-10T10:00:00Z");
        (VText "e2", VText "OOMKill", VText "n1", VText "2026-01-10T23:19:42Z")]
  /\ causal_edges store_same_day
     = [mk_edge (VText "e1->e2") (VText "e1") (VText "e2") "P001" (9 # 10) "direct"]
  /\ sql_datetime (VText "2026-01-10T23:19:42Z") (-300) = VText "2026-01-10 23:14:42"
  /\ exists t1 t2,
       Datetime.parse "2026-01-10T10:00:00Z" = Some t1
       /\ Datetime.parse "2026-01-10T23:19:42Z" = Some t2
       /\ t2 - t1 = 47982 * 1000.
Proof.
  repeat split; try (vm_compute; reflexivity).
  eexists. eexists. repeat split; vm_compute; reflexivity.
Qed.

(** With timestamps in the text form of [datetime] the window is the one of
    the rule: the event of the morning is left out, the event of 23:18:00 is
    linked. *)
Lemma pressure_window_sqlite_text :
  map ce_id
    (causal_edges
       (snd (ingest_events
               (Some (pressure_morning_sqlite ++ nl ++ pressure_late_sqlite ++ nl
                      ++ oomkill_night_sqlite ++ nl)%string) empty_db)))
  = [VText "e0->e2"].
Proof. vm_compute. reflexivity. Qed.

(** C7, on the code. An OOMKill of 10:00:00 and the OOMKillEvidence of
    23:19:42 for the same pod, the same day: no OOMKill lies in the 90
    seconds before the evidence, and the batch still writes an edge, with
    confidence 1.0, to the OOMKill of the morning. *)
Theorem evidence_window_same_day :
  ingest_events (Some (oomkill_morning ++ nl ++ evidence_night ++ nl)%string) empty_db
  = (Ok 2%nat, store_evidence)
  /\ map (fun r => (ev_id r, ev_event_type r, ev_pod_name r, ev_namespace r, ev_timestamp r))
       (events store_evidence)
     = [(VText "k1", VText "OOMKill", VText "web-0", VText "default",
         VText "2026-01-10T10:00:00Z");
        (VText "e3", VText "OOMKillEvidence", VText "web-0", VText "default",
         VText "2026-01-10T23:19:42Z")]
  /\ causal_edges store_evidence
     = [mk_edge (VText "k1->e3") (VText "k1") (VText "e3") "P001" 1 "direct"]
  /\ sql_datetime (VText "2026-01-10T23:19:42Z") (-90) = VText "2026-01-10 23:18:12"
  /\ exists t1 t2,
       Datetime.parse "2026-01-10T10:00:00Z" = Some t1
       /\ Datetime.parse "2026-01-10T23:19:42Z" = Some t2
       /\ t2 - t1 = 47982 * 1000.
Proof.
  repeat split; try (vm_compute; reflexivity).
  eexists. eexists. repeat split; vm_compute; reflexivity.
Qed.

(** C4, on the code. A line that decodes, to an object without ["id"],
    stops the batch with a [KeyError]: the record on the next line, which a
    batch of its own ingests, is never read. *)
Theorem batch_stops_at_record_without_id :
  json_loads "{}" = Some (JObj [])
  /\ ingest_events (Some ("{}" ++ nl ++ oomkill_night ++ nl)%string) empty_db
     = (Raise (KeyError "id"), empty_db)
  /\ exists s, ingest_events (Some (oomkill_night ++ nl)%string) empty_db = (Ok 1%nat, s)
               /\ map ev_id (events s) = [VText "e2"].
Proof.
  repeat split; try (vm_compute; reflexivity).
  eexists. split; vm_compute; reflexivity.
Qed.

(** C3, refuted. The collector has written the first 40 characters of a
    record when a turn of tail mode reads the file: the turn moves the offset
    to 40, past the unfinished line and not to the last line boundary, which
    is 0. When the rest of the line and its newline have arrived the next
    turn reads from 40 on, and the record is in the store after neither turn,
    though a batch over the finished file stores it. *)
Lemma tail_loses_partial_record :
  ~ partial_record_left_for_later
  /\ watch_and_ingest [(Some partial_line, None)] empty_db
     = (Ok (mk_offsets 40 0), empty_db)
  /\ watch_and_ingest [(Some partial_line, None); (Some (oomkill_night ++ nl)%string, None)]
       empty_db
     = (Ok (mk_offsets 139 0), empty_db)
  /\ (partial_line ++ rest_of_line)%string = oomkill_night
  /\ map ev_id (events (snd (ingest_events (Some (oomkill_night ++ nl)%string) empty_db)))
     = [VText "e2"].
Proof.
  split; [|repeat split; vm_compute; reflexivity].
  intros Hclaim.
  destruct (Hclaim EmptyString partial_line rest_of_line (mk_offsets 40 0)
              (mk_offsets 139 0) empty_db empty_db empty_db) as [Hpos _];
    try (vm_compute; reflexivity).
  - now left.
  - discriminate Hpos.
Qed.

Lemma tail_reads_to_end_witness :
  watch_cycle (Some (partial_line ++ "xyz")%string) None (mk_offsets 40 0) empty_db
  = (for_each (readlines "xyz") watch_event_line ;;;
     ret (mk_offsets (String.length (partial_line ++ "xyz")%string) 0)) empty_db
  /\ watch_and_ingest [(Some (pressure_late ++ nl)%string, None);
                       (Some ((pressure_late ++ nl) ++ oomkill_night)%string, None)] empty_db
     = watch_and_ingest [(Some ((pressure_late ++ nl) ++ oomkill_night)%string, None)]
         empty_db.
Proof.
  split.
  - apply (proj1 (tail_reads_to_end partial_line "xyz" (mk_offsets 40 0) empty_db)).
    vm_compute. reflexivity.
  - apply (proj2 (tail_reads_to_end (pressure_late ++ nl)%string oomkill_night
                    (mk_offsets 0 0) empty_db)).
    right. exists pressure_late. reflexivity.
Defined.

Lemma replay_idempotent_witness :
  (exists n2, ingest_event_line oomkill_night 1 store_in_order = (Ok n2, store_in_order))
  /\ (exists n2, ingest_snapshot_line snapshot_line 1 store_with_snapshot
                 = (Ok n2, store_with_snapshot)).
Proof.
  split.
  - apply (proj1 (replay_idempotent oomkill_night 0 1 store_with_pressure store_in_order)).
    vm_compute. reflexivity.
  - apply (proj2 (replay_idempotent snapshot_line 0 1 empty_db store_with_snapshot)).
    vm_compute. reflexivity.
Defined.

(** C10. Ingesting a record whose id is already stored leaves the events
    as they are and runs the linker on that record over the store as it is
    now; when the OOMKill arrived before the memory pressure that preceded
    it, the replay of the OOMKill writes the edge that its first ingestion
    could not. *)
Theorem replay_reruns_linker :
  (forall (R : Runtime) (e : json) (row : event_row) (s : db),
      event_row_of e = Ok row ->
      has_event (events s) (ev_id row) = true ->
      _insert_event e s = (Ok tt, s)
      /\ (_insert_event e ;;; _build_edges e) s = _build_edges e s
      /\ events (snd (_build_edges e s)) = events s)
  /\ map ev_id (events store_out_of_order) = [VText "e2"; VText "e0"]
  /\ causal_edges store_out_of_order = []
  /\ exists s',
       ingest_events (Some (oomkill_night ++ nl)%string) store_out_of_order = (Ok 1%nat, s')
       /\ events s' = events store_out_of_order
       /\ causal_edges s' = [edge_late].
Proof.
  split; [|repeat split; try (vm_compute; reflexivity)].
  - intros R e row s Hrow Hhas.
    pose proof (insert_event_present e row s Hrow Hhas) as Hins.
    split; [exact Hins|]. split.
    + unfold bind. now rewrite Hins.
    + destruct (_build_edges e s) as [out s'] eqn:Eb. simpl.
      destruct (build_edges_spec _ _ _ _ Eb) as (new & (He & _) & _). exact He.
  - eexists. repeat split; vm_compute; reflexivity.
Qed.

Lemma replay_reruns_linker_witness :
  _insert_event (record_of oomkill_night) store_out_of_order = (Ok tt, store_out_of_order)
  /\ (_insert_event (record_of oomkill_night) ;;; _build_edges (record_of oomkill_night))
       store_out_of_order
     = _build_edges (record_of oomkill_night) store_out_of_order
  /\ events (snd (_build_edges (record_of oomkill_night) store_out_of_order))
     = events store_out_of_order.
Proof.
  refine (proj1 replay_reruns_linker python_sqlite (record_of oomkill_night)
            (mk_event (VText "e2") (VText "2026-01-10T23:19:42Z") (VText "OOMKill")
               (VText "") (VText "web-0") (VText "default") (VText "n1") (VText "")
               (JObj []))
            store_out_of_order _ _); vm_compute; reflexivity.
Defined.

Lemma edge_direction_witness :
  cause_not_after_trigger [record_of oomkill_night; record_of pressure_late]
    store_in_order edge_late
  /\ cause_not_after_effect store_in_order edge_late.
Proof.
  destruct (edge_direction [record_of oomkill_night; record_of pressure_late]
              store_in_order edge_late) as [H1 H2].
  - eapply reached_build_edges with (e := record_of oomkill_night) (out := Ok tt)
      (s := store_before_linking);
      [|now left|vm_compute; reflexivity].
    eapply reached_insert_event with (s := store_with_pressure);
      [|vm_compute; reflexivity].
    eapply reached_build_edges with (e := record_of pressure_late) (out := Ok tt)
      (s := store_with_pressure); [|now left|vm_compute; reflexivity].
    eapply reached_insert_event with (s := empty_db); [|vm_compute; reflexivity].
    apply reached_empty.
  - now left.
  - split; [exact H1|apply H2].
    intros e1 e2 r1 r2 [<-|[<-|[]]] [<-|[<-|[]]] E1 E2;
      vm_compute in E1, E2; injection E1 as <-; injection E2 as <-;
      simpl; congruence.
Defined.

(** C9, as the specification words it, fails on the code. Two records share
    the id [e2], the first stamped 09:00:00 and stored, the second stamped
    10:00:30 and ignored by the INSERT; the linker runs on the second and
    links it to the memory pressure [e1] of 10:00:00. The store is one the
    pipeline reaches, by a batch over the three lines, and the stored effect
    of its edge [e1->e2] is the event of 09:00:00: the cause is after the
    effect. *)
Lemma shared_id_turns_edge :
  ~ direction_in_every_reached_store
  /\ reached [record_of oomkill_same_id; record_of pressure_morning; record_of oomkill_early]
       store_shared_id
  /\ ingest_events (Some (oomkill_early ++ nl ++ pressure_morning ++ nl
                          ++ oomkill_same_id ++ nl)%string) empty_db
     = (Ok 3%nat, store_shared_id)
  /\ map (fun r => (ev_id r, ev_timestamp r)) (events store_shared_id)
     = [(VText "e2", VText "2026-01-10T09:00:00Z");
        (VText "e1", VText "2026-01-10T10:00:00Z")]
  /\ causal_edges store_shared_id
     = [mk_edge (VText "e1->e2") (VText "e1") (VText "e2") "P001" (9 # 10) "direct"]
  /\ forall ed, In ed (causal_edges store_shared_id) ->
                ~ cause_not_after_effect store_shared_id ed.
Proof.
  assert (Hturned : forall ed, In ed (causal_edges store_shared_id) ->
                               ~ cause_not_after_effect store_shared_id ed).
  { intros ed [<-|[]] (c & e & Hc & He & Hcid & Heid & Hle).
    simpl in Hc, He.
    destruct Hc as [<-|[<-|[]]]; destruct He as [<-|[<-|[]]];
      simpl in Hcid, Heid; try discriminate; vm_compute in Hle; discriminate. }
  assert (Hreached : reached [record_of oomkill_same_id; record_of pressure_morning;
                              record_of oomkill_early] store_shared_id).
  { eapply reached_build_edges with (e := record_of oomkill_same_id) (out := Ok tt)
      (s := store_early_and_pressure); [|now left|vm_compute; reflexivity].
    eapply reached_insert_event with (s := store_early_and_pressure);
      [|vm_compute; reflexivity].
    eapply reached_insert_event with (s := store_early); [|vm_compute; reflexivity].
    eapply reached_insert_event with (s := empty_db); [|vm_compute; reflexivity].
    apply reached_empty. }
  split; [|split; [exact Hreached|]].
  - intros Hspec.
    apply (Hturned (mk_edge (VText "e1->e2") (VText "e1") (VText "e2") "P001" (9 # 10)
                      "direct")); [now left|].
    eapply Hspec; [exact Hreached|now left].
  - repeat split; try (vm_compute; reflexivity). exact Hturned.
Qed.

(* ################################################################# *)
(** * What every run of the pipeline keeps *)

Section Carries.
Variable P : db -> Prop.

Lemma bind_keeps {A B : Type} (m : M A) (k : A -> M B) (s : db) :
  P (snd (m s)) -> (forall a s1, P s1 -> P (snd (k a s1))) -> P (snd (bind m k s)).
Proof. unfold bind. destruct (m s) as [[a|x] s1]; simpl; auto. Qed.

Lemma try_except_keeps {A : Type} (body : M A) (caught : exn -> bool) (handler : M A)
  (s : db) :
  P (snd (body s)) -> (forall s1, P s1 -> P (snd (handler s1))) ->
  P (snd (try_except body caught handler s)).
Proof.
  unfold try_except. destruct (body s) as [[a|x] s1]; simpl; [auto|].
  destruct (caught x); simpl; auto.
Qed.

Lemma for_each_keeps {A : Type} (l : list A) (body : A -> M unit) (s : db) :
  (forall x s1, P s1 -> P (snd (body x s1))) -> P s -> P (snd (for_each l body s)).
Proof.
  intros Hb. revert s. induction l as [|x l IH]; intros s Hs; [exact Hs|].
  simpl. apply bind_keeps; auto.
Qed.

End Carries.

Section Keeps.
Context `{Runtime}.
Variable P : db -> Prop.
Hypothesis keeps_insert_event :
  forall e s s', P s -> _insert_event e s = (Ok tt, s') -> P s'.
Hypothesis keeps_build_edges :
  forall e s s' o, P s -> _build_edges e s = (o, s') -> P s'.
Hypothesis keeps_insert_snapshot :
  forall r s s', P s -> _insert_snapshot r s = (Ok tt, s') -> P s'.

Lemma event_lines_keep (lines : list string) (n : nat) (s : db) :
  P s -> P (snd (ingest_lines ingest_event_line lines n s)).
Proof.
  revert n s. induction lines as [|line lines IH]; intros n s Hs; [exact Hs|].
  simpl. unfold bind.
  destruct (ingest_event_line line n s) as [[n'|x] s1] eqn:E.
  - apply IH. apply ingest_event_line_cases in E.
    destruct E as [->|(e & sa & o & _ & Ei & Eb)]; eauto.
  - simpl. apply ingest_event_line_cases in E.
    destruct E as [->|(e & sa & o & _ & Ei & Eb)]; eauto.
Qed.

Lemma snapshot_lines_keep (lines : list string) (n : nat) (s : db) :
  P s -> P (snd (ingest_lines ingest_snapshot_line lines n s)).
Proof.
  revert n s. induction lines as [|line lines IH]; intros n s Hs; [exact Hs|].
  simpl. unfold bind.
  destruct (ingest_snapshot_line line n s) as [[n'|x] s1] eqn:E.
  - apply IH. apply ingest_snapshot_line_cases in E.
    destruct E as [->|(r & Ei)]; eauto.
  - simpl. apply ingest_snapshot_line_cases in E.
    destruct E as [->|(r & Ei)]; eauto.
Qed.

Lemma watch_event_lines_keep (lines : list string) (s : db) :
  P s -> P (snd (for_each lines watch_event_line s)).
Proof.
  revert s. induction lines as [|line lines IH]; intros s Hs; [exact Hs|].
  simpl. unfold bind.
  destruct (watch_event_line line s) as [[[]|x] s1] eqn:E.
  - apply IH. apply watch_event_line_cases in E.
    destruct E as [->|(e & sa & o & _ & Ei & Eb)]; eauto.
  - simpl. apply watch_event_line_cases in E.
    destruct E as [->|(e & sa & o & _ & Ei & Eb)]; eauto.
Qed.

Lemma watch_snapshot_lines_keep (lines : list string) (s : db) :
  P s -> P (snd (for_each lines watch_snapshot_line s)).
Proof.
  revert s. induction lines as [|line lines IH]; intros s Hs; [exact Hs|].
  simpl. unfold bind.
  destruct (watch_snapshot_line line s) as [[[]|x] s1] eqn:E.
  - apply IH. apply watch_snapshot_line_cases in E.
    destruct E as [->|(r & Ei)]; eauto.
  - simpl. apply watch_snapshot_line_cases in E.
    destruct E as [->|(r & Ei)]; eauto.
Qed.

Lemma ingest_events_keeps (file : option string) (s : db) :
  P s -> P (snd (ingest_events file s)).
Proof. destruct file; [apply event_lines_keep|trivial]. Qed.

Lemma ingest_snapshots_keeps (file : option string) (s : db) :
  P s -> P (snd (ingest_snapshots file s)).
Proof. destruct file; [apply snapshot_lines_keep|trivial]. Qed.

Lemma watch_cycle_keeps (ep sp : option string) (o : offsets) (s : db) :
  P s -> P (snd (watch_cycle ep sp o s)).
Proof.
  intros Hs. unfold watch_cycle. apply bind_keeps.
  - destruct ep as [text|]; [|exact Hs]. unfold read_from.
    apply bind_keeps; [now apply watch_event_lines_keep|auto].
  - intros pos s1 Hs1. apply bind_keeps; [|auto].
    destruct sp as [text|]; [|exact Hs1]. unfold read_from.
    apply bind_keeps; [now apply watch_snapshot_lines_keep|auto].
Qed.

Lemma watch_and_ingest_from_keeps (turns : list (option string * option string))
  (o : offsets) (s : db) :
  P s -> P (snd (watch_and_ingest_from o turns s)).
Proof.
  revert o s. induction turns as [|[ep sp] turns IH]; intros o s Hs; [exact Hs|].
  simpl. unfold bind.
  pose proof (watch_cycle_keeps ep sp o s Hs) as Hk.
  destruct (watch_cycle ep sp o s) as [[o'|x] s1]; [apply IH|]; exact Hk.
Qed.

End Keeps.

(* ################################################################# *)
(** * Append only *)

Lemma grows_refl (s : db) : grows s s.
Proof. repeat split; exists []; now rewrite app_nil_r. Qed.

Lemma grows_trans (s1 s2 s3 : db) : grows s1 s2 -> grows s2 s3 -> grows s1 s3.
Proof.
  intros ((e1 & E1) & (n1 & N1) & (c1 & C1)) ((e2 & E2) & (n2 & N2) & (c2 & C2)).
  repeat split.
  - exists (e1 ++ e2). now rewrite E2, E1, app_assoc.
  - exists (n1 ++ n2). now rewrite N2, N1, app_assoc.
  - exists (c1 ++ c2). now rewrite C2, C1, app_assoc.
Qed.

Section AppendOnly.
Context `{Runtime}.

Lemma insert_event_grows (e : json) (s s' : db) :
  _insert_event e s = (Ok tt, s') -> grows s s' /\ snapshots s' = snapshots s.
Proof.
  intros Hi. apply insert_event_spec in Hi.
  destruct Hi as (row & _ & Hn & Hc & _ & [->|He]); [split; [apply grows_refl|reflexivity]|].
  split; [|exact Hn]. repeat split.
  - now exists [row].
  - exists []. now rewrite app_nil_r.
  - exists []. now rewrite app_nil_r.
Qed.

Lemma build_edges_grows (e : json) (s s' : db) (o : res unit) :
  _build_edges e s = (o, s') -> grows s s' /\ snapshots s' = snapshots s.
Proof.
  intros Hb. apply build_edges_spec in Hb. destruct Hb as (new & (He & Hn & Hc) & _).
  split; [|exact Hn]. repeat split.
  - exists []. now rewrite app_nil_r.
  - exists []. now rewrite app_nil_r.
  - now exists new.
Qed.

Lemma insert_snapshot_grows (r : json) (s s' : db) :
  _insert_snapshot r s = (Ok tt, s') ->
  grows s s' /\ events s' = events s /\ causal_edges s' = causal_edges s.
Proof.
  unfold _insert_snapshot, bind, lift.
  destruct (snapshot_row_of r) as [row|x]; [|discriminate].
  destruct (insert_or_ignore_snapshot_spec row s) as (s1 & -> & He & Hc & _ & Hs).
  intros [= <-]. split; [|now split].
  destruct Hs as [[_ ->]|[_ Hs]]; [apply grows_refl|]. repeat split.
  - exists []. now rewrite app_nil_r.
  - now exists [row].
  - exists []. now rewrite app_nil_r.
Qed.

Lemma ingest_events_grows (ep : option string) (s : db) :
  grows s (snd (ingest_events ep s))
  /\ snapshots (snd (ingest_events ep s)) = snapshots s.
Proof.
  apply (ingest_events_keeps (fun s' => grows s s' /\ snapshots s' = snapshots s)).
  - intros e s1 s2 [Hg Hs] Hi. apply insert_event_grows in Hi. destruct Hi as [Hg' Hs'].
    split; [eapply grows_trans; eassumption|congruence].
  - intros e s1 s2 o [Hg Hs] Hb. apply build_edges_grows in Hb. destruct Hb as [Hg' Hs'].
    split; [eapply grows_trans; eassumption|congruence].
  - split; [apply grows_refl|reflexivity].
Qed.

Lemma ingest_snapshots_grows (sp : option string) (s : db) :
  grows s (snd (ingest_snapshots sp s))
  /\ events (snd (ingest_snapshots sp s)) = events s
  /\ causal_edges (snd (ingest_snapshots sp s)) = causal_edges s.
Proof.
  apply (ingest_snapshots_keeps
           (fun s' => grows s s' /\ events s' = events s
                      /\ causal_edges s' = causal_edges s)).
  - intros r s1 s2 (Hg & He & Hc) Hi. apply insert_snapshot_grows in Hi.
    destruct Hi as (Hg' & He' & Hc').
    split; [eapply grows_trans; eassumption|split; congruence].
  - split; [apply grows_refl|split; reflexivity].
Qed.

Lemma watch_and_ingest_grows (turns : list (option string * option string)) (s : db) :
  grows s (snd (watch_and_ingest turns s)).
Proof.
  apply (watch_and_ingest_from_keeps (grows s)).
  - intros e s1 s2 Hg Hi. apply insert_event_grows in Hi.
    eapply grows_trans; [eassumption|apply Hi].
  - intros e s1 s2 o Hg Hb. apply build_edges_grows in Hb.
    eapply grows_trans; [eassumption|apply Hb].
  - intros r s1 s2 Hg Hi. apply insert_snapshot_grows in Hi.
    eapply grows_trans; [eassumption|apply Hi].
  - apply grows_refl.
Qed.

End AppendOnly.

(** X1. The pipeline only appends: a batch of events, a batch of snapshots
    and any number of turns of tail mode leave every row that was in the
    store where it was, whether they return or raise; a batch of events does
    not touch the snapshots, a batch of snapshots touches neither the events
    nor the edges. *)
Theorem store_append_only `{Runtime} (ep sp : option string)
  (turns : list (option string * option string)) (s : db) :
  (grows s (snd (ingest_events ep s))
   /\ snapshots (snd (ingest_events ep s)) = snapshots s)
  /\ (grows s (snd (ingest_snapshots sp s))
      /\ events (snd (ingest_snapshots sp s)) = events s
      /\ causal_edges (snd (ingest_snapshots sp s)) = causal_edges s)
  /\ grows s (snd (watch_and_ingest turns s)).
Proof.
  split; [apply ingest_events_grows|split];
    [apply ingest_snapshots_grows|apply watch_and_ingest_grows].
Qed.

(* ################################################################# *)
(** * Ids stay unique *)

Lemma nodup_snoc {A : Type} (l : list A) (x : A) :
  NoDup l -> ~ In x l -> NoDup (l ++ [x]).
Proof.
  induction l as [|y l IH]; simpl; intros Hl Hx; [repeat constructor; auto|].
  inversion Hl as [|? ? Hy Hl']; subst. constructor.
  - rewrite in_app_iff. simpl. intros [Hin|[->|[]]]; [contradiction|]. apply Hx. now left.
  - apply IH; [assumption|]. intros Hin. apply Hx. now right.
Qed.

Lemma existsb_id_false {A : Type} (id_of : A -> sqlval) (l : list A) (id : sqlval) :
  existsb (fun r => sqlval_eqb (id_of r) id) l = false -> ~ In id (map id_of l).
Proof.
  induction l as [|r l IH]; simpl; [tauto|].
  intros Hf [Hr|Hin]; apply orb_false_iff in Hf; destruct Hf as [Hf1 Hf2].
  - subst id. now rewrite sqlval_eqb_refl in Hf1.
  - now apply IH.
Qed.

Section UniqueIds.
Context `{Runtime}.

Lemma insert_event_unique (e : json) (s s' : db) :
  unique_ids s -> _insert_event e s = (Ok tt, s') -> unique_ids s'.
Proof.
  intros (He & Hn & Hc). unfold _insert_event, bind, lift.
  destruct (event_row_of e) as [row|x]; [|discriminate].
  unfold insert_or_ignore_event.
  destruct (has_event (events s) (ev_id row)) eqn:Eh; intros [= <-]; [now repeat split|].
  repeat split; simpl; [|assumption|assumption].
  rewrite map_app. apply nodup_snoc; [assumption|].
  now apply (existsb_id_false ev_id).
Qed.

Lemma insert_snapshot_unique (r : json) (s s' : db) :
  unique_ids s -> _insert_snapshot r s = (Ok tt, s') -> unique_ids s'.
Proof.
  intros (He & Hn & Hc). unfold _insert_snapshot, bind, lift.
  destruct (snapshot_row_of r) as [row|x]; [|discriminate].
  unfold insert_or_ignore_snapshot.
  destruct (has_snapshot (snapshots s) (sn_id row)) eqn:Eh; intros [= <-];
    [now repeat split|].
  repeat split; simpl; [assumption| |assumption].
  rewrite map_app. apply nodup_snoc; [assumption|].
  now apply (existsb_id_false sn_id).
Qed.

Lemma insert_edge_unique (r : edge_row) (s : db) :
  unique_ids s -> unique_ids (snd (insert_edge r s)).
Proof.
  intros (He & Hn & Hc). unfold insert_edge.
  destruct (has_edge (causal_edges s) (ce_id r)) eqn:Eh; [now repeat split|].
  destruct (fk_ok (events s) (ce_cause_event_id r)
            && fk_ok (events s) (ce_effect_event_id r)); [|now repeat split].
  repeat split; simpl; [assumption|assumption|].
  rewrite map_app. apply nodup_snoc; [assumption|].
  now apply (existsb_id_false ce_id).
Qed.

Lemma link_unique (event : json) (confidence : Q) (r : sqlval) (s : db) :
  unique_ids s -> unique_ids (snd (link event confidence r s)).
Proof.
  intros Hs. unfold link. apply bind_keeps; [exact Hs|].
  intros id s1 Hs1. apply try_except_keeps; [|auto].
  apply bind_keeps; [exact Hs1|]. intros effect s2 Hs2. now apply insert_edge_unique.
Qed.

Lemma build_edges_unique (e : json) (s s' : db) (o : res unit) :
  unique_ids s -> _build_edges e s = (o, s') -> unique_ids s'.
Proof.
  intros Hs Hb. change s' with (snd (o, s')). rewrite <- Hb. clear Hb.
  unfold _build_edges. apply bind_keeps; [exact Hs|]. intros t s1 Hs1.
  apply bind_keeps.
  - unfold pressure_rule. destruct (str_eq t "OOMKill"); [|exact Hs1].
    apply bind_keeps; [exact Hs1|]. intros p s2 Hs2.
    apply bind_keeps; [exact Hs2|]. intros rows s3 Hs3.
    apply for_each_keeps; [|exact Hs3]. intros r s4 Hs4. now apply link_unique.
  - intros _ s2 Hs2. unfold evidence_rule. destruct (str_eq t "OOMKillEvidence"); [|exact Hs2].
    apply bind_keeps; [exact Hs2|]. intros p s3 Hs3.
    apply bind_keeps; [exact Hs3|]. intros rows s4 Hs4.
    apply for_each_keeps; [|exact Hs4]. intros r s5 Hs5. now apply link_unique.
Qed.

End UniqueIds.

(** X2. Ids stay unique: from a store in which no two events, no two
    snapshots and no two edges share an id, a batch of events, a batch of
    snapshots and any number of turns of tail mode reach such a store again,
    whatever the files hold and whether the run returns or raises. *)
Theorem ids_stay_unique `{Runtime} (ep sp : option string)
  (turns : list (option string * option string)) (s : db) :
  unique_ids s ->
  unique_ids (snd (ingest_events ep s))
  /\ unique_ids (snd (ingest_snapshots sp s))
  /\ unique_ids (snd (watch_and_ingest turns s)).
Proof.
  intros Hs. split; [|split].
  - apply (ingest_events_keeps unique_ids); trivial.
    + intros e s1 s2 H1 Hi. eapply insert_event_unique; eassumption.
    + intros e s1 s2 o H1 Hb. eapply build_edges_unique; eassumption.
  - apply (ingest_snapshots_keeps unique_ids); trivial.
    intros r s1 s2 H1 Hi. eapply insert_snapshot_unique; eassumption.
  - apply (watch_and_ingest_from_keeps unique_ids); trivial.
    + intros e s1 s2 H1 Hi. eapply insert_event_unique; eassumption.
    + intros e s1 s2 o H1 Hb. eapply build_edges_unique; eassumption.
    + intros r s1 s2 H1 Hi. eapply insert_snapshot_unique; eassumption.
Qed.

Lemma ids_stay_unique_witness :
  unique_ids (snd (ingest_events (Some (oomkill_night ++ nl ++ evidence_night ++ nl)%string)
                     store_with_pressure))
  /\ unique_ids (snd (ingest_snapshots (Some (snapshot_line ++ nl ++ snapshot_line ++ nl)%string)
                        store_with_pressure))
  /\ unique_ids (snd (watch_and_ingest
                        [(Some (pressure_late ++ nl)%string, Some (snapshot_line ++ nl)%string);
                         (Some (pressure_late ++ nl ++ oomkill_night ++ nl)%string,
                          Some (snapshot_line ++ nl)%string)]
                        store_with_pressure)).
Proof.
  apply (ids_stay_unique (H := python_sqlite)).
  unfold unique_ids. simpl. repeat split; repeat constructor; simpl; tauto.
Defined.

(* ################################################################# *)
(** * Where the edges of a store come from *)

Section Provenance.
Context `{Runtime}.

Lemma cause_by_rule_grows (s s' : db) (ed : edge_row) :
  (forall row, In row (events s) -> In row (events s')) ->
  cause_by_rule s ed -> cause_by_rule s' ed.
Proof.
  intros Hsub (Hp & Ht & c & Hc & Hid & Hr). split; [exact Hp|split; [exact Ht|]].
  exists c. auto.
Qed.

Lemma pressure_causes_type (node_name timestamp : sqlval) (evs : list event_row)
  (r : event_row) :
  In r (pressure_causes node_name timestamp evs) ->
  In r evs /\ ev_event_type r = VText "NodeMemoryPressure".
Proof.
  unfold pressure_causes. intros Hin. apply in_firstn in Hin.
  apply (Permutation_in _ (order_by_desc_perm _ _)) in Hin.
  apply filter_In in Hin. destruct Hin as [Hin Hf]. split; [exact Hin|].
  repeat (apply andb_true_iff in Hf; destruct Hf as [Hf ?]).
  now apply sql_eq_text.
Qed.

Lemma evidence_cause_type (pod_name namespace timestamp : sqlval) (evs : list event_row)
  (r : event_row) :
  In r (evidence_cause pod_name namespace timestamp evs) ->
  In r evs /\ ev_event_type r = VText "OOMKill".
Proof.
  unfold evidence_cause. intros Hin. apply in_firstn in Hin.
  apply (Permutation_in _ (order_by_desc_perm _ _)) in Hin.
  apply filter_In in Hin. destruct Hin as [Hin Hf]. split; [exact Hin|].
  repeat (apply andb_true_iff in Hf; destruct Hf as [Hf ?]).
  now apply sql_eq_text.
Qed.

Lemma linked_cause_by_rule (e : json) (s : db) (ed : edge_row) :
  linked e (events s) ed -> cause_by_rule s ed.
Proof.
  intros [(t & p & r & _ & _ & _ & Hin & id & effect & _ & _ & ->)
         |(t & p & r & _ & _ & _ & Hin & id & effect & _ & _ & ->)]; simpl.
  - apply pressure_causes_type in Hin. destruct Hin as [Hin Hty].
    split; [reflexivity|split; [reflexivity|]]. exists r. simpl. auto.
  - apply evidence_cause_type in Hin. destruct Hin as [Hin Hty].
    split; [reflexivity|split; [reflexivity|]]. exists r. simpl. auto.
Qed.

Lemma reached_cause_by_rule (records : list json) (s : db) :
  reached records s -> forall ed, In ed (causal_edges s) -> cause_by_rule s ed.
Proof.
  induction 1 as [|records s s' e Hr IH Hi|records s s' e out Hr IH He Hb
                 |records s s' r Hr IH Hi]; intros ed Hed.
  - destruct Hed.
  - apply insert_event_spec in Hi. destruct Hi as (row & _ & _ & Hc & _ & Hev).
    rewrite Hc in Hed. apply (cause_by_rule_grows s); [|auto].
    destruct Hev as [->|Hev]; [auto|]. intros x Hx. rewrite Hev. apply in_or_app. now left.
  - apply build_edges_spec in Hb. destruct Hb as (new & (Hev & _ & Hc) & Hnew).
    rewrite Hc in Hed. apply in_app_or in Hed. destruct Hed as [Hed|Hed].
    + apply (cause_by_rule_grows s); [now rewrite Hev|auto].
    + rewrite Forall_forall in Hnew. apply Hnew in Hed.
      apply (cause_by_rule_grows s); [now rewrite Hev|].
      eapply linked_cause_by_rule; eassumption.
  - apply insert_snapshot_spec in Hi. destruct Hi as [Hev Hc].
    rewrite Hc in Hed. apply (cause_by_rule_grows s); [now rewrite Hev|auto].
Qed.

End Provenance.

Lemma store_in_order_reached :
  reached [record_of oomkill_night; record_of pressure_late] store_in_order.
Proof.
  eapply reached_build_edges with (e := record_of oomkill_night) (out := Ok tt)
    (s := store_before_linking);
    [|now left|vm_compute; reflexivity].
  eapply reached_insert_event with (s := store_with_pressure);
    [|vm_compute; reflexivity].
  eapply reached_build_edges with (e := record_of pressure_late) (out := Ok tt)
    (s := store_with_pressure); [|now left|vm_compute; reflexivity].
  eapply reached_insert_event with (s := empty_db); [|vm_compute; reflexivity].
  apply reached_empty.
Defined.

(** X3. Every edge of a store the pipeline reaches was written by one of the
    two linking rules: its pattern is P001 and its type direct, its cause and
    its effect are ids of stored events, and either its confidence is 0.9 and
    the cause is a stored NodeMemoryPressure event, or its confidence is 1.0
    and the cause is a stored OOMKill event. *)
Theorem edges_written_by_rules `{Runtime} (records : list json) (s : db) (ed : edge_row) :
  reached records s -> In ed (causal_edges s) -> written_by_rule s ed.
Proof.
  intros Hr Hed.
  destruct (reached_cause_by_rule records s Hr ed Hed) as (Hp & Ht & c & Hc & Hid & Hrule).
  destruct (reached_invariant records s Hr) as (_ & I2 & I3).
  destruct (I3 ed Hed) as (c' & e & row & _ & He & Hrow & _ & Heff & _).
  destruct (I2 e row He Hrow) as (stored & Hstored & Hsid).
  split; [exact Hp|split; [exact Ht|]].
  exists c, stored. repeat split; try assumption. congruence.
Qed.

Lemma edges_written_by_rules_witness : written_by_rule store_in_order edge_late.
Proof.
  apply (edges_written_by_rules (H := python_sqlite)
           [record_of oomkill_night; record_of pressure_late]).
  - exact store_in_order_reached.
  - simpl. now left.
Defined.

(* ################################################################# *)
(** * Tail mode and batch mode *)

Lemma same_outcome_bind {A B A' B' : Type} (m : M A) (m' : M A') (k : A -> M B)
  (k' : A' -> M B') (s : db) :
  same_outcome (m s) (m' s) ->
  (forall a a' s1, same_outcome (k a s1) (k' a' s1)) ->
  same_outcome (bind m k s) (bind m' k' s).
Proof.
  unfold same_outcome, bind. intros [Hs Ho] Hk.
  destruct (m s) as [[a|x] s1], (m' s) as [[a'|x'] s1']; simpl in *; subst;
    try contradiction; [apply Hk|now split].
Qed.

Lemma same_outcome_ret {A B : Type} (a : A) (b : B) (s : db) :
  same_outcome (ret a s) (ret b s).
Proof. now split. Qed.

Lemma append_empty_r (a : string) : (a ++ "")%string = a.
Proof. induction a as [|c a IH]; simpl; [reflexivity|now rewrite IH]. Qed.

Section TailAndBatch.
Context `{Runtime}.

Lemma watch_event_line_batch (line : string) (n : nat) (s : db) :
  same_outcome (watch_event_line line s) (ingest_event_line line n s).
Proof.
  unfold watch_event_line, ingest_event_line. cbv zeta.
  destruct (String.eqb (strip line) ""); [apply same_outcome_ret|].
  unfold try_except, same_outcome, loads, bind, ret, raise.
  destruct (json_loads (strip line)) as [e|]; simpl; [|now split].
  destruct (_insert_event e s) as [[[]|x] s1]; simpl.
  - destruct (_build_edges e s1) as [[[]|x] s2]; simpl; [now split|].
    destruct (decode_or_integrity_error x); now split.
  - destruct (decode_or_integrity_error x); now split.
Qed.

Lemma watch_snapshot_line_batch (line : string) (n : nat) (s : db) :
  same_outcome (watch_snapshot_line line s) (ingest_snapshot_line line n s).
Proof.
  unfold watch_snapshot_line, ingest_snapshot_line. cbv zeta.
  destruct (String.eqb (strip line) ""); [apply same_outcome_ret|].
  unfold try_except, same_outcome, loads, bind, ret, raise.
  destruct (json_loads (strip line)) as [e|]; simpl; [|now split].
  destruct (_insert_snapshot e s) as [[[]|x] s1]; simpl; [now split|].
  destruct (decode_or_integrity_error x); now split.
Qed.

Lemma watch_event_lines_batch (lines : list string) (n : nat) (s : db) :
  same_outcome (for_each lines watch_event_line s)
    (ingest_lines ingest_event_line lines n s).
Proof.
  revert n s. induction lines as [|line lines IH]; intros n s; [apply same_outcome_ret|].
  simpl. apply same_outcome_bind; [apply watch_event_line_batch|].
  intros _ n' s1. apply IH.
Qed.

Lemma watch_snapshot_lines_batch (lines : list string) (n : nat) (s : db) :
  same_outcome (for_each lines watch_snapshot_line s)
    (ingest_lines ingest_snapshot_line lines n s).
Proof.
  revert n s. induction lines as [|line lines IH]; intros n s; [apply same_outcome_ret|].
  simpl. apply same_outcome_bind; [apply watch_snapshot_line_batch|].
  intros _ n' s1. apply IH.
Qed.

Lemma readlines_chunks (c : string) (rest : list string) :
  (rest <> [] -> on_line_boundary c) ->
  readlines (concat_text (c :: rest)) = readlines c ++ readlines (concat_text rest).
Proof.
  intros Hc. simpl. destruct rest as [|c' rest].
  - simpl. now rewrite append_empty_r, app_nil_r.
  - apply readlines_boundary. apply Hc. discriminate.
Qed.

Lemma growing_reads_all (chunks : list string) (prefix : string) (o : offsets) (s : db) :
  epos o = String.length prefix ->
  Forall on_line_boundary (removelast chunks) ->
  same_outcome (watch_and_ingest_from o (growing prefix chunks) s)
    (for_each (readlines (concat_text chunks)) watch_event_line s).
Proof.
  revert prefix o s. induction chunks as [|c rest IH]; intros prefix o s Ho Hb;
    [apply same_outcome_ret|].
  cbn [growing watch_and_ingest_from].
  rewrite readlines_chunks.
  2:{ intros Hne. destruct rest as [|c' rest]; [contradiction|]. now inversion Hb. }
  unfold bind at 1. rewrite (watch_cycle_reads_to_end prefix c o s Ho).
  rewrite for_each_app. unfold bind, ret.
  destruct (for_each (readlines c) watch_event_line s) as [[[]|x] s1]; [|now split].
  apply IH; [reflexivity|].
  destruct rest as [|c' rest]; [constructor|now inversion Hb].
Qed.

End TailAndBatch.

(** X4. The first turn of tail mode does what batch mode does: on the same
    two files and from the same store, [watch_and_ingest] after one turn and
    [ingest_events] followed by [ingest_snapshots] leave the same store, and
    either both return or both raise the same exception. *)
Theorem tail_first_turn_is_batch `{Runtime} (ep sp : option string) (s : db) :
  same_outcome (watch_and_ingest [(ep, sp)] s)
    ((ingest_events ep ;;; ingest_snapshots sp) s).
Proof.
  unfold watch_and_ingest, watch_and_ingest_from, watch_cycle.
  assert (Hassoc : forall (A B C : Type) (m : M A) (k : A -> M B) (k' : B -> M C) (t : db),
             bind (bind m k) k' t = bind m (fun a => bind (k a) k') t).
  { intros A B C m k k' t. unfold bind. destruct (m t) as [[a|x] t1]; reflexivity. }
  rewrite Hassoc. apply same_outcome_bind.
  - destruct ep as [text|]; [|apply same_outcome_ret].
    unfold read_from, ingest_events. cbn [drop epos].
    change (for_each (readlines text) watch_event_line ;;;
            ret (Nat.max 0 (String.length text)))
      with (bind (for_each (readlines text) watch_event_line)
              (fun _ => ret (Nat.max 0 (String.length text)))).
    pose proof (watch_event_lines_batch (readlines text) O s) as [Hs Ho].
    unfold same_outcome, bind, ret.
    destruct (for_each (readlines text) watch_event_line s) as [[[]|x] s1],
      (ingest_lines ingest_event_line (readlines text) 0 s) as [[n|y] s1'];
      simpl in *; try contradiction; now split.
  - intros pos n s1. rewrite Hassoc.
    replace (ingest_snapshots sp s1)
      with (bind (ingest_snapshots sp) (fun n => ret n) s1).
    2:{ unfold bind, ret. destruct (ingest_snapshots sp s1) as [[a|x] t]; reflexivity. }
    apply same_outcome_bind.
    + destruct sp as [text|]; [|apply same_outcome_ret].
      unfold read_from, ingest_snapshots. cbn [drop spos].
      pose proof (watch_snapshot_lines_batch (readlines text) O s1) as [Hs Ho].
      unfold same_outcome, bind, ret.
      destruct (for_each (readlines text) watch_snapshot_line s1) as [[[]|x] s2],
        (ingest_lines ingest_snapshot_line (readlines text) 0 s1) as [[m|y] s2'];
        simpl in *; try contradiction; now split.
    + intros pos' m s2. now split.
Qed.

(** X5. Tail mode over an events file that grows between the turns, where
    every turn but the last finds the file ended on a line boundary, does
    what one batch over the final file does: the same store is left, and
    either both return or both raise the same exception. *)
Theorem tail_over_growing_file_is_batch `{Runtime} (chunks : list string) (s : db) :
  Forall on_line_boundary (removelast chunks) ->
  same_outcome (watch_and_ingest (growing "" chunks) s)
    (ingest_events (Some (concat_text chunks)) s).
Proof.
  intros Hb. unfold watch_and_ingest, ingest_events.
  pose proof (growing_reads_all chunks "" (mk_offsets 0 0) s eq_refl Hb) as [Hs Ho].
  pose proof (watch_event_lines_batch (readlines (concat_text chunks)) O s) as [Hs' Ho'].
  split; [congruence|].
  destruct (fst (watch_and_ingest_from (mk_offsets 0 0) (growing "" chunks) s)),
    (fst (for_each (readlines (concat_text chunks)) watch_event_line s)),
    (fst (ingest_lines ingest_event_line (readlines (concat_text chunks)) 0 s));
    try contradiction; congruence.
Qed.

Lemma tail_over_growing_file_is_batch_witness :
  same_outcome
    (watch_and_ingest
       (growing "" [(pressure_late ++ nl)%string; (oomkill_night ++ nl)%string; partial_line])
       empty_db)
    (ingest_events
       (Some (concat_text [(pressure_late ++ nl)%string; (oomkill_night ++ nl)%string;
                           partial_line]))
       empty_db).
Proof.
  apply (tail_over_growing_file_is_batch (H := python_sqlite)).
  cbn [removelast].
  constructor; [right; eexists; reflexivity|].
  constructor; [right; eexists; reflexivity|]. constructor.
Defined.

(* ################################################################# *)
(** * Events and snapshots do not meet *)

Section Blind.

Lemma ret_snapshot_blind {A : Type} (a : A) : snapshot_blind (ret a).
Proof. now intros s sn. Qed.

Lemma lift_snapshot_blind {A : Type} (r : res A) : snapshot_blind (lift r).
Proof. now intros s sn. Qed.

Lemma bind_snapshot_blind {A B : Type} (m : M A) (k : A -> M B) :
  snapshot_blind m -> (forall a, snapshot_blind (k a)) -> snapshot_blind (bind m k).
Proof.
  intros Hm Hk s sn. unfold bind. rewrite Hm.
  destruct (m s) as [[a|x] s1]; simpl; [apply Hk|reflexivity].
Qed.

Lemma try_except_snapshot_blind {A : Type} (body : M A) (caught : exn -> bool)
  (handler : M A) :
  snapshot_blind body -> snapshot_blind handler ->
  snapshot_blind (try_except body caught handler).
Proof.
  intros Hb Hh s sn. unfold try_except. rewrite Hb.
  destruct (body s) as [[a|x] s1]; simpl; [reflexivity|].
  destruct (caught x); [apply Hh|reflexivity].
Qed.

Lemma for_each_snapshot_blind {A : Type} (l : list A) (body : A -> M unit) :
  (forall x, snapshot_blind (body x)) -> snapshot_blind (for_each l body).
Proof.
  intros Hb. induction l as [|x l IH]; [apply ret_snapshot_blind|].
  simpl. apply bind_snapshot_blind; auto.
Qed.

Lemma ret_event_blind {A : Type} (a : A) : event_blind (ret a).
Proof. now intros s ev ce. Qed.

Lemma bind_event_blind {A B : Type} (m : M A) (k : A -> M B) :
  event_blind m -> (forall a, event_blind (k a)) -> event_blind (bind m k).
Proof.
  intros Hm Hk s ev ce. unfold bind. rewrite Hm.
  destruct (m s) as [[a|x] s1]; simpl; [apply Hk|reflexivity].
Qed.

Lemma try_except_event_blind {A : Type} (body : M A) (caught : exn -> bool)
  (handler : M A) :
  event_blind body -> event_blind handler ->
  event_blind (try_except body caught handler).
Proof.
  intros Hb Hh s ev ce. unfold try_except. rewrite Hb.
  destruct (body s) as [[a|x] s1]; simpl; [reflexivity|].
  destruct (caught x); [apply Hh|reflexivity].
Qed.

Context `{Runtime}.

Lemma loads_snapshot_blind (line : string) : snapshot_blind (loads line).
Proof. unfold loads. now destruct (json_loads line); intros s sn. Qed.

Lemma loads_event_blind (line : string) : event_blind (loads line).
Proof. unfold loads. now destruct (json_loads line); intros s ev ce. Qed.

Lemma insert_event_snapshot_blind (e : json) : snapshot_blind (_insert_event e).
Proof.
  unfold _insert_event. apply bind_snapshot_blind; [apply lift_snapshot_blind|].
  intros row s sn. unfold insert_or_ignore_event, with_snapshots. simpl.
  now destruct (has_event (events s) (ev_id row)).
Qed.

Lemma link_snapshot_blind (event : json) (confidence : Q) (r : sqlval) :
  snapshot_blind (link event confidence r).
Proof.
  unfold link. apply bind_snapshot_blind; [apply lift_snapshot_blind|]. intros id.
  apply try_except_snapshot_blind; [|apply ret_snapshot_blind].
  apply bind_snapshot_blind; [apply lift_snapshot_blind|].
  intros effect s sn. unfold insert_edge, with_snapshots. simpl.
  destruct (has_edge (causal_edges s) _); [reflexivity|].
  now destruct (fk_ok (events s) r && fk_ok (events s) effect).
Qed.

Lemma build_edges_snapshot_blind (e : json) : snapshot_blind (_build_edges e).
Proof.
  unfold _build_edges. apply bind_snapshot_blind; [apply lift_snapshot_blind|]. intros t.
  apply bind_snapshot_blind; [|intros _].
  - unfold pressure_rule. destruct (str_eq t "OOMKill"); [|apply ret_snapshot_blind].
    apply bind_snapshot_blind; [apply lift_snapshot_blind|]. intros p.
    apply bind_snapshot_blind; [now intros s sn|]. intros rows.
    apply for_each_snapshot_blind. intros r. apply link_snapshot_blind.
  - unfold evidence_rule. destruct (str_eq t "OOMKillEvidence"); [|apply ret_snapshot_blind].
    apply bind_snapshot_blind; [apply lift_snapshot_blind|]. intros p.
    apply bind_snapshot_blind; [now intros s sn|]. intros rows.
    apply for_each_snapshot_blind. intros r. apply link_snapshot_blind.
Qed.

Lemma ingest_events_snapshot_blind (ep : option string) : snapshot_blind (ingest_events ep).
Proof.
  destruct ep as [text|]; [|apply ret_snapshot_blind]. unfold ingest_events.
  generalize O. induction (readlines text) as [|line lines IH]; intros n;
    [apply ret_snapshot_blind|].
  simpl. apply bind_snapshot_blind; [|intros n'; apply IH].
  unfold ingest_event_line. cbv zeta.
  destruct (String.eqb (strip line) ""); [apply ret_snapshot_blind|].
  apply try_except_snapshot_blind; [|apply ret_snapshot_blind].
  apply bind_snapshot_blind; [apply loads_snapshot_blind|]. intros e.
  apply bind_snapshot_blind; [apply insert_event_snapshot_blind|]. intros _.
  apply bind_snapshot_blind; [apply build_edges_snapshot_blind|]. intros _.
  apply ret_snapshot_blind.
Qed.

Lemma ingest_snapshots_event_blind (sp : option string) : event_blind (ingest_snapshots sp).
Proof.
  destruct sp as [text|]; [|apply ret_event_blind]. unfold ingest_snapshots.
  generalize O. induction (readlines text) as [|line lines IH]; intros n;
    [apply ret_event_blind|].
  simpl. apply bind_event_blind; [|intros n'; apply IH].
  unfold ingest_snapshot_line. cbv zeta.
  destruct (String.eqb (strip line) ""); [apply ret_event_blind|].
  apply try_except_event_blind; [|apply ret_event_blind].
  apply bind_event_blind; [apply loads_event_blind|]. intros e.
  apply bind_event_blind; [|intros _; apply ret_event_blind].
  unfold _insert_snapshot. apply bind_event_blind; [now intros s ev ce|].
  intros row s ev ce. unfold insert_or_ignore_snapshot, with_events. simpl.
  now destruct (has_snapshot (snapshots s) (sn_id row)).
Qed.

End Blind.

(** X6. The two batches do not meet: ingesting the events file and then the
    snapshots file leaves the store that ingesting the snapshots file and
    then the events file leaves, and each batch returns or raises what it
    does when it runs alone on the store. *)
Theorem events_and_snapshots_commute `{Runtime} (ep sp : option string) (s : db) :
  snd (ingest_snapshots sp (snd (ingest_events ep s)))
  = snd (ingest_events ep (snd (ingest_snapshots sp s)))
  /\ fst (ingest_events ep (snd (ingest_snapshots sp s))) = fst (ingest_events ep s)
  /\ fst (ingest_snapshots sp (snd (ingest_events ep s))) = fst (ingest_snapshots sp s).
Proof.
  pose proof (ingest_events_snapshot_blind ep) as He.
  pose proof (ingest_snapshots_event_blind sp) as Hs.
  assert (E1 : snd (ingest_events ep s)
               = with_events s (events (snd (ingest_events ep s)))
                   (causal_edges (snd (ingest_events ep s)))).
  { specialize (He s (snapshots s)). unfold with_snapshots in He.
    destruct s as [ev sn ce]. simpl in *. rewrite He. reflexivity. }
  assert (E2 : snd (ingest_snapshots sp s)
               = with_snapshots s (snapshots (snd (ingest_snapshots sp s)))).
  { specialize (Hs s (events s) (causal_edges s)). unfold with_events in Hs.
    destruct s as [ev sn ce]. simpl in *. rewrite Hs. reflexivity. }
  remember (snd (ingest_events ep s)) as s1 eqn:D1.
  remember (snd (ingest_snapshots sp s)) as s2 eqn:D2.
  assert (A : ingest_snapshots sp s1
              = (fst (ingest_snapshots sp s),
                 with_events s2 (events s1) (causal_edges s1))).
  { transitivity (ingest_snapshots sp (with_events s (events s1) (causal_edges s1)));
      [f_equal; exact E1|]. rewrite Hs, D2. reflexivity. }
  assert (B : ingest_events ep s2
              = (fst (ingest_events ep s), with_snapshots s1 (snapshots s2))).
  { transitivity (ingest_events ep (with_snapshots s (snapshots s2)));
      [f_equal; exact E2|]. rewrite He, D1. reflexivity. }
  rewrite A, B. simpl. repeat split.
Qed.

(* ################################################################# *)
(** * Replaying a batch *)

Section ReplayBatch.
Context `{Runtime}.

Lemma ingest_event_line_eq (line : string) (n : nat) (s : db) :
  ingest_event_line line n s =
  if String.eqb (strip line) "" then (Ok n, s)
  else match json_loads (strip line) with
       | None => (Ok n, s)
       | Some e =>
           match _insert_event e s with
           | (Ok _, sa) =>
               match _build_edges e sa with
               | (Ok _, sb) => (Ok (S n), sb)
               | (Raise x, sb) =>
                   if decode_or_integrity_error x then (Ok n, sb) else (Raise x, sb)
               end
           | (Raise x, sa) =>
               if decode_or_integrity_error x then (Ok n, sa) else (Raise x, sa)
           end
       end.
Proof.
  unfold ingest_event_line. cbv zeta.
  destruct (String.eqb (strip line) ""); [reflexivity|].
  unfold try_except, loads, bind, ret, raise.
  destruct (json_loads (strip line)) as [e|]; [|reflexivity].
  destruct (_insert_event e s) as [[[]|x] sa]; [|reflexivity].
  destruct (_build_edges e sa) as [[[]|x] sb]; reflexivity.
Qed.

Lemma skipped_line_step (line : string) :
  skipped line -> forall n s, ingest_event_line line n s = (Ok n, s).
Proof.
  intros Hk n s. rewrite ingest_event_line_eq.
  destruct Hk as [->|[Hk|(e & x & He & Hx & Hc)]]; [reflexivity| |].
  - destruct (String.eqb (strip line) ""); [reflexivity|now rewrite Hk].
  - destruct (String.eqb (strip line) ""); [reflexivity|]. rewrite He.
    unfold _insert_event, bind, lift. now rewrite Hx, Hc.
Qed.

Lemma record_line_step (line : string) (e : json) (row : event_row) (n : nat) (s : db) :
  record_line line e row ->
  exists sa sb,
    _insert_event e s = (Ok tt, sa) /\ _build_edges e sa = (Ok tt, sb)
    /\ ingest_event_line line n s = (Ok (S n), sb).
Proof.
  intros (Hne & He & Hrow).
  destruct (insert_event_returns e row s Hrow) as (sa & Hi).
  destruct (build_edges_returns e row sa Hrow) as (sb & Hb).
  exists sa, sb. split; [exact Hi|split; [exact Hb|]].
  now rewrite ingest_event_line_eq, Hne, He, Hi, Hb.
Qed.

Lemma returned_line_kind (line : string) (n n' : nat) (s s' : db) :
  ingest_event_line line n s = (Ok n', s') ->
  skipped line \/ exists e row, record_line line e row.
Proof.
  rewrite ingest_event_line_eq.
  destruct (String.eqb (strip line) "") eqn:Hne;
    [intros _; left; left; now apply String.eqb_eq|].
  destruct (json_loads (strip line)) as [e|] eqn:He; [|left; right; now left].
  destruct (event_row_of e) as [row|x] eqn:Hrow; [right; now exists e, row|].
  unfold _insert_event, bind, lift. rewrite Hrow.
  destruct (decode_or_integrity_error x) eqn:Hc; [|discriminate].
  intros _. left. right. right. now exists e, x.
Qed.

Lemma returned_lines_kind (lines : list string) (n n' : nat) (s s' : db) :
  ingest_lines ingest_event_line lines n s = (Ok n', s') ->
  Forall (fun line => skipped line \/ exists e row, record_line line e row) lines.
Proof.
  revert n s. induction lines as [|line lines IH]; intros n s; [constructor|].
  simpl. unfold bind.
  destruct (ingest_event_line line n s) as [[n1|x] s1] eqn:E; [|discriminate].
  intros Hrest. constructor; [eapply returned_line_kind; eassumption|eauto].
Qed.

(** The count and the return of a batch depend on its lines alone. *)
Lemma lines_of_kind_return (lines : list string) :
  Forall (fun line => skipped line \/ exists e row, record_line line e row) lines ->
  forall n s t n',
    fst (ingest_lines ingest_event_line lines n s) = Ok n' ->
    fst (ingest_lines ingest_event_line lines n t) = Ok n'.
Proof.
  induction 1 as [|line lines Hk Hks IH]; intros n s t n'; [trivial|].
  simpl. unfold bind. destruct Hk as [Hk|(e & row & Hk)].
  - rewrite !(skipped_line_step line Hk). apply IH.
  - destruct (record_line_step line e row n s Hk) as (sa & sb & _ & _ & ->).
    destruct (record_line_step line e row n t Hk) as (ta & tb & _ & _ & ->).
    apply IH.
Qed.

(** Once the events of the lines are stored, a pass leaves the events as
    they are. *)
Lemma stored_line_step (line : string) (e : json) (row : event_row) (n : nat) (s : db) :
  record_line line e row ->
  has_event (events s) (ev_id row) = true ->
  exists sb,
    _build_edges e s = (Ok tt, sb) /\ ingest_event_line line n s = (Ok (S n), sb)
    /\ events sb = events s.
Proof.
  intros Hk Hst. destruct (record_line_step line e row n s Hk) as (sa & sb & Hi & Hb & Hl).
  destruct Hk as (_ & _ & Hrow).
  rewrite (insert_event_present e row s Hrow Hst) in Hi. injection Hi as <-.
  exists sb. split; [exact Hb|split; [exact Hl|]].
  apply build_edges_spec in Hb. now destruct Hb as (new & (Hev & _) & _).
Qed.

Lemma stored_lines_keep_events (lines : list string) (n n' : nat) (s s' : db) :
  (forall line e row, In line lines -> record_line line e row ->
                      has_event (events s) (ev_id row) = true) ->
  ingest_lines ingest_event_line lines n s = (Ok n', s') ->
  events s' = events s.
Proof.
  revert n s. induction lines as [|line lines IH]; intros n s Hst; [now intros [= _ <-]|].
  simpl. unfold bind.
  destruct (ingest_event_line line n s) as [[n1|x] s1] eqn:E; [|discriminate].
  intros Hrest.
  assert (Hev : events s1 = events s).
  { destruct (returned_line_kind line n n1 s s1 E) as [Hk|(e & row & Hk)].
    - rewrite (skipped_line_step line Hk) in E. now injection E as _ <-.
    - destruct (stored_line_step line e row n s Hk) as (sb & _ & Hl & Hev);
        [eapply Hst; [now left|eassumption]|].
      rewrite Hl in E. now injection E as _ <-. }
  rewrite <- Hev. apply (IH n1 s1); [|exact Hrest].
  intros l e row Hin Hk. rewrite Hev. eapply Hst; [right|]; eassumption.
Qed.

Lemma lines_edge_ids_within (lines : list string) (n : nat) (s : db) :
  edge_ids_within s (snd (ingest_lines ingest_event_line lines n s)).
Proof.
  apply (event_lines_keep (edge_ids_within s)).
  - intros e s1 s2 H1 Hi. apply insert_event_spec in Hi.
    destruct Hi as (row & _ & _ & Hc & _). intros id Hid. rewrite Hc. now apply H1.
  - intros e s1 s2 o H1 Hb. apply build_edges_spec in Hb. destruct Hb as (new & Ha & _).
    eapply edge_ids_within_trans; [exact H1|eapply appends_grows; exact Ha].
  - apply edge_ids_within_refl.
Qed.

(** A pass over stored events, run again on a store that has the same
    events and every edge id the pass ended with, changes nothing. *)
Lemma settled_lines (lines : list string) (n n' : nat) (s s' s'' : db) :
  (forall line e row, In line lines -> record_line line e row ->
                      has_event (events s) (ev_id row) = true) ->
  ingest_lines ingest_event_line lines n s = (Ok n', s') ->
  events s'' = events s ->
  edge_ids_within s' s'' ->
  ingest_lines ingest_event_line lines n s'' = (Ok n', s'').
Proof.
  revert n s. induction lines as [|line lines IH]; intros n s Hst;
    [now intros [= <- _]|].
  simpl. unfold bind.
  destruct (ingest_event_line line n s) as [[n1|x] s1] eqn:E; [|discriminate].
  intros Hrest Hev Hwithin.
  pose proof (lines_edge_ids_within lines n1 s1) as Hgrow. rewrite Hrest in Hgrow.
  simpl in Hgrow.
  destruct (returned_line_kind line n n1 s s1 E) as [Hk|(e & row & Hk)].
  - rewrite (skipped_line_step line Hk) in E. injection E as <- <-.
    rewrite (skipped_line_step line Hk).
    apply (IH n s); [|exact Hrest|exact Hev|exact Hwithin].
    intros l e row Hin Hk'. eapply Hst; [right|]; eassumption.
  - destruct (stored_line_step line e row n s Hk) as (sb & Hb & Hl & Hevb);
      [eapply Hst; [now left|eassumption]|].
    rewrite Hl in E. injection E as <- <-.
    assert (Hst'' : has_event (events s'') (ev_id row) = true).
    { rewrite Hev. eapply Hst; [now left|eassumption]. }
    destruct (stored_line_step line e row n s'' Hk Hst'') as (sb'' & Hb'' & Hl'' & _).
    rewrite (build_edges_stable e s sb s'' (Ok tt) Hb Hev
               (edge_ids_within_trans _ _ _ Hgrow Hwithin)) in Hb''.
    injection Hb'' as <-. rewrite Hl''.
    apply (IH (S n) sb); [|exact Hrest|congruence|exact Hwithin].
    intros l e' row' Hin Hk'. rewrite Hevb. eapply Hst; [right|]; eassumption.
Qed.

(** A pass that returned has stored the event of every record line. *)
Lemma returned_lines_stored (lines : list string) (n n' : nat) (s s' : db) :
  ingest_lines ingest_event_line lines n s = (Ok n', s') ->
  forall line e row, In line lines -> record_line line e row ->
                     has_event (events s') (ev_id row) = true.
Proof.
  revert n s. induction lines as [|line lines IH]; intros n s; [now intros _ ? ? ? []|].
  simpl. unfold bind.
  destruct (ingest_event_line line n s) as [[n1|x] s1] eqn:E; [|discriminate].
  intros Hrest l e row [<-|Hin] Hk; [|eapply IH; eassumption].
  destruct (record_line_step line e row n s Hk) as (sa & sb & Hi & Hb & Hl).
  rewrite Hl in E. injection E as <- <-.
  assert (Hsb : has_event (events sb) (ev_id row) = true).
  { apply insert_event_spec in Hi. destruct Hi as (row' & Hrow' & _ & _ & Hst & _).
    destruct Hk as (_ & _ & Hrow). rewrite Hrow in Hrow'. injection Hrow' as <-.
    apply build_edges_spec in Hb. destruct Hb as (new & (Hev & _) & _). now rewrite Hev. }
  change (has_event (events (snd (Ok n', s'))) (ev_id row) = true). rewrite <- Hrest.
  apply (event_lines_keep (fun t => has_event (events t) (ev_id row) = true));
    [| |exact Hsb].
  - intros e0 s0 s0' H0 Hi0. apply insert_event_spec in Hi0.
    destruct Hi0 as (r0 & _ & _ & _ & _ & [->|E0]); [exact H0|].
    now rewrite E0, has_event_app, H0.
  - intros e0 s0 s0' o0 H0 Hb0. apply build_edges_spec in Hb0.
    destruct Hb0 as (new & (E0 & _) & _). now rewrite E0.
Qed.

End ReplayBatch.

(** X7. Replaying a whole events file settles after one replay. When a batch
    over the file returned, a second batch over the same file returns the
    same count, stores no event and touches no snapshot (it can only append
    edges), and a third batch returns the same count and leaves the store
    exactly as the second left it. *)
Theorem batch_replay_settles `{Runtime} (ep : option string) (n : nat) (s s1 : db) :
  ingest_events ep s = (Ok n, s1) ->
  exists s2,
    ingest_events ep s1 = (Ok n, s2)
    /\ events s2 = events s1 /\ snapshots s2 = snapshots s1
    /\ (exists new, causal_edges s2 = causal_edges s1 ++ new)
    /\ ingest_events ep s2 = (Ok n, s2).
Proof.
  destruct ep as [text|]; simpl.
  - intros H1.
    pose proof (returned_lines_kind _ _ _ _ _ H1) as Hk.
    pose proof (returned_lines_stored _ _ _ _ _ H1) as Hst.
    destruct (ingest_lines ingest_event_line (readlines text) 0 s1) as [r2 s2] eqn:H2.
    pose proof (lines_of_kind_return _ Hk 0%nat s s1 n) as Hn.
    rewrite H1, H2 in Hn. simpl in Hn. specialize (Hn eq_refl). subst r2.
    exists s2. split; [reflexivity|].
    pose proof (stored_lines_keep_events _ _ _ _ _ Hst H2) as Hev.
    pose proof (ingest_events_grows (Some text) s1) as [(_ & _ & Hce) Hsn].
    simpl in Hce, Hsn. rewrite H2 in Hce, Hsn. simpl in Hce, Hsn.
    split; [exact Hev|split; [exact Hsn|split; [exact Hce|]]].
    apply (settled_lines _ _ _ s1 s2 s2 Hst H2 Hev). apply edge_ids_within_refl.
  - intros [= <- <-]. exists s. repeat split. exists []. now rewrite app_nil_r.
Qed.

Lemma batch_replay_settles_witness :
  exists s2,
    ingest_events (Some (oomkill_night ++ nl ++ pressure_late ++ nl)%string) store_out_of_order
    = (Ok 2%nat, s2)
    /\ events s2 = events store_out_of_order /\ snapshots s2 = snapshots store_out_of_order
    /\ (exists new, causal_edges s2 = causal_edges store_out_of_order ++ new)
    /\ ingest_events (Some (oomkill_night ++ nl ++ pressure_late ++ nl)%string) s2
       = (Ok 2%nat, s2).
Proof.
  apply (batch_replay_settles (H := python_sqlite)
           (Some (oomkill_night ++ nl ++ pressure_late ++ nl)%string) 2 empty_db).
  vm_compute. reflexivity.
Defined.

(* ################################################################# *)
(** * Looking up what was ingested *)

Lemma hd_error_filter {A : Type} (p : A -> bool) (l : list A) :
  match hd_error (filter p l) with
  | Some x => In x l /\ p x = true
  | None => forall y, In y l -> p y = false
  end.
Proof.
  induction l as [|y l IH]; simpl; [tauto|].
  destruct (p y) eqn:Hy; simpl; [auto|].
  destruct (hd_error (filter p l)) as [x|]; [tauto|].
  intros z [<-|Hz]; auto.
Qed.

(** X8. A causal-chain query that is given an event id starts from a stored
    event with that id, whatever pod and namespace it is given, and shows the
    no-events line only when no stored event has the id; an empty event id
    counts as none, and the query falls back to the last significant event
    of the pod. *)
Theorem causal_chain_by_event_id (s : db) (pod_name namespace : string)
  (event_id : option string) :
  if truthy event_id then
    match query_causal_chain s pod_name namespace event_id with
    | ChainOf a chain =>
        In a (events s) /\ ev_id a = VText (or_empty event_id)
        /\ chain = _walk_chain s a 0 5
    | NoSignificantEvents =>
        forall r, In r (events s) -> ev_id r <> VText (or_empty event_id)
    end
  else query_causal_chain s pod_name namespace event_id
       = query_causal_chain s pod_name namespace None.
Proof.
  unfold query_causal_chain. destruct (truthy event_id) eqn:Ht.
  - unfold event_by_id.
    pose proof (hd_error_filter (fun r => sql_eq (ev_id r) (VText (or_empty event_id)))
                  (events s)) as Hf.
    destruct (hd_error _) as [a|].
    + destruct Hf as [Hin Heq]. apply sql_eq_text in Heq. auto.
    + intros r Hr Hid. apply Hf in Hr. apply sql_eq_text in Hid. congruence.
  - destruct event_id as [id|]; reflexivity.
Qed.

(** X9. An event that went through the pipeline can be looked up: in a store
    the pipeline reaches, a causal-chain query given the text id of any
    ingested record finds a stored event with that id and walks its chain. *)
Theorem ingested_event_found_by_id `{Runtime} (records : list json) (s : db) (e : json)
  (row : event_row) (id pod_name namespace : string) :
  reached records s ->
  In e records -> event_row_of e = Ok row -> ev_id row = VText id -> id <> "" ->
  exists a,
    query_causal_chain s pod_name namespace (Some id) = ChainOf a (_walk_chain s a 0 5)
    /\ In a (events s) /\ ev_id a = VText id.
Proof.
  intros Hr He Hrow Hid Hne.
  destruct (reached_invariant records s Hr) as (_ & I2 & _).
  destruct (I2 e row He Hrow) as (stored & Hstored & Hsid).
  unfold query_causal_chain, truthy, or_empty.
  destruct (String.eqb id "") eqn:E; [apply String.eqb_eq in E; contradiction|].
  simpl. unfold event_by_id.
  pose proof (hd_error_filter (fun r => sql_eq (ev_id r) (VText id)) (events s)) as Hf.
  destruct (hd_error _) as [a|].
  - destruct Hf as [Hin Heq]. apply sql_eq_text in Heq. now exists a.
  - apply Hf in Hstored. rewrite Hsid, Hid in Hstored.
    assert (sql_eq (VText id) (VText id) = true) by now apply sql_eq_text.
    congruence.
Qed.

Lemma ingested_event_found_by_id_witness :
  exists a,
    query_causal_chain store_in_order "web-0" "default" (Some "e2")
    = ChainOf a (_walk_chain store_in_order a 0 5)
    /\ In a (events store_in_order) /\ ev_id a = VText "e2".
Proof.
  apply (ingested_event_found_by_id (H := python_sqlite)
           [record_of oomkill_night; record_of pressure_late] store_in_order
           (record_of oomkill_night)
           (mk_event (VText "e2") (VText "2026-01-10T23:19:42Z") (VText "OOMKill")
              (VText "") (VText "web-0") (VText "default") (VText "n1") (VText "")
              (JObj []))).
  - exact store_in_order_reached.
  - now left.
  - vm_compute. reflexivity.
  - reflexivity.
  - discriminate.
Defined.

Section StoredSnapshot.
Context `{Runtime}.

Lemma insert_snapshot_stores (r : json) (row : snapshot_row) (s s1 : db) :
  _insert_snapshot r s = (Ok tt, s1) ->
  snapshot_row_of r = Ok row ->
  has_snapshot (snapshots s) (sn_id row) = false ->
  In row (snapshots s1).
Proof.
  unfold _insert_snapshot, bind, lift. intros Hi Hrow Hnew. rewrite Hrow in Hi.
  unfold insert_or_ignore_snapshot in Hi. rewrite Hnew in Hi. injection Hi as <-.
  simpl. apply in_or_app. right. now left.
Qed.

End StoredSnapshot.

(** X10. A snapshot that was inserted is found: when [_insert_snapshot]
    stored a record under a new id, then after any further batch of
    snapshots a state-at query for the object of the record, in its
    namespace and at any time not before its timestamp, shows a snapshot,
    and that snapshot is not older than the record. *)
Theorem stored_snapshot_is_found `{Runtime} (r : json) (row : snapshot_row) (s s1 : db)
  (sp : option string) (object_kind object_name namespace timestamp query_time : string) :
  _insert_snapshot r s = (Ok tt, s1) ->
  snapshot_row_of r = Ok row ->
  has_snapshot (snapshots s) (sn_id row) = false ->
  sn_object_kind row = VText object_kind ->
  sn_object_name row = VText object_name ->
  sn_namespace row = VText namespace ->
  sn_timestamp row = VText timestamp ->
  sql_le (VText timestamp) (VText query_time) = true ->
  exists found,
    query_state_at (snd (ingest_snapshots sp s1)) object_kind object_name (Some namespace)
      query_time = StateOf found
    /\ sql_le (VText timestamp) (sn_timestamp found) = true.
Proof.
  intros Hi Hrow Hnew Hk Hn Hns Hts Hle.
  pose proof (insert_snapshot_stores r row s s1 Hi Hrow Hnew) as Hin.
  destruct (ingest_snapshots_grows sp s1) as [(_ & (sn & Hsn) & _) _].
  set (s2 := snd (ingest_snapshots sp s1)) in *.
  assert (Hin2 : In row (snapshots s2)) by (rewrite Hsn; apply in_or_app; now left).
  unfold query_state_at.
  pose proof (top_one sn_timestamp
                (fun r0 =>
                   sql_eq (sn_object_kind r0) (VText object_kind)
                   && sql_eq (sn_object_name r0) (VText object_name)
                   && (sql_eq (sn_namespace r0) (VText (or_empty (Some namespace)))
                       || sql_eq (sn_namespace r0) (VText "")
                       || sqlval_eqb (sn_namespace r0) VNull)
                   && sql_le (sn_timestamp r0) (VText query_time))
                (snapshots s2)) as Htop.
  unfold top in Htop.
  assert (Hp : sql_eq (sn_object_kind row) (VText object_kind)
               && sql_eq (sn_object_name row) (VText object_name)
               && (sql_eq (sn_namespace row) (VText (or_empty (Some namespace)))
                   || sql_eq (sn_namespace row) (VText "")
                   || sqlval_eqb (sn_namespace row) VNull)
               && sql_le (sn_timestamp row) (VText query_time) = true).
  { apply state_filter_spec. unfold answers_state_at. rewrite Hts. simpl. auto. }
  destruct (hd_error _) as [found|].
  - exists found. split; [reflexivity|].
    destruct Htop as (_ & _ & Hmax). specialize (Hmax row Hin2 Hp).
    rewrite Hts in Hmax. rewrite key_le_sql_le in Hmax by discriminate. exact Hmax.
  - specialize (Htop row Hin2). congruence.
Qed.

Lemma stored_snapshot_is_found_witness :
  exists found,
    query_state_at
      (snd (ingest_snapshots (Some (snapshot_line ++ nl)%string) store_with_snapshot))
      "Pod" "web-0" (Some "default") "2026-01-10T12:00:00Z" = StateOf found
    /\ sql_le (VText "2026-01-10T10:00:00Z") (sn_timestamp found) = true.
Proof.
  apply (stored_snapshot_is_found (H := python_sqlite) (record_of snapshot_line)
           (mk_snapshot (VText "s1") (VText "2026-01-10T10:00:00Z") (VText "Pod")
              (VText "web-0") (VText "default") (VText "")
              (JObj [("phase", JStr "Running")]))
           empty_db store_with_snapshot);
    vm_compute; reflexivity.
Defined.

(* ################################################################# *)
(** * A file shorter than the offset *)

Lemma drop_beyond (n : nat) (text : string) :
  (String.length text <= n)%nat -> drop n text = EmptyString.
Proof.
  revert n. induction text as [|c text IH]; intros [|n]; simpl; intros Hn;
    try reflexivity; [lia|apply IH; lia].
Qed.

(** X11. A file that is not longer than the tracked offset is not read:
    when both files are at or below their offsets (nothing new, a rotation,
    a truncation), a turn of tail mode ingests nothing and keeps both
    offsets where they were, so that what a shrunken file holds now is not
    read on this turn. *)
Theorem shrunken_file_is_not_read `{Runtime} (events_text snapshots_text : string)
  (o : offsets) (s : db) :
  (String.length events_text <= epos o)%nat ->
  (String.length snapshots_text <= spos o)%nat ->
  watch_cycle (Some events_text) (Some snapshots_text) o s = (Ok o, s).
Proof.
  intros He Hs. unfold watch_cycle, read_from.
  rewrite (drop_beyond _ _ He), (drop_beyond _ _ Hs).
  rewrite !Nat.max_l by assumption. simpl. now destruct o.
Qed.

Lemma shrunken_file_is_not_read_witness :
  watch_cycle (Some (oomkill_night ++ nl)%string) (Some (snapshot_line ++ nl)%string)
    (mk_offsets 139 400) store_with_pressure
  = (Ok (mk_offsets 139 400), store_with_pressure).
Proof.
  apply (shrunken_file_is_not_read (H := python_sqlite)); vm_compute; lia.
Defined.

(* ################################################################# *)
(** * What a chain shows *)

Lemma causes_of_in (s : db) (id : sqlval) (c : event_row) (ed : edge_row) :
  In (c, ed) (causes_of s id)
  <-> In c (events s) /\ In ed (causal_edges s)
      /\ sql_eq (ev_id c) (ce_cause_event_id ed) = true
      /\ sql_eq (ce_effect_event_id ed) id = true.
Proof.
  unfold causes_of. split.
  - intros Hin. apply (Permutation_in _ (order_by_asc_perm _ _)) in Hin.
    apply in_flat_map in Hin. destruct Hin as (e & He & Hin).
    apply in_map_iff in Hin. destruct Hin as (ce & [= <- <-] & Hce).
    apply filter_In in Hce. destruct Hce as [Hce Hj].
    apply andb_true_iff in Hj. tauto.
  - intros (Hc & Hed & H1 & H2).
    apply (Permutation_in _ (Permutation_sym (order_by_asc_perm _ _))).
    apply in_flat_map. exists c. split; [exact Hc|].
    apply in_map_iff. exists ed. split; [reflexivity|].
    apply filter_In. split; [exact Hed|]. now rewrite H1, H2.
Qed.

Lemma is_cause_in (s : db) (c a : event_row) :
  is_cause s c a <-> exists ed, In (c, ed) (causes_of s (ev_id a)).
Proof.
  unfold is_cause. split.
  - intros (Hc & ed & Hed & H1 & H2). exists ed. apply causes_of_in. auto.
  - intros (ed & Hin). apply causes_of_in in Hin. destruct Hin as (Hc & Hed & H1 & H2).
    split; [exact Hc|]. now exists ed.
Qed.

Lemma walk_chain_rows (s : db) (k : nat) :
  forall (a : event_row) (depth max_depth : nat) (r : event_row),
    (max_depth - depth = k)%nat ->
    In r (flat_map rows_of (_walk_chain s a depth max_depth))
    <-> exists n, (1 <= n <= k)%nat /\ leads_to s n r a.
Proof.
  induction k as [|k IH]; intros a depth max_depth r Hk; rewrite walk_chain_unfold.
  - destruct (le_lt_dec max_depth depth); [|lia]. simpl. split; [tauto|].
    intros (n & Hn & _). lia.
  - destruct (le_lt_dec max_depth depth); [lia|].
    rewrite in_flat_map. split.
    + intros (node & Hnode & Hr). apply in_map_iff in Hnode.
      destruct Hnode as ([c ed] & <- & Hc). simpl in Hr.
      assert (Hca : is_cause s c a) by (apply is_cause_in; now exists ed).
      destruct Hr as [<-|Hr].
      * exists 1%nat. split; [lia|]. simpl. now exists c.
      * apply (IH c (S depth) max_depth r) in Hr; [|lia].
        destruct Hr as (n & Hn & Hp). exists (S n). split; [lia|]. simpl. now exists c.
    + intros (n & Hn & Hp). destruct n as [|n]; [lia|]. simpl in Hp.
      destruct Hp as (m & Hma & Hp).
      apply is_cause_in in Hma. destruct Hma as (ed & Hin).
      exists (Cause m (ce_confidence ed) (ce_edge_type ed)
                (_walk_chain s m (S depth) max_depth)).
      split.
      * apply in_map_iff. now exists (m, ed).
      * simpl. destruct n as [|n]; [left; now symmetry|right].
        apply (IH m (S depth) max_depth r); [lia|]. exists (S n). split; [lia|exact Hp].
Qed.

(** X12. What a causal chain shows: the events in the tree [_walk_chain]
    returns for an anchor are exactly the stored events from which a path of
    stored edges leads to the anchor, each edge joined on the ids of its
    cause and of its effect, the path having at least one edge and at most
    as many as the depths that are left; for the queries, at most five. *)
Theorem chain_shows_the_ancestors (s : db) (a r : event_row) (depth max_depth : nat) :
  (In r (flat_map rows_of (_walk_chain s a depth max_depth))
   <-> exists n, (1 <= n <= max_depth - depth)%nat /\ leads_to s n r a)
  /\ (In r (flat_map rows_of (_walk_chain s a 0 5))
      <-> exists n, (1 <= n <= 5)%nat /\ leads_to s n r a).
Proof.
  split.
  - now apply (walk_chain_rows s (max_depth - depth)).
  - now apply (walk_chain_rows s 5).
Qed.

(* ################################################################# *)
(** * The chains of a store the pipeline built *)

Lemma sql_eq_eq (a b : sqlval) : sql_eq a b = true -> a = b.
Proof.
  destruct b as [|y|t]; [now destruct a| |apply sql_eq_text].
  destruct a as [|x|u]; try discriminate.
  unfold sql_eq. simpl. destruct (x ?= y) eqn:E; try discriminate.
  apply Z.compare_eq in E. now subst.
Qed.

Lemma event_row_of_type (e : json) (row : event_row) (t : json) :
  event_row_of e = Ok row -> get e "event_type" (JStr "") = Ok t ->
  adapt t = Ok (ev_event_type row).
Proof.
  unfold event_row_of. intros Hrow Ht. and_then_inv Hrow. injection Hrow as <-. simpl.
  match goal with
  | E : subscript e "event_type" = Ok ?v |- _ =>
      rewrite (subscript_get e "event_type" v (JStr "") E) in Ht; injection Ht as <-
  end.
  assumption.
Qed.

Lemma str_eq_true (t : json) (s : string) : str_eq t s = true -> t = JStr s.
Proof. destruct t; simpl; try discriminate. intros E. apply String.eqb_eq in E. now subst. Qed.

Section TwoLevels.
Context `{Runtime}.

Lemma edge_typed_grows (records records' : list json) (s s' : db) (ed : edge_row) :
  (forall e, In e records -> In e records') ->
  (forall row, In row (events s) -> In row (events s')) ->
  edge_typed records s ed -> edge_typed records' s' ed.
Proof.
  intros Hr Hs (c & e & row & Hc & He & Hrow & H1 & H2 & Hty).
  exists c, e, row. repeat split; auto.
Qed.

Lemma linked_typed (records : list json) (s : db) (e : json) (row : event_row)
  (ed : edge_row) :
  In e records -> event_row_of e = Ok row ->
  linked e (events s) ed -> edge_typed records s ed.
Proof.
  intros He Hrow
    [(t & p & r & Ht & Hs & _ & Hin & id & effect & Hid & Had & ->)
    |(t & p & r & Ht & Hs & _ & Hin & id & effect & Hid & Had & ->)].
  - apply pressure_causes_type in Hin. destruct Hin as [Hin Hty].
    apply str_eq_true in Hs. subst t.
    pose proof (event_row_of_type e row _ Hrow Ht) as Hrt. simpl in Hrt.
    exists r, e, row. simpl. repeat split; trivial.
    + symmetry. eapply event_row_of_id; eassumption.
    + left. split; [exact Hty|congruence].
  - apply evidence_cause_type in Hin. destruct Hin as [Hin Hty].
    apply str_eq_true in Hs. subst t.
    pose proof (event_row_of_type e row _ Hrow Ht) as Hrt. simpl in Hrt.
    exists r, e, row. simpl. repeat split; trivial.
    + symmetry. eapply event_row_of_id; eassumption.
    + right. split; [exact Hty|congruence].
Qed.

Lemma reached_edges_typed (records : list json) (s : db) :
  reached records s -> forall ed, In ed (causal_edges s) -> edge_typed records s ed.
Proof.
  induction 1 as [|records s s' e Hr IH Hi|records s s' e out Hr IH He Hb
                 |records s s' r Hr IH Hi]; intros ed Hed.
  - destruct Hed.
  - apply insert_event_spec in Hi. destruct Hi as (row & _ & _ & Hc & _ & Hev).
    rewrite Hc in Hed. apply (edge_typed_grows records _ s); [now right| |auto].
    destruct Hev as [->|Hev]; [auto|]. intros x Hx. rewrite Hev. apply in_or_app. now left.
  - destruct (reached_records_have_rows _ _ Hr e He) as (row & Hrow).
    apply build_edges_spec in Hb. destruct Hb as (new & (Hev & _ & Hc) & Hnew).
    rewrite Hc in Hed. apply in_app_or in Hed.
    apply (edge_typed_grows records _ s); [auto|now rewrite Hev|].
    destruct Hed as [Hed|Hed]; [auto|].
    rewrite Forall_forall in Hnew. eapply linked_typed; eauto.
  - apply insert_snapshot_spec in Hi. destruct Hi as [Hev Hc].
    rewrite Hc in Hed. apply (edge_typed_grows records _ s); [auto|now rewrite Hev|auto].
Qed.

Variable records : list json.
Variable s : db.
Hypothesis Hreached : reached records s.
Hypothesis Hfix : ids_fix_types records.

Lemma stored_same_id_same_type (x y : event_row) :
  In x (events s) -> ev_id x = ev_id y ->
  (exists e, In e records /\ event_row_of e = Ok y) ->
  ev_event_type x = ev_event_type y.
Proof.
  intros Hx Hid (e & He & Hy).
  destruct (reached_invariant records s Hreached) as (I1 & _).
  destruct (I1 x Hx) as (e' & He' & Hx').
  exact (Hfix e' e x y He' He Hx' Hy Hid).
Qed.

Lemma cause_types (c a : event_row) :
  is_cause s c a ->
  (ev_event_type c = VText "NodeMemoryPressure" \/ ev_event_type c = VText "OOMKill")
  /\ (In a (events s) -> rule_types (ev_event_type c) (ev_event_type a)).
Proof.
  intros (Hc & ed & Hed & Hj1 & Hj2). apply sql_eq_eq in Hj1, Hj2.
  destruct (reached_edges_typed records s Hreached ed Hed)
    as (c' & e & row & Hc' & He & Hrow & Hcid & Heid & Hty).
  destruct (reached_invariant records s Hreached) as (I1 & _).
  assert (Tc : ev_event_type c = ev_event_type c').
  { apply stored_same_id_same_type; [exact Hc|congruence|]. now apply I1. }
  split.
  - rewrite Tc. destruct Hty as [[-> _]|[-> _]]; auto.
  - intros Ha.
    assert (Ta : ev_event_type a = ev_event_type row).
    { apply stored_same_id_same_type; [exact Ha|congruence|]. now exists e. }
    now rewrite Tc, Ta.
Qed.

Lemma pressure_has_no_cause (y : event_row) :
  In y (events s) -> ev_event_type y = VText "NodeMemoryPressure" ->
  causes_of s (ev_id y) = [].
Proof.
  intros Hy Hty. destruct (causes_of s (ev_id y)) as [|[c ed] l] eqn:E; [reflexivity|].
  assert (Hc : is_cause s c y).
  { apply is_cause_in. exists ed. rewrite E. now left. }
  apply cause_types in Hc. destruct Hc as [_ Hc]. specialize (Hc Hy).
  rewrite Hty in Hc. destruct Hc as [[_ Hc]|[_ Hc]]; discriminate.
Qed.

Lemma chain_two_levels (a : event_row) (depth : nat) :
  (chain_levels (_walk_chain s a depth 5) <= 2)%nat.
Proof.
  rewrite walk_chain_unfold. destruct (le_lt_dec 5 depth); [unfold chain_levels; simpl; lia|].
  apply chain_levels_map. intros [c1 ed1] H1. cbn [fst snd levels].
  change (S (chain_levels (_walk_chain s c1 (S depth) 5)) <= 2)%nat.
  assert (C1 : is_cause s c1 a) by (apply is_cause_in; now exists ed1).
  apply le_n_S.
  rewrite walk_chain_unfold. destruct (le_lt_dec 5 (S depth)); [unfold chain_levels; simpl; lia|].
  apply chain_levels_map. intros [c2 ed2] H2. cbn [fst snd levels].
  change (S (chain_levels (_walk_chain s c2 (S (S depth)) 5)) <= 1)%nat.
  assert (C2 : is_cause s c2 c1) by (apply is_cause_in; now exists ed2).
  apply le_n_S.
  rewrite walk_chain_unfold. destruct (le_lt_dec 5 (S (S depth))); [unfold chain_levels; simpl; lia|].
  rewrite pressure_has_no_cause; [unfold chain_levels; simpl; lia|apply C2|].
  destruct (cause_types c1 a C1) as [T1 _].
  destruct (cause_types c2 c1 C2) as [_ T2]. specialize (T2 (proj1 C1)).
  destruct T2 as [[T2 _]|[_ T2]]; [exact T2|].
  rewrite T2 in T1. destruct T1; discriminate.
Qed.

End TwoLevels.

(** X13. In a store the pipeline built from records whose id fixes their
    event type, a causal chain never nests more than two levels: memory
    pressure under an OOM kill under its evidence. The walk meets no cycle
    there and its depth limit of five is never reached. *)
Theorem pipeline_chains_have_two_levels `{Runtime} (records : list json) (s : db)
  (anchor : event_row) (pod_name namespace : string) (event_id : option string) :
  reached records s ->
  ids_fix_types records ->
  (chain_levels (_walk_chain s anchor 0 5) <= 2)%nat
  /\ match query_causal_chain s pod_name namespace event_id with
     | ChainOf _ chain => (chain_levels chain <= 2)%nat
     | NoSignificantEvents => True
     end.
Proof.
  intros Hr Hfix. split; [now apply (chain_two_levels records)|].
  unfold query_causal_chain.
  destruct (if truthy event_id then event_by_id s (or_empty event_id)
            else last_significant_event s pod_name namespace) as [a|]; [|exact I].
  now apply (chain_two_levels records).
Qed.

Lemma pipeline_chains_have_two_levels_witness :
  (chain_levels
     (_walk_chain store_in_order
        (mk_event (VText "e2") (VText "2026-01-10T23:19:42Z") (VText "OOMKill")
           (VText "") (VText "web-0") (VText "default") (VText "n1") (VText "")
           (JObj [])) 0 5) <= 2)%nat
  /\ match query_causal_chain store_in_order "web-0" "default" None with
     | ChainOf _ chain => (chain_levels chain <= 2)%nat
     | NoSignificantEvents => True
     end.
Proof.
  apply (pipeline_chains_have_two_levels (H := python_sqlite)
           [record_of oomkill_night; record_of pressure_late]).
  - exact store_in_order_reached.
  - intros e1 e2 r1 r2 [<-|[<-|[]]] [<-|[<-|[]]] E1 E2;
      vm_compute in E1, E2; injection E1 as <-; injection E2 as <-;
      simpl; congruence.
Defined.

(* ################################################################# *)
(** * What a batch counts *)

Section Counts.
Context `{Runtime}.

Lemma skipped_not_counted (line : string) : skipped line -> counted_line line = false.
Proof.
  unfold counted_line. intros [Hk|[Hk|(e & x & He & Hx & _)]].
  - rewrite Hk. reflexivity.
  - rewrite Hk. apply andb_false_r.
  - rewrite He, Hx. apply andb_false_r.
Qed.

Lemma record_counted (line : string) (e : json) (row : event_row) :
  record_line line e row -> counted_line line = true.
Proof. unfold counted_line. intros (Hne & He & Hrow). now rewrite Hne, He, Hrow. Qed.

Lemma ingest_lines_count (lines : list string) (n n' : nat) (s s' : db) :
  ingest_lines ingest_event_line lines n s = (Ok n', s') ->
  n' = (n + List.length (filter counted_line lines))%nat
  /\ (List.length (events s') + n <= List.length (events s) + n')%nat.
Proof.
  revert n s. induction lines as [|line lines IH]; intros n s.
  - intros [= <- <-]. simpl. lia.
  - simpl. unfold bind.
    destruct (ingest_event_line line n s) as [[n1|x] s1] eqn:E; [|discriminate].
    intros Hrest. destruct (IH n1 s1 Hrest) as [Hn Hlen].
    destruct (returned_line_kind line n n1 s s1 E) as [Hk|(e & row & Hk)].
    + rewrite (skipped_line_step line Hk) in E. injection E as <- <-.
      rewrite (skipped_not_counted line Hk). split; [exact Hn|exact Hlen].
    + destruct (record_line_step line e row n s Hk) as (sa & sb & Hi & Hb & Hl).
      rewrite Hl in E. injection E as <- <-.
      rewrite (record_counted line e row Hk). cbn [List.length].
      apply insert_event_spec in Hi. destruct Hi as (row' & _ & _ & _ & _ & Hev).
      apply build_edges_spec in Hb. destruct Hb as (new & (Hevb & _) & _).
      split; [lia|]. rewrite Hevb in Hlen.
      destruct Hev as [->|Hev]; [lia|]. rewrite Hev, length_app in Hlen. simpl in Hlen. lia.
Qed.

End Counts.

(** X14. What the count of a batch means: when [ingest_events] returns, the
    count it returns is the number of lines of the file that are not blank,
    decode, and hold a record whose fields can be bound, the replayed ones
    among them; the events table has grown by at most that many rows. *)
Theorem batch_count_is_record_lines `{Runtime} (text : string) (n : nat) (s s' : db) :
  ingest_events (Some text) s = (Ok n, s') ->
  n = List.length (filter counted_line (readlines text))
  /\ (List.length (events s') <= List.length (events s) + n)%nat.
Proof.
  intros Hr. apply ingest_lines_count in Hr. simpl in Hr. lia.
Qed.

Lemma batch_count_is_record_lines_witness :
  2%nat = List.length
            (filter counted_line
               (readlines (nl ++ oomkill_night ++ nl ++ "not json" ++ nl ++ pressure_late ++ nl)%string))
  /\ (List.length (events store_in_order) <= List.length (events store_in_order) + 2)%nat.
Proof.
  apply (batch_count_is_record_lines (H := python_sqlite)
           (nl ++ oomkill_night ++ nl ++ "not json" ++ nl ++ pressure_late ++ nl)%string
           2 store_in_order store_in_order).
  vm_compute. reflexivity.
Defined.

(* ################################################################# *)
(** * The HTTP read paths and the command line *)

Lemma filter_filter {A : Type} (p q : A -> bool) (l : list A) :
  filter p (filter q l) = filter (fun x => q x && p x) l.
Proof.
  induction l as [|x l IH]; simpl; [reflexivity|].
  destruct (q x); simpl; [destruct (p x)|]; now rewrite IH.
Qed.

(** X15. The HTTP read paths against the command line. [GET /causal-chain]
    with a pod answers what [query_causal_chain] shows for that pod, the
    namespace defaulting to default, with no event id. [GET /state-at] with a
    name and a time answers what [query_state_at] shows on the store without
    its snapshots of NULL namespace: those the command line accepts for any
    namespace and the HTTP path never returns. *)
Theorem http_answers_as_command_line (s : db) (params : list (string * string)) :
  let pod := param params "pod" "" in
  let ns := param params "namespace" "default" in
  let kind := param params "object" "Pod" in
  let name := param params "name" "" in
  let time := param params "time" "" in
  get_causal_chain s params
  = (if String.eqb pod "" then ErrorBody 400 "pod parameter required"
     else chain_response pod ns (query_causal_chain s pod ns None))
  /\ get_state_at s params
     = (if String.eqb name "" || String.eqb time "" then
          ErrorBody 400 "name and time parameters required"
        else state_response kind name time
               (query_state_at (without_null_namespaces s) kind name (Some ns) time)).
Proof.
  cbv zeta. split.
  - unfold get_causal_chain, query_causal_chain. simpl.
    destruct (String.eqb (param params "pod" "") ""); [reflexivity|].
    now destruct (last_significant_event s _ _).
  - unfold get_state_at, query_state_at, without_null_namespaces.
    cbv zeta. cbn [snapshots or_empty].
    destruct (String.eqb (param params "name" "") "" || String.eqb (param params "time" "") "");
      [reflexivity|].
    rewrite filter_filter.
    match goal with
    | |- match hd_error (firstn 1 (order_by_desc _ (filter ?p ?l))) with _ => _ end
         = state_response _ _ _
             match hd_error (firstn 1 (order_by_desc _ (filter ?q ?l))) with _ => _ end =>
        rewrite (filter_ext p q)
    end.
    + now destruct (hd_error _).
    + intros r. destruct (sqlval_eqb (sn_namespace r) VNull) eqn:E; simpl.
      * apply sqlval_eqb_eq in E. rewrite E. simpl. now rewrite !andb_false_r.
      * now rewrite orb_false_r.
Qed.

(* ################################################################# *)
(** * Grouping *)

Section GroupByFacts.
Context {A K : Type}.
Variable key : A -> K.
Variable key_eqb : K -> K -> bool.
Hypothesis key_eqb_eq : forall a b, key_eqb a b = true <-> a = b.

Lemma key_eqb_refl (k : K) : key_eqb k k = true.
Proof. now apply key_eqb_eq. Qed.

Lemma key_eqb_neq (a b : K) : key_eqb a b = false <-> a <> b.
Proof.
  split.
  - intros Hf Heq. apply key_eqb_eq in Heq. congruence.
  - intros Hne. destruct (key_eqb a b) eqn:E; [|reflexivity].
    apply key_eqb_eq in E. contradiction.
Qed.

Lemma add_to_group_keys (x : A) (groups : list (K * list A)) :
  map fst (add_to_group key key_eqb x groups)
  = if existsb (fun k => key_eqb k (key x)) (map fst groups) then map fst groups
    else map fst groups ++ [key x].
Proof.
  induction groups as [|[k members] groups IH]; simpl; [reflexivity|].
  destruct (key_eqb k (key x)); simpl; [reflexivity|]. rewrite IH.
  now destruct (existsb _ _).
Qed.

Lemma add_to_group_in (x : A) (groups : list (K * list A)) (k : K) (members : list A) :
  NoDup (map fst groups) ->
  In (k, members) (add_to_group key key_eqb x groups) ->
  (k <> key x /\ In (k, members) groups)
  \/ (k = key x /\ exists old, In (k, old) groups /\ members = old ++ [x])
  \/ (k = key x /\ members = [x] /\ ~ In k (map fst groups)).
Proof.
  induction groups as [|[k' old] groups IH]; simpl; intros Hnd Hin.
  - destruct Hin as [[= <- <-]|[]]. right. right. auto.
  - inversion Hnd as [|? ? Hk' Hnd']; subst.
    destruct (key_eqb k' (key x)) eqn:E.
    + apply key_eqb_eq in E. subst k'. destruct Hin as [[= <- <-]|Hin].
      * right. left. split; [reflexivity|]. exists old. auto.
      * left. split; [|now right]. intros ->. apply Hk'.
        apply in_map_iff. now exists (key x, members).
    + apply key_eqb_neq in E. destruct Hin as [[= <- <-]|Hin].
      * left. split; [exact E|now left].
      * destruct (IH Hnd' Hin) as [[H1 H2]|[(H1 & o & H2 & H3)|(H1 & H2 & H3)]].
        -- left. auto.
        -- right. left. split; [exact H1|]. exists o. auto.
        -- right. right. split; [exact H1|split; [exact H2|]].
           intros [Hc|Hc]; [subst; now apply E|contradiction].
Qed.

Lemma existsb_key (k : K) (keys : list K) :
  existsb (fun k' => key_eqb k' k) keys = true <-> In k keys.
Proof.
  rewrite existsb_exists. split.
  - intros (k' & Hin & E). apply key_eqb_eq in E. now subst.
  - intros Hin. exists k. split; [exact Hin|apply key_eqb_refl].
Qed.

Lemma grouped_step (done : list A) (groups : list (K * list A)) (x : A) :
  grouped key key_eqb done groups ->
  grouped key key_eqb (done ++ [x]) (add_to_group key key_eqb x groups).
Proof.
  unfold grouped. intros (Hnd & Hm & Hc). split; [|split].
  - rewrite add_to_group_keys.
    destruct (existsb _ _) eqn:E; [exact Hnd|].
    apply nodup_snoc; [exact Hnd|].
    intros Hin. apply existsb_key in Hin. congruence.
  - intros k members Hin. rewrite filter_app. simpl.
    apply add_to_group_in in Hin; [|exact Hnd].
    destruct Hin as [[Hne Hin]|[(-> & old & Hin & ->)|(-> & -> & Hnew)]].
    + apply key_eqb_neq in Hne. rewrite Hne, app_nil_r. now apply Hm in Hin.
    + rewrite key_eqb_refl. apply Hm in Hin. destruct Hin as [_ Hin].
      split; [now destruct old|now rewrite <- Hin].
    + rewrite key_eqb_refl. split; [discriminate|].
      assert (Hnone : filter (fun y => key_eqb (key x) (key y)) done = []).
      { destruct (filter _ done) as [|y l] eqn:E; [reflexivity|].
        assert (Hy : In y (filter (fun y => key_eqb (key x) (key y)) done))
          by (rewrite E; now left).
        apply filter_In in Hy. destruct Hy as [Hy Hk]. apply key_eqb_eq in Hk.
        exfalso. apply Hnew. rewrite Hk. now apply Hc. }
      now rewrite Hnone.
  - intros y Hy. rewrite add_to_group_keys. apply in_app_or in Hy.
    destruct (existsb _ _) eqn:E.
    + destruct Hy as [Hy|[<-|[]]]; [now apply Hc|now apply existsb_key].
    + apply in_or_app. destruct Hy as [Hy|[<-|[]]]; [left; now apply Hc|right; now left].
Qed.

Lemma grouped_fold (l done : list A) (groups : list (K * list A)) :
  grouped key key_eqb done groups ->
  grouped key key_eqb (done ++ l) (fold_left (fun g x => add_to_group key key_eqb x g) l groups).
Proof.
  revert done groups. induction l as [|x l IH]; intros done groups Hg; simpl.
  - now rewrite app_nil_r.
  - replace (done ++ x :: l) with ((done ++ [x]) ++ l) by now rewrite <- app_assoc.
    apply IH. now apply grouped_step.
Qed.

(** The groups of GROUP BY: one group for each key that occurs, holding the
    rows of that key in table order. *)
Lemma group_by_grouped (l : list A) : grouped key key_eqb l (group_by key key_eqb l).
Proof.
  apply (grouped_fold l [] []). unfold grouped. simpl.
  split; [constructor|split; intros; contradiction].
Qed.

End GroupByFacts.

(* ################################################################# *)
(** * The summary *)

Lemma sql_ne_empty (v : sqlval) :
  sql_ne v (VText "") = true <-> v <> VNull /\ v <> VText "".
Proof.
  destruct v as [|n|t]; unfold sql_ne; simpl.
  - split; [discriminate|]. intros [Hn _]. now contradiction Hn.
  - split; [|reflexivity]. intros _. split; discriminate.
  - destruct t as [|c t]; simpl.
    + split; [discriminate|]. intros [_ Hn]. now contradiction Hn.
    + split; [|reflexivity]. intros _. split; discriminate.
Qed.

Lemma same_pod_eq (a b : sqlval * sqlval) : same_pod a b = true <-> a = b.
Proof.
  unfold same_pod. destruct a as [a1 a2], b as [b1 b2]. simpl.
  rewrite andb_true_iff, !sqlval_eqb_eq. split; [intros [-> ->]; reflexivity|].
  intros [= -> ->]. auto.
Qed.

Lemma count_key_le (n m : nat) : key_le (count_key n) (count_key m) = true <-> (n <= m)%nat.
Proof.
  unfold count_key, key_le, sql_le. simpl.
  destruct (Z.of_nat n ?= Z.of_nat m) eqn:E.
  - apply Z.compare_eq in E. split; [lia|reflexivity].
  - rewrite Z.compare_lt_iff in E. split; [lia|reflexivity].
  - rewrite Z.compare_gt_iff in E. split; [discriminate|lia].
Qed.

Lemma strongly_sorted_impl {A : Type} (R R' : A -> A -> Prop) (l : list A) :
  (forall x y, R x y -> R' x y) -> StronglySorted R l -> StronglySorted R' l.
Proof.
  intros Himp. induction 1 as [|x l Hs IH Hx]; constructor; [exact IH|].
  eapply Forall_impl; [|exact Hx]. auto.
Qed.

Lemma strongly_sorted_firstn {A : Type} (R : A -> A -> Prop) (k : nat) (l : list A) :
  StronglySorted R l -> StronglySorted R (firstn k l).
Proof.
  intros Hs. revert k. induction Hs as [|x l Hs IH Hx]; intros [|k]; simpl;
    try constructor; [apply IH|].
  rewrite Forall_forall in *. intros y Hy. apply Hx. eapply in_firstn. exact Hy.
Qed.

Lemma nodup_firstn {A : Type} (k : nat) (l : list A) : NoDup l -> NoDup (firstn k l).
Proof.
  intros Hn. rewrite <- (firstn_skipn k l) in Hn. now apply NoDup_app_remove_r in Hn.
Qed.

Lemma list_sum_perm (l l' : list nat) : Permutation l l' -> list_sum l = list_sum l'.
Proof. induction 1; simpl; lia. Qed.

Section Totals.
Context {A K : Type}.
Variable key : A -> K.
Variable key_eqb : K -> K -> bool.

Lemma add_to_group_total (x : A) (groups : list (K * list A)) :
  list_sum (map (fun g => List.length (snd g)) (add_to_group key key_eqb x groups))
  = S (list_sum (map (fun g => List.length (snd g)) groups)).
Proof.
  induction groups as [|[k members] groups IH]; simpl; [reflexivity|].
  destruct (key_eqb k (key x)); simpl.
  - rewrite length_app. simpl. lia.
  - rewrite IH. lia.
Qed.

Lemma group_by_total (l : list A) :
  list_sum (map (fun g => List.length (snd g)) (group_by key key_eqb l)) = List.length l.
Proof.
  unfold group_by.
  assert (Hg : forall groups,
             list_sum (map (fun g => List.length (snd g))
                         (fold_left (fun g x => add_to_group key key_eqb x g) l groups))
             = (list_sum (map (fun g => List.length (snd g)) groups) + List.length l)%nat).
  { induction l as [|x l IH]; intros groups; simpl; [lia|].
    rewrite IH, add_to_group_total. lia. }
  now rewrite Hg.
Qed.

End Totals.

Lemma sql_max2_cases (a b : sqlval) :
  (sql_max2 a b = a \/ sql_max2 a b = b)
  /\ key_le a (sql_max2 a b) = true /\ key_le b (sql_max2 a b) = true.
Proof.
  destruct (sqlval_eqb a VNull) eqn:Ea.
  { apply sqlval_eqb_eq in Ea. subst a. simpl.
    split; [now right|split; [reflexivity|apply key_le_refl]]. }
  destruct (sqlval_eqb b VNull) eqn:Eb.
  { apply sqlval_eqb_eq in Eb. subst b.
    assert (E : sql_max2 a VNull = a) by now destruct a.
    rewrite E. split; [now left|split; [apply key_le_refl|reflexivity]]. }
  assert (Ha : a <> VNull) by (intros ->; discriminate).
  assert (Hb : b <> VNull) by (intros ->; discriminate).
  assert (E : sql_max2 a b = if sql_le a b then b else a)
    by (destruct a, b; try reflexivity; contradiction).
  rewrite E. destruct (sql_le a b) eqn:Hle.
  - split; [now right|split; [now rewrite key_le_sql_le|apply key_le_refl]].
  - split; [now left|split; [apply key_le_refl|]].
    rewrite key_le_sql_le by exact Hb.
    destruct (sql_le_total a b Ha Hb) as [Hc|Hc]; congruence.
Qed.

Lemma sql_max_fold (l : list sqlval) (acc : sqlval) :
  let m := fold_left sql_max2 l acc in
  (m = acc \/ In m l)
  /\ key_le acc m = true
  /\ forall v, In v l -> key_le v m = true.
Proof.
  revert acc. induction l as [|x l IH]; intros acc; simpl.
  - split; [now left|]. split; [apply key_le_refl|contradiction].
  - destruct (IH (sql_max2 acc x)) as (Hin & Hacc & Hall).
    destruct (sql_max2_cases acc x) as (Hc & Ha & Hx).
    split; [|split].
    + destruct Hin as [Hin|Hin]; [|now right; right].
      rewrite Hin. destruct Hc as [Hc|Hc]; rewrite Hc; auto.
    + eapply key_le_trans; eassumption.
    + intros v [<-|Hv]; [eapply key_le_trans; eassumption|now apply Hall].
Qed.

(** MAX over a group: a value of the group unless it is NULL, and no value
    of the group comes after it. *)
Lemma sql_max_spec (l : list sqlval) :
  (sql_max l = VNull \/ In (sql_max l) l)
  /\ forall v, In v l -> key_le v (sql_max l) = true.
Proof.
  destruct (sql_max_fold l VNull) as (Hin & _ & Hall). split; [exact Hin|exact Hall].
Qed.

Lemma filter_both {A : Type} (p q : A -> bool) (l : list A) :
  (forall x, q x = true -> p x = true) ->
  filter q (filter p l) = filter q l.
Proof.
  intros Himp. induction l as [|x l IH]; simpl; [reflexivity|].
  destruct (p x) eqn:Hp; simpl; [now rewrite IH|].
  destruct (q x) eqn:Hq; [|exact IH]. apply Himp in Hq. congruence.
Qed.

(** X16. The pattern distribution of the summary: every pattern id that an
    event carries (not NULL, not empty) is listed once, with the number of
    events that carry it, the greatest count first; the counts add up to the
    number of events that carry a pattern id. The three totals that
    [GET /summary] answers are those of [query_summary]. *)
Theorem summary_counts_each_pattern (s : db) :
  let ps := patterns (query_summary s) in
  let carries := fun r => sql_ne (ev_pattern_id r) (VText "") in
  NoDup (map pc_pattern_id ps)
  /\ (forall p, In p ps ->
        pc_pattern_id p <> VNull /\ pc_pattern_id p <> VText ""
        /\ (1 <= pc_cnt p)%nat
        /\ pc_cnt p
           = List.length
               (filter (fun r => sqlval_eqb (pc_pattern_id p) (ev_pattern_id r)) (events s)))
  /\ (forall r, In r (events s) -> carries r = true ->
                In (ev_pattern_id r) (map pc_pattern_id ps))
  /\ list_sum (map pc_cnt ps) = List.length (filter carries (events s))
  /\ StronglySorted (fun p q => (pc_cnt q <= pc_cnt p)%nat) ps
  /\ get_summary s
     = mk_summary_body (ec (query_summary s)) (cc (query_summary s)) (sc (query_summary s)).
Proof.
  cbv zeta. cbn [patterns query_summary ec cc sc]. unfold pattern_distribution.
  set (carries := fun r => sql_ne (ev_pattern_id r) (VText "")).
  set (rows := filter carries (events s)).
  set (groups := group_by ev_pattern_id sqlval_eqb rows).
  set (counts := map (fun g => mk_pattern_count (fst g) (List.length (snd g))) groups).
  pose proof (group_by_grouped ev_pattern_id sqlval_eqb sqlval_eqb_eq rows)
    as (Hnd & Hm & Hc).
  fold groups in Hnd, Hm, Hc.
  pose proof (order_by_desc_perm (fun p => count_key (pc_cnt p)) counts) as Hperm.
  assert (Hin : forall p, In p counts ->
                          exists members, In (pc_pattern_id p, members) groups
                                          /\ pc_cnt p = List.length members).
  { intros p Hp. apply in_map_iff in Hp. destruct Hp as ([k members] & <- & Hg).
    now exists members. }
  split; [|split; [|split; [|split; [|split]]]].
  - apply (Permutation_NoDup (l := map pc_pattern_id counts)).
    + apply Permutation_map. now apply Permutation_sym.
    + unfold counts. rewrite map_map. simpl. exact Hnd.
  - intros p Hp. apply (Permutation_in _ Hperm) in Hp.
    destruct (Hin p Hp) as (members & Hg & Hcnt).
    destruct (Hm _ _ Hg) as [Hne Hmem].
    assert (Hk : pc_pattern_id p <> VNull /\ pc_pattern_id p <> VText "").
    { destruct members as [|r members'] eqn:E; [contradiction|].
      assert (Hr : In r (filter (fun x => sqlval_eqb (pc_pattern_id p) (ev_pattern_id x)) rows))
        by (rewrite <- Hmem; now left).
      apply filter_In in Hr. destruct Hr as [Hr Hkey]. apply sqlval_eqb_eq in Hkey.
      apply filter_In in Hr. destruct Hr as [_ Hr]. unfold carries in Hr.
      rewrite <- Hkey in Hr. now apply sql_ne_empty. }
    destruct Hk as [Hk1 Hk2]. split; [exact Hk1|split; [exact Hk2|]].
    split; [rewrite Hcnt; destruct members; [contradiction|simpl; lia]|].
    rewrite Hcnt, Hmem. unfold rows. f_equal. apply filter_both.
    intros r Hr. apply sqlval_eqb_eq in Hr. unfold carries. rewrite <- Hr.
    now apply sql_ne_empty.
  - intros r Hr Hcar.
    assert (Hrow : In r rows) by (apply filter_In; auto).
    apply Hc in Hrow.
    apply (Permutation_in _ (Permutation_map pc_pattern_id (Permutation_sym Hperm))).
    unfold counts. rewrite map_map. simpl. exact Hrow.
  - rewrite (list_sum_perm _ _ (Permutation_map pc_cnt Hperm)).
    unfold counts. rewrite map_map. simpl.
    apply (group_by_total ev_pattern_id sqlval_eqb rows).
  - eapply strongly_sorted_impl; [|apply order_by_desc_sorted].
    intros p q Hpq. unfold before_desc in Hpq. now apply count_key_le.
  - reflexivity.
Qed.

(** X17. The top pods of the summary: at most ten rows, no pod and
    namespace twice, the greatest number of events first; a row counts the
    events of its pod and namespace, of which there is at least one, the pod
    name being neither NULL nor empty; its last_seen is the greatest
    timestamp among them; and a pod that is left out has no more events
    than any pod that is listed. *)
Theorem summary_top_pods (s : db) :
  let ps := pods (query_summary s) in
  (List.length ps <= 10)%nat
  /\ NoDup (map (fun p => (pd_pod_name p, pd_namespace p)) ps)
  /\ StronglySorted (fun p q => (pd_events q <= pd_events p)%nat) ps
  /\ (forall p, In p ps ->
        pd_pod_name p <> VNull /\ pd_pod_name p <> VText ""
        /\ (1 <= pd_events p)%nat
        /\ pd_events p = List.length (filter (of_pod p) (events s))
        /\ (forall r, In r (events s) -> of_pod p r = true ->
                      key_le (ev_timestamp r) (pd_last_seen p) = true)
        /\ (pd_last_seen p = VNull
            \/ exists r, In r (events s) /\ of_pod p r = true
                         /\ ev_timestamp r = pd_last_seen p))
  /\ (forall r, In r (events s) -> sql_ne (ev_pod_name r) (VText "") = true ->
        (exists p, In p ps /\ of_pod p r = true)
        \/ forall p, In p ps ->
                     (List.length (filter (beside r) (events s)) <= pd_events p)%nat).
Proof.
  cbv zeta. cbn [pods query_summary]. unfold top_pods.
  set (carries := fun r => sql_ne (ev_pod_name r) (VText "")).
  set (keyf := fun r => (ev_pod_name r, ev_namespace r)).
  set (rows := filter carries (events s)).
  set (groups := group_by keyf same_pod rows).
  set (mk := fun g : (sqlval * sqlval) * list event_row =>
               mk_pod_count (fst (fst g)) (snd (fst g)) (List.length (snd g))
                 (sql_max (map ev_timestamp (snd g)))).
  set (counts := map mk groups).
  set (sorted := order_by_desc (fun p => count_key (pd_events p)) counts).
  pose proof (group_by_grouped keyf same_pod same_pod_eq rows) as (Hnd & Hm & Hc).
  fold groups in Hnd, Hm, Hc.
  pose proof (order_by_desc_perm (fun p => count_key (pd_events p)) counts) as Hperm.
  fold sorted in Hperm.
  assert (Hsorted : StronglySorted (fun p q => (pd_events q <= pd_events p)%nat) sorted).
  { eapply strongly_sorted_impl; [|apply order_by_desc_sorted].
    intros p q Hpq. unfold before_desc in Hpq. now apply count_key_le. }
  assert (Hrow : forall k members,
             In (k, members) groups ->
             fst k <> VNull /\ fst k <> VText ""
             /\ members <> []
             /\ members = filter (fun r => same_pod k (keyf r)) (events s)).
  { intros k members Hg. destruct (Hm _ _ Hg) as [Hne Hmem].
    assert (Hk : fst k <> VNull /\ fst k <> VText "").
    { destruct members as [|r members'] eqn:E; [contradiction|].
      assert (Hr : In r (filter (fun x => same_pod k (keyf x)) rows))
        by (rewrite <- Hmem; now left).
      apply filter_In in Hr. destruct Hr as [Hr Hkey]. apply same_pod_eq in Hkey.
      apply filter_In in Hr. destruct Hr as [_ Hr]. unfold carries in Hr.
      subst k. now apply sql_ne_empty. }
    destruct Hk as [Hk1 Hk2]. repeat split; trivial.
    rewrite Hmem. unfold rows. apply filter_both.
    intros r Hr. apply same_pod_eq in Hr. unfold carries. subst k. now apply sql_ne_empty. }
  split; [|split; [|split; [|split]]].
  - rewrite length_firstn. lia.
  - rewrite <- firstn_map. apply nodup_firstn.
    apply (Permutation_NoDup (l := map (fun p => (pd_pod_name p, pd_namespace p)) counts)).
    + apply Permutation_map. now apply Permutation_sym.
    + unfold counts. rewrite map_map.
      replace (map (fun x => (pd_pod_name (mk x), pd_namespace (mk x))) groups)
        with (map fst groups); [exact Hnd|].
      apply map_ext. now intros [[k1 k2] members].
  - now apply strongly_sorted_firstn.
  - intros p Hp. apply in_firstn in Hp. apply (Permutation_in _ Hperm) in Hp.
    apply in_map_iff in Hp. destruct Hp as ([k members] & <- & Hg).
    destruct (Hrow _ _ Hg) as (Hk1 & Hk2 & Hne & Hmem). subst mk. cbn [fst snd] in *.
    cbn [pd_pod_name pd_namespace pd_events pd_last_seen].
    assert (Hof : forall r, of_pod (mk_pod_count (fst k) (snd k) (List.length members)
                                     (sql_max (map ev_timestamp members))) r
                            = same_pod k (keyf r)) by reflexivity.
    split; [exact Hk1|split; [exact Hk2|]].
    split; [destruct members; [contradiction|simpl; lia]|].
    split; [rewrite Hmem at 1; f_equal; apply filter_ext; intros r; now rewrite Hof|].
    destruct (sql_max_spec (map ev_timestamp members)) as [Hmax Hall].
    split.
    + intros r Hr Hpr. apply Hall. apply in_map. rewrite Hmem. apply filter_In.
      rewrite Hof in Hpr. auto.
    + destruct Hmax as [Hmax|Hmax]; [now left|right].
      apply in_map_iff in Hmax. destruct Hmax as (r & Hts & Hr).
      rewrite Hmem in Hr. apply filter_In in Hr. destruct Hr as [Hr Hkr].
      exists r. rewrite Hof. auto.
  - intros r Hr Hcar.
    assert (Hin : In r rows) by (apply filter_In; auto).
    apply Hc in Hin. apply in_map_iff in Hin. destruct Hin as ([k members] & Hk & Hg).
    simpl in Hk. subst k.
    destruct (Hrow _ _ Hg) as (_ & _ & _ & Hmem).
    assert (Hp : In (mk (keyf r, members)) sorted).
    { apply (Permutation_in _ (Permutation_sym Hperm)). now apply in_map. }
    rewrite <- (firstn_skipn 10 sorted) in Hp. apply in_app_or in Hp.
    destruct Hp as [Hp|Hp].
    + left. exists (mk (keyf r, members)). split; [exact Hp|].
      unfold of_pod, mk, keyf. simpl. now rewrite !sqlval_eqb_refl.
    + right. intros p Hpin.
      rewrite <- (firstn_skipn 10 sorted) in Hsorted.
      pose proof (sorted_app_inv _ _ _ Hsorted p _ Hpin Hp) as Hle.
      unfold mk in Hle. cbn [pd_events snd] in Hle.
      rewrite Hmem in Hle. exact Hle.
Qed.

(* ################################################################# *)
(** * The pattern history *)

Section History.
Context `{Runtime}.

Lemma history_where_spec (now : sqlval) (pattern_id : string)
  (pod_name namespace : option string) (days : Z) (r : event_row) :
  history_where now pattern_id pod_name namespace days r = true
  <-> ev_pattern_id r = VText pattern_id
      /\ (truthy pod_name = true -> ev_pod_name r = VText (or_empty pod_name))
      /\ (truthy namespace = true -> ev_namespace r = VText (or_empty namespace))
      /\ sql_ge (ev_timestamp r) (days_ago now days) = true.
Proof.
  unfold history_where. rewrite !andb_true_iff, sql_eq_text.
  destruct (truthy pod_name), (truthy namespace); rewrite ?sql_eq_text; intuition congruence.
Qed.

Lemma negative_days_select_nothing (now : sqlval) (pattern_id : string)
  (pod_name namespace : option string) (days : Z) (r : event_row) :
  days < 0 -> history_where now pattern_id pod_name namespace days r = false.
Proof.
  intros Hd. unfold history_where, days_ago.
  apply Z.ltb_lt in Hd. rewrite Hd.
  assert (E : sql_ge (ev_timestamp r) VNull = false) by now destruct (ev_timestamp r).
  rewrite E. apply andb_false_r.
Qed.

End History.

(** X18. The pattern history. The rows [query_pattern_history] prints are
    the stored events of the pattern, of the pod and of the namespace when
    these are given and not empty, whose timestamp is not below the text of
    [datetime('now', '-N days')], the most recent first; with a negative
    number of days there is none. [GET /pattern-history] answers the rows of
    the command line without pod and namespace, with their number, a 400
    without a pattern and a 500 when [days] is not a number. *)
Theorem pattern_history_rows `{Runtime} (int_of_str : string -> Z + string)
  (now : sqlval) (s : db) (pattern_id : string) (pod_name namespace : option string)
  (days : Z) (params : list (string * string)) :
  (exists selected,
     query_pattern_history now s pattern_id pod_name namespace days
     = map history_row_of selected
     /\ Permutation selected
          (filter (history_where now pattern_id pod_name namespace days) (events s))
     /\ (forall r, In r selected <->
                   In r (events s)
                   /\ ev_pattern_id r = VText pattern_id
                   /\ (truthy pod_name = true -> ev_pod_name r = VText (or_empty pod_name))
                   /\ (truthy namespace = true ->
                       ev_namespace r = VText (or_empty namespace))
                   /\ sql_ge (ev_timestamp r) (days_ago now days) = true)
     /\ StronglySorted (before_desc ev_timestamp) selected)
  /\ (days < 0 -> query_pattern_history now s pattern_id pod_name namespace days = [])
  /\ get_pattern_history int_of_str now s params
     = (let pattern := param params "pattern" "" in
        if String.eqb pattern "" then HistoryError 400 "pattern parameter required"
        else match
               match find (fun kv => String.eqb (fst kv) "days") params with
               | Some kv => int_of_str (snd kv)
               | None => inl 30
               end
             with
             | inr message => HistoryError 500 message
             | inl d =>
                 HistoryBody pattern d
                   (List.length (query_pattern_history now s pattern None None d))
                   (query_pattern_history now s pattern None None d)
             end).
Proof.
  split; [|split].
  - exists (order_by_desc ev_timestamp
              (filter (history_where now pattern_id pod_name namespace days) (events s))).
    split; [reflexivity|]. split; [apply order_by_desc_perm|].
    split; [|apply order_by_desc_sorted].
    intros r. rewrite <- history_where_spec, <- filter_In. split.
    + apply Permutation_in, order_by_desc_perm.
    + apply Permutation_in, Permutation_sym, order_by_desc_perm.
  - intros Hd. unfold query_pattern_history.
    rewrite (filter_ext _ (fun _ => false)
               (fun r => negative_days_select_nothing now pattern_id pod_name namespace
                           days r Hd)).
    assert (E : forall l : list event_row, filter (fun _ => false) l = [])
      by (induction l; auto).
    now rewrite E.
  - unfold get_pattern_history, query_pattern_history. cbv zeta.
    destruct (String.eqb (param params "pattern" "") ""); [reflexivity|].
    destruct (match find _ params with Some kv => int_of_str (snd kv) | None => inl 30 end)
      as [d|message]; [|reflexivity].
    rewrite (filter_ext
               (fun r => sql_eq (ev_pattern_id r) (VText (param params "pattern" ""))
                         && sql_ge (ev_timestamp r) (days_ago now d))
               (history_where now (param params "pattern" "") None None d)); [reflexivity|].
    intros r. unfold history_where. simpl. now rewrite !andb_true_r.
Qed.

(* ################################################################# *)
(** * Every selected cause is linked *)

Lemma in_has_event (evs : list event_row) (r : event_row) :
  In r evs -> has_event evs (ev_id r) = true.
Proof.
  intros Hin. unfold has_event. apply existsb_exists. exists r.
  split; [exact Hin|apply sqlval_eqb_refl].
Qed.

Lemma has_event_fk_ok (evs : list event_row) (v : sqlval) :
  has_event evs v = true -> fk_ok evs v = true.
Proof. now destruct v. Qed.

Section Complete.
Context `{Runtime}.

Lemma link_leaves_edge (event : json) (confidence : Q) (r : sqlval) (id : json)
  (effect : sqlval) (s : db) :
  subscript event "id" = Ok id -> adapt id = Ok effect ->
  fk_ok (events s) r = true -> fk_ok (events s) effect = true ->
  exists s',
    link event confidence r s = (Ok tt, s')
    /\ events s' = events s
    /\ has_edge (causal_edges s') (VText (format_sql r ++ "->" ++ format_py id)) = true.
Proof.
  intros Hid Had Hr He. unfold link, bind, lift, try_except. rewrite Hid. simpl.
  rewrite Had. unfold insert_edge. simpl.
  destruct (has_edge (causal_edges s) _) eqn:Eh.
  - exists s. auto.
  - rewrite Hr, He. simpl. eexists. split; [reflexivity|]. split; [reflexivity|].
    simpl. rewrite has_edge_app. simpl. rewrite String.eqb_refl. now rewrite orb_true_r.
Qed.

Lemma for_each_link_complete (event : json) (confidence : Q) (rows : list event_row)
  (id : json) (effect : sqlval) (s s' : db) (out : res unit) :
  subscript event "id" = Ok id -> adapt id = Ok effect ->
  fk_ok (events s) effect = true ->
  (forall r, In r rows -> fk_ok (events s) (ev_id r) = true) ->
  for_each rows (fun r => link event confidence (ev_id r)) s = (out, s') ->
  forall r, In r rows ->
            has_edge (causal_edges s')
              (VText (format_sql (ev_id r) ++ "->" ++ format_py id)) = true.
Proof.
  intros Hid Had. revert s. induction rows as [|x rows IH]; intros s He Hrows Hrun r Hr;
    [destruct Hr|].
  simpl in Hrun. unfold bind in Hrun.
  destruct (link_leaves_edge event confidence (ev_id x) id effect s Hid Had
              (Hrows x (or_introl eq_refl)) He) as (s1 & Hl & Hev & Hedge).
  rewrite Hl in Hrun.
  destruct Hr as [<-|Hr].
  - apply (for_each_link_grows _ _ _ _ _ _ Hrun). exact Hedge.
  - apply (IH s1); trivial; rewrite Hev; [exact He|]. intros y Hy. apply Hrows. now right.
Qed.

End Complete.

(** X19. The linker is sound and complete on an inserted record. When
    [_build_edges] runs on a record that [_insert_event] has just taken,
    it appends edges and nothing else, every appended edge is one that a
    linking rule writes for the record over the stored events, and for
    every edge that a rule writes for the record, the store then holds an
    edge under its id. *)
Theorem linker_links_every_selected_cause `{Runtime} (e : json) (s sa s' : db)
  (out : res unit) :
  _insert_event e s = (Ok tt, sa) ->
  _build_edges e sa = (out, s') ->
  (exists new, appends sa s' new /\ Forall (linked e (events sa)) new)
  /\ forall ed, linked e (events sa) ed -> has_edge (causal_edges s') (ce_id ed) = true.
Proof.
  intros Hi Hb. split; [now apply build_edges_spec in Hb|].
  apply insert_event_spec in Hi. destruct Hi as (row & Hrow & _ & _ & Hst & _).
  assert (Hfk : forall evs r, In r evs -> fk_ok evs (ev_id r) = true)
    by (intros evs r Hr; now apply has_event_fk_ok, in_has_event).
  unfold _build_edges, bind, lift in Hb.
  intros ed [(t & p & r & Ht & Hs & Hp & Hin & id & effect & Hid & Had & ->)
            |(t & p & r & Ht & Hs & Hp & Hin & id & effect & Hid & Had & ->)];
    rewrite Ht in Hb; simpl;
    assert (He : fk_ok (events sa) effect = true)
      by (apply has_event_fk_ok;
          now rewrite (event_row_of_id e row id effect Hrow Hid Had)).
  - assert (Hrows : forall r0, In r0 (pressure_causes (fst p) (snd p) (events sa)) ->
                                fk_ok (events sa) (ev_id r0) = true)
      by (intros r0 H0; apply Hfk; now apply pressure_causes_in in H0).
    destruct (pressure_rule e t sa) as [[[]|x] s1] eqn:E1.
    + assert (Hg : edge_ids_within s1 s').
      { apply evidence_rule_spec in Hb; [|exact Ht]. destruct Hb as (new & Ha & _).
        eapply appends_grows; exact Ha. }
      apply Hg. unfold pressure_rule in E1. rewrite Hs in E1.
      unfold bind, lift, select_events in E1. rewrite Hp in E1.
      exact (for_each_link_complete e _ _ id effect sa s1 _ Hid Had He Hrows E1 r Hin).
    + injection Hb as _ <-. unfold pressure_rule in E1. rewrite Hs in E1.
      unfold bind, lift, select_events in E1. rewrite Hp in E1.
      exact (for_each_link_complete e _ _ id effect sa s1 _ Hid Had He Hrows E1 r Hin).
  - destruct (pressure_rule e t sa) as [[[]|x] s1] eqn:E1.
    + apply pressure_rule_spec in E1; [|exact Ht]. destruct E1 as (new & (Hev & _) & _).
      assert (Hrows : forall r0,
                 In r0 (evidence_cause (fst (fst p)) (snd (fst p)) (snd p) (events s1)) ->
                 fk_ok (events s1) (ev_id r0) = true)
        by (intros r0 H0; apply Hfk; now apply evidence_cause_in in H0).
      unfold evidence_rule in Hb. rewrite Hs in Hb.
      unfold bind, lift, select_events in Hb. rewrite Hp in Hb.
      rewrite <- Hev in He, Hin.
      exact (for_each_link_complete e _ _ id effect s1 s' _ Hid Had He Hrows Hb r Hin).
    + exfalso. destruct (build_edges_returns e row sa Hrow) as (s2 & Hret).
      unfold _build_edges, bind, lift in Hret. rewrite Ht, E1 in Hret. discriminate.
Qed.

Lemma linker_links_every_selected_cause_witness :
  (exists new,
      appends store_before_linking store_in_order new
      /\ Forall (linked (record_of oomkill_night) (events store_before_linking)) new)
  /\ forall ed,
       linked (record_of oomkill_night) (events store_before_linking) ed ->
       has_edge (causal_edges store_in_order) (ce_id ed) = true.
Proof.
  apply (linker_links_every_selected_cause (H := python_sqlite) (record_of oomkill_night)
           store_with_pressure store_before_linking store_in_order (Ok tt));
    vm_compute; reflexivity.
Defined.

(* ################################################################# *)
(** * Lines that leave no trace *)

Section NoTrace.
Context `{Runtime}.

Lemma acceptable_kind (line : string) :
  acceptable line -> skipped line \/ exists e row, record_line line e row.
Proof.
  unfold acceptable. intros Ha.
  destruct (String.eqb (strip line) "") eqn:Hne;
    [left; left; now apply String.eqb_eq|].
  destruct (json_loads (strip line)) as [e|] eqn:He; [|left; right; now left].
  destruct Ha as (row & Hrow). right. now exists e, row.
Qed.

Lemma record_lines_only (lines : list string) (n : nat) (s : db) :
  Forall acceptable lines ->
  ingest_lines ingest_event_line lines n s
  = ingest_lines ingest_event_line (filter counted_line lines) n s.
Proof.
  intros Ha. revert n s. induction Ha as [|line lines Hl Ha IH]; intros n s; [reflexivity|].
  simpl. destruct (acceptable_kind line Hl) as [Hk|(e & row & Hk)].
  - rewrite (skipped_not_counted line Hk). unfold bind.
    rewrite (skipped_line_step line Hk). apply IH.
  - rewrite (record_counted line e row Hk). simpl. unfold bind.
    destruct (ingest_event_line line n s) as [[n1|x] s1]; [apply IH|reflexivity].
Qed.

End NoTrace.

(** X20. Lines that are blank or do not decode leave no trace. On a file of
    which every line is blank, undecodable, or a record whose fields can be
    bound, [ingest_events] returns, and it returns the count and leaves the
    store that it would on the record lines alone. *)
Theorem undecodable_lines_leave_no_trace `{Runtime} (text : string) (s : db) :
  Forall acceptable (readlines text) ->
  (exists n s', ingest_events (Some text) s = (Ok n, s'))
  /\ ingest_events (Some text) s
     = ingest_lines ingest_event_line (filter counted_line (readlines text)) O s.
Proof.
  intros Ha. split.
  - now apply acceptable_lines_return.
  - now apply record_lines_only.
Qed.

Lemma undecodable_lines_leave_no_trace_witness :
  (exists n s',
      ingest_events
        (Some (nl ++ pressure_late ++ nl ++ "not json" ++ nl ++ oomkill_night ++ nl)%string)
        empty_db = (Ok n, s'))
  /\ ingest_events
       (Some (nl ++ pressure_late ++ nl ++ "not json" ++ nl ++ oomkill_night ++ nl)%string)
       empty_db
     = ingest_lines ingest_event_line
         (filter counted_line
            (readlines
               (nl ++ pressure_late ++ nl ++ "not json" ++ nl ++ oomkill_night ++ nl)%string))
         O empty_db.
Proof.
  apply (undecodable_lines_leave_no_trace (H := python_sqlite)).
  assert (E : readlines (nl ++ pressure_late ++ nl ++ "not json" ++ nl ++ oomkill_night ++ nl)%string
              = [nl; (pressure_late ++ nl)%string; ("not json" ++ nl)%string;
                 (oomkill_night ++ nl)%string]) by (vm_compute; reflexivity).
  rewrite E.
  constructor; [exact I|].
  constructor; [unfold acceptable; vm_compute; eexists; reflexivity|].
  constructor; [exact I|].
  constructor; [unfold acceptable; vm_compute; eexists; reflexivity|].
  constructor.
Defined.

(* ################################################################# *)
(** * The levels of a chain *)

Section Ascending.
Context {A : Type}.
Variable key : A -> sqlval.

Lemma insert_asc_sorted (x : A) (l : list A) :
  StronglySorted (before_asc key) l -> StronglySorted (before_asc key) (insert_asc key x l).
Proof.
  induction 1 as [|y l Hs IH Hy]; simpl; [repeat constructor|].
  destruct (key_le (key y) (key x)) eqn:E.
  - constructor; [exact IH|].
    rewrite Forall_forall in *. intros z Hz.
    apply (Permutation_in _ (insert_asc_perm key x l)) in Hz.
    destruct Hz as [<-|Hz]; [exact E|now apply Hy].
  - assert (Hxy : key_le (key x) (key y) = true)
      by (destruct (key_le_total (key x) (key y)); congruence).
    constructor; [now constructor|]. constructor; [exact Hxy|].
    rewrite Forall_forall in *. intros z Hz.
    unfold before_asc. eapply key_le_trans; [exact Hxy|now apply Hy].
Qed.

Lemma order_by_asc_sorted (l : list A) : StronglySorted (before_asc key) (order_by_asc key l).
Proof.
  unfold order_by_asc.
  assert (Hg : forall acc, StronglySorted (before_asc key) acc ->
                           StronglySorted (before_asc key)
                             (fold_left (fun acc x => insert_asc key x acc) l acc)).
  { induction l as [|x l IH]; intros acc Hacc; simpl; [exact Hacc|].
    apply IH. now apply insert_asc_sorted. }
  apply Hg. constructor.
Qed.

End Ascending.

Lemma strongly_sorted_map {A B : Type} (f : A -> B) (R : B -> B -> Prop) (l : list A) :
  StronglySorted (fun x y => R (f x) (f y)) l -> StronglySorted R (map f l).
Proof.
  induction 1 as [|x l Hs IH Hx]; simpl; constructor; [exact IH|].
  rewrite Forall_forall in *. intros y Hy. apply in_map_iff in Hy.
  destruct Hy as (z & <- & Hz). now apply Hx.
Qed.

(** X21. A level of a chain. While the depth limit is not reached, the
    causes [_walk_chain] returns for an event are the pairs of a stored
    event and a stored edge that join on the ids, the edge leading to the
    event: each node carries the row of the cause, the confidence and the
    type of the edge, and the walk from the cause one level deeper; the
    nodes come in ascending order of the timestamp of the cause. At the
    depth limit there is no node. *)
Theorem chain_level_is_the_join_in_time_order (s : db) (a : event_row)
  (depth max_depth : nat) :
  let nodes := _walk_chain s a depth max_depth in
  if le_lt_dec max_depth depth then nodes = []
  else
    (forall node,
        In node nodes <->
        exists c ed,
          In c (events s) /\ In ed (causal_edges s)
          /\ sql_eq (ev_id c) (ce_cause_event_id ed) = true
          /\ sql_eq (ce_effect_event_id ed) (ev_id a) = true
          /\ node = Cause c (ce_confidence ed) (ce_edge_type ed)
                      (_walk_chain s c (S depth) max_depth))
    /\ StronglySorted (fun x y => before_asc ev_timestamp (node_row x) (node_row y)) nodes.
Proof.
  cbv zeta. rewrite walk_chain_unfold. destruct (le_lt_dec max_depth depth); [reflexivity|].
  split.
  - intros node. rewrite in_map_iff. split.
    + intros ([c ed] & <- & Hin). apply causes_of_in in Hin.
      destruct Hin as (Hc & Hed & H1 & H2). exists c, ed. auto.
    + intros (c & ed & Hc & Hed & H1 & H2 & ->). exists (c, ed).
      split; [reflexivity|]. apply causes_of_in. auto.
  - pose proof (order_by_asc_sorted (fun c : event_row * edge_row => ev_timestamp (fst c))
                  (flat_map (fun e =>
                               map (fun ce => (e, ce))
                                 (filter (fun ce =>
                                            sql_eq (ev_id e) (ce_cause_event_id ce)
                                            && sql_eq (ce_effect_event_id ce) (ev_id a))
                                    (causal_edges s)))
                     (events s))) as Hs.
    fold (causes_of s (ev_id a)) in Hs.
    apply strongly_sorted_map.
    eapply strongly_sorted_impl; [|exact Hs]. intros x y Hxy. exact Hxy.
Qed.

(* ################################################################# *)
(** * Replaying a batch of snapshots *)

Section ReplaySnapshots.
Context `{Runtime}.

(** A snapshot line that went through goes through again, with the same
    count and without a change, on every store that has the snapshot ids of
    the store it left. *)
Lemma ingest_snapshot_line_settled (line : string) (n n1 : nat) (s s1 s'' : db) :
  ingest_snapshot_line line n s = (Ok n1, s1) ->
  (forall id, has_snapshot (snapshots s1) id = true ->
              has_snapshot (snapshots s'') id = true) ->
  ingest_snapshot_line line n s'' = (Ok n1, s'').
Proof.
  unfold ingest_snapshot_line. cbv zeta.
  destruct (String.eqb (strip line) ""); [now intros [= <- _]|].
  unfold try_except, loads, bind, ret, raise.
  destruct (json_loads (strip line)) as [r|]; [|now intros [= <- _]].
  unfold _insert_snapshot, bind, lift.
  destruct (snapshot_row_of r) as [row|x].
  - destruct (insert_or_ignore_snapshot_spec row s) as (sa & Hi & _ & _ & Hst & _).
    rewrite Hi. intros [= <- <-] Hsub.
    unfold insert_or_ignore_snapshot. now rewrite (Hsub _ Hst).
  - destruct (decode_or_integrity_error x); [now intros [= <- _]|discriminate].
Qed.

Lemma snapshot_lines_keep_ids (lines : list string) (n : nat) (s : db) (id : sqlval) :
  has_snapshot (snapshots s) id = true ->
  has_snapshot (snapshots (snd (ingest_lines ingest_snapshot_line lines n s))) id = true.
Proof.
  apply (snapshot_lines_keep (fun t => has_snapshot (snapshots t) id = true)).
  intros r s1 s2 H1 Hi. apply insert_snapshot_grows in Hi.
  destruct Hi as [(_ & (sn & Hsn) & _) _]. now rewrite Hsn, has_snapshot_app, H1.
Qed.

Lemma snapshot_lines_settled (lines : list string) (n n' : nat) (s s' s'' : db) :
  ingest_lines ingest_snapshot_line lines n s = (Ok n', s') ->
  (forall id, has_snapshot (snapshots s') id = true ->
              has_snapshot (snapshots s'') id = true) ->
  ingest_lines ingest_snapshot_line lines n s'' = (Ok n', s'').
Proof.
  revert n s. induction lines as [|line lines IH]; intros n s; [now intros [= <- _]|].
  simpl. unfold bind.
  destruct (ingest_snapshot_line line n s) as [[n1|x] s1] eqn:E; [|discriminate].
  intros Hrest Hsub.
  rewrite (ingest_snapshot_line_settled line n n1 s s1 s'' E).
  - now apply (IH n1 s1).
  - intros id Hid. apply Hsub.
    pose proof (snapshot_lines_keep_ids lines n1 s1 id Hid) as Hk.
    now rewrite Hrest in Hk.
Qed.

End ReplaySnapshots.

(** X22. Replaying a whole snapshots file changes nothing: when a batch of
    snapshots over the file returned, a second batch over the same file
    returns the same count and leaves the store exactly as the first left
    it. *)
Theorem snapshot_batch_replay_is_idempotent `{Runtime} (sp : option string) (n : nat)
  (s s1 : db) :
  ingest_snapshots sp s = (Ok n, s1) ->
  ingest_snapshots sp s1 = (Ok n, s1).
Proof.
  destruct sp as [text|]; simpl; [|now intros [= <- <-]].
  intros H1. now apply (snapshot_lines_settled _ _ _ s s1 s1 H1).
Qed.

Lemma snapshot_batch_replay_is_idempotent_witness :
  ingest_snapshots (Some (snapshot_line ++ nl ++ "not json" ++ nl)%string)
    store_with_snapshot
  = (Ok 1%nat, store_with_snapshot).
Proof.
  apply (snapshot_batch_replay_is_idempotent (H := python_sqlite)
           (Some (snapshot_line ++ nl ++ "not json" ++ nl)%string) 1 empty_db).
  vm_compute. reflexivity.
Defined.
